(** * Report pipeline of the Cypress/Cucumber test framework

    A shallow embedding of the report generation code:
    - [cypress/support/utils/report/cucumber-report-generator.ts]
      (feature-file parser, result correlator, JSON writer),
    - [cypress/support/utils/report/report-statistics.ts]
      (statistics engine, and its analytics helper [getTopErrors]),
    - [cypress/support/utils/report/report-html-generator.ts]
      (screenshot matching: [findScreenshots], [isScenarioFailed]; text
      helper [escapeHtml]).

    Modelling decisions, fixed once here:
    - a JavaScript [number] is an IEEE-754 binary64 value, taken from the
      Standard Library's executable specification [SpecFloat] (round to
      nearest, ties to even), so divisions such as [D / K] round exactly as
      the program does; the values the program meets are the
      representations accepted by [JSNumber.valid];
    - counters that the program only ever increments from [0] are [nat]:
      they stay far below 2^53, where binary64 is exact;
    - a JavaScript string is a [string]; white space, word characters,
      line terminators and letter case are those of the code units below
      128, which is what the program does on ASCII texts, and the
      statements that depend on it say so ([JSString.isAscii]);
    - [path.basename] follows the algorithm of Node's [path.posix]
      character by character;
    - step objects live in an object store ([heap]) and arrays hold
      references into it, because the parser puts the same Background step
      objects into several Scenarios and the correlator mutates them in
      place;
    - an optional array ([elements?], [steps?]) that is absent behaves in
      every function below exactly like the empty array and is modelled as
      the empty list;
    - a [Record<string, T>] is a finite map on own keys; where the program
      reads such an object under a name that comes from the input
      ([testResults[scenario.name]], [screenshots[testName]]), the names
      that a plain object inherits from [Object.prototype] are part of the
      model ([JSObject]): the read finds the inherited value, an
      assignment to [__proto__] sets the prototype, and a call of a method
      the inherited value does not have throws (the keys of the error
      counts of [getTopErrors] are fixed texts of the program, none of
      them inherited). *)

From Stdlib Require Import ZArith Bool Ascii String List SpecFloat.
From stdpp Require Import base option list gmap strings sorting.

Local Open Scope Z_scope.

(* ===================================================================== *)
(** * JavaScript numbers *)
(* ===================================================================== *)

Module JSNumber.

Definition number : Type := spec_float.

Definition prec : Z := 53.
Definition emax : Z := 1024.

Definition add : number -> number -> number := SFadd prec emax.
Definition mul : number -> number -> number := SFmul prec emax.
Definition div : number -> number -> number := SFdiv prec emax.

(** The number nearest to an integer (exact below 2^53). *)
Definition of_Z (z : Z) : number := binary_normalize prec emax z 0 false.
Definition of_nat (n : nat) : number := of_Z (Z.of_nat n).

Definition zero : number := S754_zero false.
Definition nan : number := S754_nan.

(** The representations that stand for a binary64 value: the mantissa of
    a finite number is normalised and its exponent in range. Every number
    the program reads or computes is of this kind. *)
Definition valid (x : number) : bool := valid_binary prec emax x.

(** [ToBoolean] on a number: false for [+0], [-0] and [NaN]. *)
Definition truthy (x : number) : bool :=
  match x with
  | S754_zero _ | S754_nan => false
  | S754_infinity _ | S754_finite _ _ _ => true
  end.

(** [Math.round]: the integer nearest to [x], ties towards +infinity;
    infinities, NaN and zeros are returned unchanged, and a negative [x]
    that rounds to zero gives [-0]. *)
Definition Math_round (x : number) : number :=
  match x with
  | S754_finite s m e =>
      let v := if s then Z.neg m else Z.pos m in
      if 0 <=? e then x
      else
        let n := (2 * v + 2 ^ (- e)) / 2 ^ (1 - e) in
        if n =? 0 then S754_zero s else of_Z n
  | _ => x
  end.

(** What [JSON.stringify] followed by [JSON.parse] leaves of a number:
    NaN and the infinities are written as [null], [-0] as [0]. *)
Definition json_roundtrip (x : number) : option number :=
  match x with
  | S754_nan | S754_infinity _ => None
  | S754_zero _ => Some zero
  | S754_finite _ _ _ => Some x
  end.

End JSNumber.

Abbreviation number := JSNumber.number.

(* ===================================================================== *)
(** * JavaScript strings *)
(* ===================================================================== *)

Module JSString.

Local Open Scope string_scope.

Definition code (c : ascii) : N := N_of_ascii c.

(** White space and line terminators, as [String.prototype.trim] and the
    regular expression class [\s] see them. *)
Definition is_space (c : ascii) : bool :=
  let n := code c in
  ((9 <=? n) && (n <=? 13))%N || (n =? 32)%N.

(** Line terminators: what the regular expression [.] refuses. *)
Definition is_line_terminator (c : ascii) : bool :=
  let n := code c in (n =? 10)%N || (n =? 13)%N.

(** The class [\w]. *)
Definition is_word (c : ascii) : bool :=
  let n := code c in
  ((48 <=? n) && (n <=? 57))%N || ((65 <=? n) && (n <=? 90))%N
  || ((97 <=? n) && (n <=? 122))%N || (n =? 95)%N.

Definition toUpperChar (c : ascii) : ascii :=
  let n := code c in
  if ((97 <=? n) && (n <=? 122))%N then ascii_of_N (n - 32) else c.

Definition toLowerChar (c : ascii) : ascii :=
  let n := code c in
  if ((65 <=? n) && (n <=? 90))%N then ascii_of_N (n + 32) else c.

Fixpoint map (f : ascii -> ascii) (s : string) : string :=
  match s with
  | EmptyString => EmptyString
  | String c s' => String (f c) (map f s')
  end.

Definition toLowerCase : string -> string := map toLowerChar.
Definition toUpperCase : string -> string := map toUpperChar.

Fixpoint trimStart (s : string) : string :=
  match s with
  | String c s' => if is_space c then trimStart s' else s
  | EmptyString => EmptyString
  end.

(** [trimEnd] keeps a character when it is not a space or when something
    is left after it. *)
Fixpoint trimEnd (s : string) : string :=
  match s with
  | EmptyString => EmptyString
  | String c s' =>
      match trimEnd s' with
      | EmptyString => if is_space c then EmptyString else String c EmptyString
      | t => String c t
      end
  end.

Definition trim (s : string) : string := trimEnd (trimStart s).

Definition startsWith (p s : string) : bool := String.prefix p s.

Fixpoint endsWith (p s : string) : bool :=
  String.eqb p s ||
  match s with
  | EmptyString => false
  | String _ s' => endsWith p s'
  end.

(** [s.includes(p)] *)
Fixpoint includes (p s : string) : bool :=
  String.prefix p s ||
  match s with
  | EmptyString => false
  | String _ s' => includes p s'
  end.

Fixpoint drop (n : nat) (s : string) : string :=
  match n, s with
  | O, _ => s
  | S n', String _ s' => drop n' s'
  | S _, EmptyString => EmptyString
  end.

(** [s.replace(p, r)] with a string pattern: the first occurrence only. *)
Fixpoint replace (p r : string) (s : string) : string :=
  if String.prefix p s then r ++ drop (String.length p) s
  else match s with
       | EmptyString => EmptyString
       | String c s' => String c (replace p r s')
       end.

(** [s.replace(/c/g, d)] for a one-character pattern. *)
Definition replaceAllChar (c d : ascii) : string -> string :=
  map (fun x => if Ascii.eqb x c then d else x).

(** [s.split(sep)] for a one-character separator: never the empty list. *)
Fixpoint split (sep : ascii) (s : string) : list string :=
  match s with
  | EmptyString => [EmptyString]
  | String c s' =>
      if Ascii.eqb c sep then EmptyString :: split sep s'
      else match split sep s' with
           | [] => [String c EmptyString]
           | w :: ws => String c w :: ws
           end
  end.

(** [s.replace(/\b\w/g, l => l.toUpperCase())]: a word character is put in
    upper case when the character before it is not a word character.
    (After a word character, [\b] holds before a non-word character, which
    [\w] does not match.) *)
Fixpoint capitalizeFrom (prevWord : bool) (s : string) : string :=
  match s with
  | EmptyString => EmptyString
  | String c s' =>
      String (if is_word c && negb prevWord then toUpperChar c else c)
             (capitalizeFrom (is_word c) s')
  end.

Definition capitalizeWords : string -> string := capitalizeFrom false.

Local Open Scope Z_scope.

(** [path.basename(path)] and [path.basename(path, suffix)] of Node
    (POSIX), written as Node writes them: the path is scanned from its
    end. The variables of the loop: *)
Record scan : Type := {
  scan_start : Z;
  scan_end : Z;
  matchedSlash : bool;
  extIdx : Z;
  firstNonSlashEnd : Z;
  stopped : bool            (* the loop was left by [break] *)
}.

Definition charCodeAt (s : string) (i : Z) : option ascii :=
  if i <? 0 then None else String.get (Z.to_nat i) s.

(** [path.slice(start, end)] for [0 <= start]. *)
Definition slice (s : string) (first last : Z) : string :=
  String.substring (Z.to_nat first) (Z.to_nat (last - first)) s.

(** The indices [n - 1, ..., 0]. *)
Definition indicesDown (n : nat) : list Z := List.map Z.of_nat (List.rev (List.seq 0 n)).

(** The body of the loop of [basename(path)]. *)
Definition basenameStep (path : string) (st : scan) (i : Z) : scan :=
  if stopped st then st
  else
    match charCodeAt path i with
    | None => st
    | Some code =>
        if Ascii.eqb code "/" then
          if negb (matchedSlash st) then
            {| scan_start := i + 1; scan_end := scan_end st;
               matchedSlash := matchedSlash st; extIdx := extIdx st;
               firstNonSlashEnd := firstNonSlashEnd st; stopped := true |}
          else st
        else if scan_end st =? -1 then
          {| scan_start := scan_start st; scan_end := i + 1;
             matchedSlash := false; extIdx := extIdx st;
             firstNonSlashEnd := firstNonSlashEnd st; stopped := false |}
        else st
    end.

Definition basename (path : string) : string :=
  let st :=
    List.fold_left (basenameStep path) (indicesDown (String.length path))
      {| scan_start := 0; scan_end := -1; matchedSlash := true; extIdx := -1;
         firstNonSlashEnd := -1; stopped := false |} in
  if scan_end st =? -1 then EmptyString else slice path (scan_start st) (scan_end st).

(** The body of the loop of [basename(path, suffix)]. *)
Definition basenameSuffixStep (path suffix : string) (st : scan) (i : Z) : scan :=
  if stopped st then st
  else
    match charCodeAt path i with
    | None => st
    | Some code =>
        if Ascii.eqb code "/" then
          if negb (matchedSlash st) then
            {| scan_start := i + 1; scan_end := scan_end st;
               matchedSlash := matchedSlash st; extIdx := extIdx st;
               firstNonSlashEnd := firstNonSlashEnd st; stopped := true |}
          else st
        else
          let first := firstNonSlashEnd st =? -1 in
          let matched := if first then false else matchedSlash st in
          let nonSlashEnd := if first then i + 1 else firstNonSlashEnd st in
          if 0 <=? extIdx st then
            match charCodeAt suffix (extIdx st) with
            | Some code' =>
                if Ascii.eqb code code' then
                  {| scan_start := scan_start st;
                     scan_end := if extIdx st - 1 =? -1 then i else scan_end st;
                     matchedSlash := matched; extIdx := extIdx st - 1;
                     firstNonSlashEnd := nonSlashEnd; stopped := false |}
                else
                  {| scan_start := scan_start st; scan_end := nonSlashEnd;
                     matchedSlash := matched; extIdx := -1;
                     firstNonSlashEnd := nonSlashEnd; stopped := false |}
            | None =>
                {| scan_start := scan_start st; scan_end := nonSlashEnd;
                   matchedSlash := matched; extIdx := -1;
                   firstNonSlashEnd := nonSlashEnd; stopped := false |}
            end
          else
            {| scan_start := scan_start st; scan_end := scan_end st;
               matchedSlash := matched; extIdx := extIdx st;
               firstNonSlashEnd := nonSlashEnd; stopped := false |}
    end.

Definition basenameSuffix (path suffix : string) : string :=
  let n := Z.of_nat (String.length path) in
  let k := Z.of_nat (String.length suffix) in
  if (0 <? k) && (k <=? n) then
    if String.eqb suffix path then EmptyString
    else
      let st :=
        List.fold_left (basenameSuffixStep path suffix) (indicesDown (String.length path))
          {| scan_start := 0; scan_end := -1; matchedSlash := true; extIdx := k - 1;
             firstNonSlashEnd := -1; stopped := false |} in
      let last :=
        if scan_start st =? scan_end st then firstNonSlashEnd st
        else if scan_end st =? -1 then n
        else scan_end st in
      slice path (scan_start st) last
  else basename path.

Local Open Scope string_scope.

(** The code units below 128. *)
Definition isAsciiChar (c : ascii) : bool := (code c <? 128)%N.

Fixpoint isAscii (s : string) : bool :=
  match s with
  | EmptyString => true
  | String c s' => isAsciiChar c && isAscii s'
  end.

(** A non-empty string is truthy. *)
Definition truthy (s : string) : bool :=
  match s with EmptyString => false | _ => true end.

End JSString.


(* ===================================================================== *)
(** * Regular expressions *)
(* ===================================================================== *)

(** The four regular expressions of the program are run by a backtracking
    matcher that follows the ECMAScript rules they need: alternatives are
    tried left to right, a greedy star tries one more iteration before
    stopping and a lazy star the other way round, an iteration that
    consumes nothing is refused, and an unanchored search tries the start
    positions from the left. *)
Module Regex.

Inductive regex : Type :=
| Eps
| Chr (c : ascii)
| Class (p : ascii -> bool)
| Seq (r1 r2 : regex)
| Alt (r1 r2 : regex)
| Star (greedy : bool) (r : regex)
| Group (n : nat) (r : regex)
| Bol
| Eol.

Definition Plus (greedy : bool) (r : regex) : regex := Seq r (Star greedy r).

Fixpoint Lit (s : string) : regex :=
  match s with
  | EmptyString => Eps
  | String c s' => Seq (Chr c) (Lit s')
  end.

Abbreviation captures := (gmap nat string).

Definition cont : Type := nat -> string -> captures -> option captures.

Fixpoint run (r : regex) (pos : nat) (s : string) (caps : captures) (k : cont)
  {struct r} : option captures :=
  match r with
  | Eps => k pos s caps
  | Chr c =>
      match s with
      | String c' s' => if Ascii.eqb c c' then k (S pos) s' caps else None
      | EmptyString => None
      end
  | Class p =>
      match s with
      | String c' s' => if p c' then k (S pos) s' caps else None
      | EmptyString => None
      end
  | Seq r1 r2 => run r1 pos s caps (fun pos' s' caps' => run r2 pos' s' caps' k)
  | Alt r1 r2 =>
      match run r1 pos s caps k with
      | Some c => Some c
      | None => run r2 pos s caps k
      end
  | Star greedy r' =>
      (fix loop (fuel : nat) (pos : nat) (s : string) (caps : captures)
         {struct fuel} : option captures :=
         match fuel with
         | O => k pos s caps
         | S fuel' =>
             let again pos' s' caps' :=
               if (pos <? pos')%nat then loop fuel' pos' s' caps' else None in
             if greedy then
               match run r' pos s caps again with
               | Some c => Some c
               | None => k pos s caps
               end
             else
               match k pos s caps with
               | Some c => Some c
               | None => run r' pos s caps again
               end
         end) (String.length s) pos s caps
  | Group n r' =>
      run r' pos s caps
        (fun pos' s' caps' => k pos' s' (<[n := String.substring 0 (pos' - pos) s]> caps'))
  | Bol => if (pos =? 0)%nat then k pos s caps else None
  | Eol => match s with EmptyString => k pos s caps | _ => None end
  end.

(** A match that has to start at position [pos]. *)
Definition matchAt (r : regex) (pos : nat) (s : string) : option captures :=
  run r pos s ∅ (fun _ _ caps => Some caps).

(** [s.match(r)] for a regular expression without the [g] flag: the
    leftmost start position at which [r] matches. *)
Fixpoint searchFrom (r : regex) (pos : nat) (s : string) : option captures :=
  match matchAt r pos s with
  | Some c => Some c
  | None =>
      match s with
      | EmptyString => None
      | String _ s' => searchFrom r (S pos) s'
      end
  end.

Definition exec (r : regex) (s : string) : option captures := searchFrom r 0 s.

(** The text of a group: [undefined] groups do not occur in the
    expressions below, a missing one reads as the empty string. *)
Definition group (n : nat) (c : captures) : string := default EmptyString (c !! n).

Definition space : regex := Class JSString.is_space.
Definition dot : regex := Class (fun c => negb (JSString.is_line_terminator c)).

End Regex.

(* ===================================================================== *)
(** * Data model *)
(* ===================================================================== *)

(** [status: 'passed' | 'failed' | 'skipped' | 'undefined'] *)
Inductive Status : Type := passed | failed | skipped | undefined.

Definition Status_eqb (a b : Status) : bool :=
  match a, b with
  | passed, passed | failed, failed | skipped, skipped | undefined, undefined => true
  | _, _ => false
  end.

(** [result: { status; duration?; error_message? }] *)
Record StepResult : Type := {
  status : Status;
  duration : option number;
  error_message : option string
}.

(** [CucumberStep], and [TestStep] of the report types. *)
Record CucumberStep : Type := {
  keyword : string;
  name : string;
  result : StepResult
}.

(** Step objects are allocated in a store; a reference is an index. *)
Abbreviation ref := nat.
Abbreviation heap := (list CucumberStep).

(** [CucumberScenario]: the [steps] array holds references. *)
Record CucumberScenario : Type := {
  scenario_keyword : string;
  scenario_name : string;
  steps : list ref
}.

Record CucumberFeature : Type := {
  feature_keyword : string;
  feature_name : string;
  uri : option string;
  elements : list CucumberScenario
}.

(** The report types ([TestScenario], [TestFeature]): plain trees, as
    [JSON.parse] builds them. *)
Record TestScenario : Type := {
  ts_keyword : string;
  ts_name : string;
  ts_steps : list CucumberStep
}.

Record TestFeature : Type := {
  tf_keyword : string;
  tf_name : string;
  tf_elements : list TestScenario;
  tf_uri : option string
}.

(** The runner's records ([CypressTest], [CypressRun], [CypressResults]). *)
Record CypressTest : Type := {
  title : option (list string);
  state : option string;
  test_duration : option number;
  displayError : option string
}.

Record CypressRun : Type := {
  spec : option string;          (* [spec.name] *)
  tests : list CypressTest
}.

Abbreviation CypressResults := (list CypressRun).   (* [results.runs || []] *)

(** [TestResult] of the generator. *)
Record TestResult : Type := {
  tr_status : Status;
  tr_duration : number;
  tr_error_message : option string
}.

(* ===================================================================== *)
(** * Feature-file parser *)
(* ===================================================================== *)

Module Parser.
Import Regex.
Local Open Scope string_scope.

Definition stepKeyword : regex :=
  Alt (Lit "Given") (Alt (Lit "When") (Alt (Lit "Then") (Alt (Lit "And") (Lit "But")))).

(** [/^\s*(Given|When|Then|And|But)\s+/] *)
Definition stepPrefix : regex :=
  Seq Bol (Seq (Star true space) (Seq (Group 1 stepKeyword) (Plus true space))).

(** [/^\s*(Given|When|Then|And|But)\s+(.+)$/] *)
Definition stepLine : regex :=
  Seq Bol (Seq (Star true space) (Seq (Group 1 stepKeyword)
    (Seq (Plus true space) (Seq (Group 2 (Plus true dot)) Eol)))).

(** The local variables of [parseFeatureFile], and the store. *)
Record state : Type := {
  featureName : string;
  currentScenario : option CucumberScenario;
  backgroundSteps : list ref;
  scenarios : list CucumberScenario;
  store : heap
}.

Definition init : state :=
  {| featureName := ""; currentScenario := None; backgroundSteps := [];
     scenarios := []; store := [] |}.

(** The step object built for a step line. *)
Definition newStep (kw nm : string) : CucumberStep :=
  {| keyword := kw; name := nm;
     result := {| status := passed;
                  duration := Some (JSNumber.of_Z 1000000000);
                  error_message := None |} |}.

(** [scenarios.push(currentScenario)] when there is one. *)
Definition pushCurrent (st : state) : list CucumberScenario :=
  match currentScenario st with
  | Some sc => (scenarios st ++ [sc])%list
  | None => scenarios st
  end.

(** The body of the [for (const line of lines)] loop. *)
Definition parseLine (st : state) (line : string) : state :=
  let trimmedLine := JSString.trim line in
  if JSString.startsWith "Feature:" trimmedLine then
    {| featureName := JSString.trim (JSString.replace "Feature:" "" trimmedLine);
       currentScenario := currentScenario st;
       backgroundSteps := backgroundSteps st;
       scenarios := scenarios st;
       store := store st |}
  else if JSString.startsWith "Background:" trimmedLine then
    {| featureName := featureName st;
       currentScenario := currentScenario st;
       backgroundSteps := [];
       scenarios := scenarios st;
       store := store st |}
  else if JSString.startsWith "Scenario:" trimmedLine then
    {| featureName := featureName st;
       currentScenario :=
         Some {| scenario_keyword := "Scenario";
                 scenario_name := JSString.trim (JSString.replace "Scenario:" "" trimmedLine);
                 steps := backgroundSteps st |};
       backgroundSteps := backgroundSteps st;
       scenarios := pushCurrent st;
       store := store st |}
  else if bool_decide (is_Some (exec stepPrefix trimmedLine)) then
    match exec stepLine trimmedLine with
    | Some stepMatch =>
        let step := newStep (group 1 stepMatch) (group 2 stepMatch) in
        let r := length (store st) in
        match currentScenario st with
        | Some sc =>
            {| featureName := featureName st;
               currentScenario :=
                 Some {| scenario_keyword := scenario_keyword sc;
                         scenario_name := scenario_name sc;
                         steps := (steps sc ++ [r])%list |};
               backgroundSteps := backgroundSteps st;
               scenarios := scenarios st;
               store := (store st ++ [step])%list |}
        | None =>
            {| featureName := featureName st;
               currentScenario := None;
               backgroundSteps := (backgroundSteps st ++ [r])%list;
               scenarios := scenarios st;
               store := (store st ++ [step])%list |}
        end
    | None => st
    end
  else st.

Definition parseLines (lines : list string) (st : state) : state :=
  fold_left parseLine lines st.

(** [parseFeatureFile(content, filePath)]: the feature and the store its
    step references point into, or [None] for [null]. *)
Definition parseFeatureFile (content filePath : string)
  : option (CucumberFeature * heap) :=
  let st := parseLines (JSString.split "010" content) init in
  if JSString.truthy (featureName st) then
    Some ({| feature_keyword := "Feature";
             feature_name := featureName st;
             uri := Some filePath;
             elements := pushCurrent st |},
          store st)
  else None.

End Parser.

(** What [JSON.stringify] sees of a feature: every reference replaced by
    the current contents of the object it points to. *)
Definition readSteps (h : heap) (refs : list ref) : list CucumberStep :=
  omap (fun r => h !! r) refs.

Definition snapshotScenario (h : heap) (sc : CucumberScenario) : TestScenario :=
  {| ts_keyword := scenario_keyword sc;
     ts_name := scenario_name sc;
     ts_steps := readSteps h (steps sc) |}.

Definition snapshot (fh : CucumberFeature * heap) : TestFeature :=
  {| tf_keyword := feature_keyword fh.1;
     tf_name := feature_name fh.1;
     tf_elements := snapshotScenario fh.2 <$> elements fh.1;
     tf_uri := uri fh.1 |}.

(** [JSON.parse(JSON.stringify(feature))] on such a tree: only numbers
    change (see [JSNumber.json_roundtrip]). *)
Definition jsonResult (r : StepResult) : StepResult :=
  {| status := status r;
     duration := d ← duration r; JSNumber.json_roundtrip d;
     error_message := error_message r |}.

Definition jsonStep (s : CucumberStep) : CucumberStep :=
  {| keyword := keyword s; name := name s; result := jsonResult (result s) |}.

Definition jsonScenario (sc : TestScenario) : TestScenario :=
  {| ts_keyword := ts_keyword sc; ts_name := ts_name sc;
     ts_steps := jsonStep <$> ts_steps sc |}.

Definition jsonRoundtrip (f : TestFeature) : TestFeature :=
  {| tf_keyword := tf_keyword f; tf_name := tf_name f;
     tf_elements := jsonScenario <$> tf_elements f; tf_uri := tf_uri f |}.

(** The feature as the HTML generator reads it back from the JSON file. *)
Definition jsonFeature (fh : CucumberFeature * heap) : TestFeature :=
  jsonRoundtrip (snapshot fh).


(* ===================================================================== *)
(** * Plain objects used as maps *)
(* ===================================================================== *)

(** The program keeps records in plain objects ([{}]) under computed
    names. Reading [object[name]] for a name that was never assigned still
    finds what the object inherits from [Object.prototype]. *)
Module JSObject.
Local Open Scope string_scope.

(** The property names of [Object.prototype]. *)
Definition prototypeNames : list string :=
  [ "constructor"; "__defineGetter__"; "__defineSetter__"; "hasOwnProperty";
    "__lookupGetter__"; "__lookupSetter__"; "isPrototypeOf"; "propertyIsEnumerable";
    "toString"; "valueOf"; "__proto__"; "toLocaleString" ].

Definition inherited (name : string) : bool :=
  existsb (String.eqb name) prototypeNames.

End JSObject.

(* ===================================================================== *)
(** * Result correlator *)
(* ===================================================================== *)

Module Correlator.
Local Open Scope string_scope.
Local Open Scope Z_scope.

(** [test.title?.[test.title.length - 1] || ''] *)
Definition lastTitle (test : CypressTest) : string :=
  match title test with
  | Some t => List.last t ""
  | None => ""
  end.

(** The status chosen from [test.state]. *)
Definition statusOfState (st : option string) : Status :=
  match st with
  | Some s =>
      if String.eqb s "passed" then passed
      else if String.eqb s "pending" then skipped
      else failed
  | None => failed
  end.

(** [(test.duration || 0) * 1000000] *)
Definition durationNs (test : CypressTest) : number :=
  JSNumber.mul
    (match test_duration test with
     | Some d => if JSNumber.truthy d then d else JSNumber.of_Z 0
     | None => JSNumber.of_Z 0
     end)
    (JSNumber.of_Z 1000000).

Definition recordTest (testResults : gmap string TestResult) (test : CypressTest)
  : gmap string TestResult :=
  <[ lastTitle test :=
       {| tr_status := statusOfState (state test);
          tr_duration := durationNs test;
          tr_error_message := displayError test |} ]> testResults.

Definition recordRun (featureFile : string)
    (testResults : gmap string TestResult) (run : CypressRun)
  : gmap string TestResult :=
  match spec run with
  | Some specName =>
      if JSString.includes (JSString.basename featureFile) specName
      then fold_left recordTest (tests run) testResults
      else testResults
  | None => testResults
  end.

(** [getTestResultsForFeature(results, featureFile)] *)
Definition getTestResultsForFeature (results : CypressResults) (featureFile : string)
  : gmap string TestResult :=
  fold_left (recordRun featureFile) results ∅.

(** [detectFailedStepFromError(errorMessage, steps)]; the index is a
    JavaScript number and is [-1] for an empty [steps]. *)
Definition detectFailedStepFromError (errorMessage : option string) (steps : list ref) : Z :=
  match errorMessage with
  | None => Z.of_nat (length steps) - 1
  | Some msg =>
      if negb (JSString.truthy msg) then Z.of_nat (length steps) - 1
      else if JSString.includes "expected 1 to equal 2" msg
              || JSString.includes "expect(1).to.eq(2)" msg then 1
      else if JSString.includes "expected 1 to equal 0" msg
              || JSString.includes "expect(1).to.equal(0)" msg then 1
      else Z.of_nat (length steps) - 1
  end.

(** Assignments to the fields of [step.result], through the reference. *)
Definition setStatusDuration (st : Status) (d : number) (s : CucumberStep) : CucumberStep :=
  {| keyword := keyword s; name := name s;
     result := {| status := st; duration := Some d;
                  error_message := error_message (result s) |} |}.

Definition setErrorMessage (msg : string) (s : CucumberStep) : CucumberStep :=
  {| keyword := keyword s; name := name s;
     result := {| status := status (result s); duration := duration (result s);
                  error_message := Some msg |} |}.

(** [steps.forEach((step, index) => ...)] over an array of references,
    from index [i]. *)
Fixpoint forEachFrom (body : ref -> nat -> heap -> heap)
    (i : nat) (refs : list ref) (h : heap) : heap :=
  match refs with
  | [] => h
  | r :: refs' => forEachFrom body (S i) refs' (body r i h)
  end.

Definition forEach (body : ref -> nat -> heap -> heap) : list ref -> heap -> heap :=
  forEachFrom body 0.

(** The callback of the failed branch. *)
Definition markAround (failedStepIndex : Z) (scenarioDuration : number)
    (count : nat) (errorMessage : option string)
    (r : ref) (index : nat) (h : heap) : heap :=
  if Z.of_nat index <? failedStepIndex then
    alter (setStatusDuration passed
             (JSNumber.div scenarioDuration (JSNumber.of_nat count))) r h
  else if Z.of_nat index =? failedStepIndex then
    let h' := alter (setStatusDuration failed scenarioDuration) r h in
    match errorMessage with
    | Some msg => if JSString.truthy msg then alter (setErrorMessage msg) r h' else h'
    | None => h'
    end
  else
    alter (setStatusDuration skipped (JSNumber.of_Z 0)) r h.

(** What [testResults[scenario.name]] finds. The map holds the records
    that were assigned, [testResults[name] = record]. A name without a
    record still finds a value when [Object.prototype] has a property of
    that name (a function, or for [__proto__] the prototype itself). The
    assignment to the name [__proto__] does not create a property: it makes
    the record the prototype of [testResults], so that the record is read
    back under [__proto__] and its three fields are found under their own
    names. A value that is not a record is a function, an object without
    these fields, a string or a number: its [status], [duration] and
    [error_message] are [undefined]. *)
Inductive found : Type :=
| FoundRecord (scenarioResult : TestResult)
| FoundOther          (* truthy, not a record *)
| FoundNothing.       (* [undefined], or another falsy value *)

Definition lookupResult (testResults : gmap string TestResult) (name : string) : found :=
  match testResults !! name with
  | Some scenarioResult => FoundRecord scenarioResult
  | None =>
      if JSObject.inherited name then FoundOther
      else
        match testResults !! "__proto__" with
        | Some proto =>
            if String.eqb name "status" then FoundOther
            else if String.eqb name "duration" then
              if JSNumber.truthy (tr_duration proto) then FoundOther else FoundNothing
            else if String.eqb name "error_message" then
              match tr_error_message proto with
              | Some e => if JSString.truthy e then FoundOther else FoundNothing
              | None => FoundNothing
              end
            else FoundNothing
        | None => FoundNothing
        end
  end.

(** [step.result.status = st; step.result.duration = undefined] *)
Definition setStatusNoDuration (st : Status) (s : CucumberStep) : CucumberStep :=
  {| keyword := keyword s; name := name s;
     result := {| status := st; duration := None;
                  error_message := error_message (result s) |} |}.

(** The callback of the failed branch when [scenarioDuration] and
    [errorMessage] are [undefined]: [undefined / K] is [NaN]. *)
Definition markAroundUndefined (failedStepIndex : Z)
    (r : ref) (index : nat) (h : heap) : heap :=
  if Z.of_nat index <? failedStepIndex then
    alter (setStatusDuration passed JSNumber.nan) r h
  else if Z.of_nat index =? failedStepIndex then
    alter (setStatusNoDuration failed) r h
  else
    alter (setStatusDuration skipped (JSNumber.of_Z 0)) r h.

(** The callback of [feature.elements.forEach]. *)
Definition mergeScenario (testResults : gmap string TestResult)
    (h : heap) (scenario : CucumberScenario) : heap :=
  match lookupResult testResults (scenario_name scenario) with
  | FoundRecord scenarioResult =>
      let scenarioDuration := tr_duration scenarioResult in
      let errorMessage := tr_error_message scenarioResult in
      match tr_status scenarioResult with
      | passed =>
          forEach (fun r _ =>
                     alter (setStatusDuration passed
                              (JSNumber.div scenarioDuration
                                 (JSNumber.of_nat (length (steps scenario))))) r)
                  (steps scenario) h
      | skipped =>
          forEach (fun r _ => alter (setStatusDuration skipped (JSNumber.of_Z 0)) r)
                  (steps scenario) h
      | _ =>
          let failedStepIndex := detectFailedStepFromError errorMessage (steps scenario) in
          forEach (markAround failedStepIndex scenarioDuration
                     (length (steps scenario)) errorMessage)
                  (steps scenario) h
      end
  | FoundOther =>
      (* neither 'passed' nor 'skipped': the failed branch *)
      let failedStepIndex := detectFailedStepFromError None (steps scenario) in
      forEach (markAroundUndefined failedStepIndex) (steps scenario) h
  | FoundNothing => h
  end.

(** [mergeFeatureWithResults(feature, testResults)]: the feature object
    is returned as it is, its step objects are updated in the store. *)
Definition mergeFeatureWithResults (fh : CucumberFeature * heap)
    (testResults : gmap string TestResult) : CucumberFeature * heap :=
  (fh.1, fold_left (mergeScenario testResults) (elements fh.1) fh.2).

End Correlator.

(* ===================================================================== *)
(** * Statistics engine *)
(* ===================================================================== *)

Module ReportStatistics.

Record TestStats : Type := {
  totalScenarios : nat;
  passedScenarios : nat;
  failedScenarios : nat;
  skippedScenarios : nat;
  totalSteps : nat;
  passedSteps : nat;
  failedSteps : nat;
  skippedSteps : nat;
  totalDuration : number;
  passRate : number
}.

Record FeatureStats : Type := {
  fs_passed : nat;
  fs_failed : nat;
  fs_skipped : nat;
  fs_duration : number
}.

(** [if (step.result.duration)] *)
Definition hasDuration (step : CucumberStep) : option number :=
  match duration (result step) with
  | Some d => if JSNumber.truthy d then Some d else None
  | None => None
  end.

(** [step.result.status === 'failed' ? 2000 : 500] *)
Definition estimate (step : CucumberStep) : number :=
  match status (result step) with
  | failed => JSNumber.of_Z 2000
  | _ => JSNumber.of_Z 500
  end.

(** The accumulators of [generateStatistics]. *)
Record acc : Type := {
  a_totalScenarios : nat;
  a_passedScenarios : nat;
  a_failedScenarios : nat;
  a_skippedScenarios : nat;
  a_totalSteps : nat;
  a_passedSteps : nat;
  a_failedSteps : nat;
  a_skippedSteps : nat;
  a_totalDuration : number
}.

Definition acc0 : acc :=
  {| a_totalScenarios := 0; a_passedScenarios := 0; a_failedScenarios := 0;
     a_skippedScenarios := 0; a_totalSteps := 0; a_passedSteps := 0;
     a_failedSteps := 0; a_skippedSteps := 0; a_totalDuration := JSNumber.of_Z 0 |}.

(** The callback of [scenario.steps?.forEach]: the accumulators and the
    two flags [scenarioHasFailed], [scenarioHasSkipped]. *)
Definition countStep (s : acc * bool * bool) (step : CucumberStep) : acc * bool * bool :=
  let '(a, hasFailed, hasSkipped) := s in
  let d :=
    match hasDuration step with
    | Some d => JSNumber.add (a_totalDuration a) d
    | None => JSNumber.add (a_totalDuration a)
                (JSNumber.mul (estimate step) (JSNumber.of_Z 1000000))
    end in
  let st := status (result step) in
  ({| a_totalScenarios := a_totalScenarios a;
      a_passedScenarios := a_passedScenarios a;
      a_failedScenarios := a_failedScenarios a;
      a_skippedScenarios := a_skippedScenarios a;
      a_totalSteps := S (a_totalSteps a);
      a_passedSteps := (if Status_eqb st passed then S else id) (a_passedSteps a);
      a_failedSteps := (if Status_eqb st failed then S else id) (a_failedSteps a);
      a_skippedSteps := (if Status_eqb st skipped then S else id) (a_skippedSteps a);
      a_totalDuration := d |},
   hasFailed || Status_eqb st failed,
   hasSkipped || Status_eqb st skipped).

(** The callback of [feature.elements?.forEach]. *)
Definition countScenario (a : acc) (scenario : TestScenario) : acc :=
  let a1 :=
    {| a_totalScenarios := S (a_totalScenarios a);
       a_passedScenarios := a_passedScenarios a;
       a_failedScenarios := a_failedScenarios a;
       a_skippedScenarios := a_skippedScenarios a;
       a_totalSteps := a_totalSteps a;
       a_passedSteps := a_passedSteps a;
       a_failedSteps := a_failedSteps a;
       a_skippedSteps := a_skippedSteps a;
       a_totalDuration := a_totalDuration a |} in
  let '(a2, scenarioHasFailed, scenarioHasSkipped) :=
    fold_left countStep (ts_steps scenario) (a1, false, false) in
  {| a_totalScenarios := a_totalScenarios a2;
     a_passedScenarios :=
       (if scenarioHasFailed then id else if scenarioHasSkipped then id else S)
         (a_passedScenarios a2);
     a_failedScenarios := (if scenarioHasFailed then S else id) (a_failedScenarios a2);
     a_skippedScenarios :=
       (if scenarioHasFailed then id else if scenarioHasSkipped then S else id)
         (a_skippedScenarios a2);
     a_totalSteps := a_totalSteps a2;
     a_passedSteps := a_passedSteps a2;
     a_failedSteps := a_failedSteps a2;
     a_skippedSteps := a_skippedSteps a2;
     a_totalDuration := a_totalDuration a2 |}.

Definition countFeature (a : acc) (feature : TestFeature) : acc :=
  fold_left countScenario (tf_elements feature) a.

(** [generateStatistics(features)] *)
Definition generateStatistics (features : list TestFeature) : TestStats :=
  let a := fold_left countFeature features acc0 in
  {| totalScenarios := a_totalScenarios a;
     passedScenarios := a_passedScenarios a;
     failedScenarios := a_failedScenarios a;
     skippedScenarios := a_skippedScenarios a;
     totalSteps := a_totalSteps a;
     passedSteps := a_passedSteps a;
     failedSteps := a_failedSteps a;
     skippedSteps := a_skippedSteps a;
     totalDuration :=
       JSNumber.Math_round (JSNumber.div (a_totalDuration a) (JSNumber.of_Z 1000000));
     passRate :=
       if (0 <? a_totalScenarios a)%nat
       then JSNumber.Math_round
              (JSNumber.mul
                 (JSNumber.div (JSNumber.of_nat (a_passedScenarios a))
                               (JSNumber.of_nat (a_totalScenarios a)))
                 (JSNumber.of_Z 100))
       else JSNumber.of_Z 0 |}.

(** [getScenarioStatus(scenario)] *)
Definition getScenarioStatus (scenario : TestScenario) : Status :=
  if existsb (fun step => Status_eqb (status (result step)) failed) (ts_steps scenario)
  then failed
  else if existsb (fun step => Status_eqb (status (result step)) skipped) (ts_steps scenario)
  then skipped
  else passed.

(** The callback shared by [getFeatureStats] and [getScenarioDuration]:
    milliseconds. *)
Definition addStepMs (d : number) (step : CucumberStep) : number :=
  match hasDuration step with
  | Some x => JSNumber.add d (JSNumber.div x (JSNumber.of_Z 1000000))
  | None => JSNumber.add d (estimate step)
  end.

(** [getScenarioDuration(scenario)] *)
Definition getScenarioDuration (scenario : TestScenario) : number :=
  JSNumber.Math_round (fold_left addStepMs (ts_steps scenario) (JSNumber.of_Z 0)).

(** The callback of [getFeatureStats]. *)
Definition featureStatsScenario (s : nat * nat * nat * number) (scenario : TestScenario)
  : nat * nat * nat * number :=
  let '(p, f, k, d) := s in
  let st := getScenarioStatus scenario in
  ((if Status_eqb st passed then S else id) p,
   (if Status_eqb st failed then S else id) f,
   (if Status_eqb st skipped then S else id) k,
   fold_left addStepMs (ts_steps scenario) d).

(** [getFeatureStats(feature)] *)
Definition getFeatureStats (feature : TestFeature) : FeatureStats :=
  let '(p, f, k, d) :=
    fold_left featureStatsScenario (tf_elements feature) (0, 0, 0, JSNumber.of_Z 0)%nat in
  {| fs_passed := p; fs_failed := f; fs_skipped := k;
     fs_duration := JSNumber.Math_round d |}.

End ReportStatistics.

(* ===================================================================== *)
(** * Screenshot matching of the HTML report generator *)
(* ===================================================================== *)

Module ReportHtmlGenerator.
Import Regex.
Local Open Scope string_scope.

(** [/(.+?)\s*--\s*(.+?)\s*\(failed\)/] *)
Definition oldFormat : regex :=
  Seq (Group 1 (Plus false dot))
    (Seq (Star true space) (Seq (Lit "--") (Seq (Star true space)
      (Seq (Group 2 (Plus false dot)) (Seq (Star true space) (Lit "(failed)")))))).

(** [/(.+?)_failed/] *)
Definition cleanedFormat : regex :=
  Seq (Group 1 (Plus false dot)) (Lit "_failed").

(** The test name extracted from a screenshot file name. *)
Definition testNameOf (file : string) : string :=
  match exec oldFormat file with
  | Some oldFormatMatch => group 2 oldFormatMatch
  | None =>
      match exec cleanedFormat file with
      | Some cleanedMatch =>
          JSString.capitalizeWords (JSString.replaceAllChar "_" " " (group 1 cleanedMatch))
      | None => JSString.replaceAllChar "_" " " (JSString.replace ".png" "" file)
      end
  end.

(** A [Set<string>] in insertion order. *)
Definition setAdd (x : string) (s : list string) : list string :=
  if existsb (String.eqb x) s then s else (s ++ [x])%list.

(** The names of the scenarios that failed in the current run. *)
Definition failedScenariosOf (cucumberData : list TestFeature) : list string :=
  fold_left
    (fun s feature =>
       fold_left
         (fun s scenario =>
            if Status_eqb (ReportStatistics.getScenarioStatus scenario) failed
            then setAdd (ts_name scenario) s else s)
         (tf_elements feature) s)
    cucumberData [].

(** [isScenarioFailed(testName, failedScenarios)] *)
Definition isScenarioFailed (testName : string) (failedScenarios : list string) : bool :=
  if existsb (String.eqb testName) failedScenarios then true
  else
    let cleanTestName := JSString.trim (JSString.toLowerCase testName) in
    existsb
      (fun failedScenario =>
         let cleanFailedScenario := JSString.trim (JSString.toLowerCase failedScenario) in
         JSString.includes cleanTestName cleanFailedScenario
         || JSString.includes cleanFailedScenario cleanTestName)
      failedScenarios.

(** The callback of [files.forEach]. [screenshots] is a plain object, so
    for a test name that is the name of a property of [Object.prototype]
    the test [!screenshots[testName]] finds the inherited value, no array
    is stored, and [screenshots[testName].push] is not a function: the
    call throws a [TypeError], here [None]. *)
Definition addScreenshot (failedScenarios : list string)
    (screenshots : gmap string (list string)) (file : string)
  : option (gmap string (list string)) :=
  if JSString.endsWith ".png" file then
    let relativePath := "screenshots/" ++ JSString.replaceAllChar "\" "/" file in
    let testName := testNameOf file in
    if JSString.truthy testName && isScenarioFailed testName failedScenarios then
      if JSObject.inherited testName then None
      else
        Some (<[ testName := (default [] (screenshots !! testName) ++ [relativePath])%list ]>
                screenshots)
    else Some screenshots
  else Some screenshots.

(** [files.forEach(...)] inside the [try]: the exception of a call ends
    the loop, and the [catch] keeps what was recorded until then. *)
Fixpoint forEachFile (failedScenarios : list string) (files : list string)
    (screenshots : gmap string (list string)) : gmap string (list string) :=
  match files with
  | [] => screenshots
  | file :: files' =>
      match addScreenshot failedScenarios screenshots file with
      | Some screenshots' => forEachFile failedScenarios files' screenshots'
      | None => screenshots
      end
  end.

(** [findScreenshots(screenshotsDir, cucumberData)]; the directory is
    given by its recursive listing, [None] when it does not exist. *)
Definition findScreenshots (screenshotsDir : option (list string))
    (cucumberData : list TestFeature) : gmap string (list string) :=
  match screenshotsDir with
  | None => ∅
  | Some files => forEachFile (failedScenariosOf cucumberData) files ∅
  end.

End ReportHtmlGenerator.

(* ===================================================================== *)
(** * The JSON-producing conversion *)
(* ===================================================================== *)

(** The conversion reads and writes files. The file system is passed
    explicitly: a finite map from paths (relative to [process.cwd()]) to
    contents. [glob.sync] and [JSON.stringify(_, null, 2)] come from
    libraries and are parameters. *)
Module Generator.
Local Open Scope string_scope.

Abbreviation FS := (gmap string string).

Definition cucumberJsonPath : string := "cypress/reports/json/cucumber-report.json".

(** What the loop of [parseFeatureFilesAndCreateJson] does with the
    contents of one feature file: parse, collect the results of that
    file, merge. *)
Definition reportFeature (featureContent featureFile : string) (results : CypressResults)
  : option (CucumberFeature * heap) :=
  match Parser.parseFeatureFile featureContent featureFile with
  | Some parsedFeature =>
      let testResults := Correlator.getTestResultsForFeature results featureFile in
      Some (Correlator.mergeFeatureWithResults parsedFeature testResults)
  | None => None
  end.

Section Conversion.
Variable glob_sync : FS -> string -> list string.
Variable JSON_stringify : list TestFeature -> string.

(** The feature files that were run, in insertion order of the [Set]. *)
Definition addRunFeatureFile (fs : FS) (runFeatureFiles : list string) (run : CypressRun)
  : list string :=
  match spec run with
  | Some specName =>
      if JSString.endsWith ".feature" specName then
        let fileName := JSString.basename specName in
        match glob_sync fs ("cypress/e2e/features/**/" ++ fileName) with
        | first :: _ => ReportHtmlGenerator.setAdd first runFeatureFiles
        | [] => runFeatureFiles
        end
      else runFeatureFiles
  | None => runFeatureFiles
  end.

(** The body of the loop over the feature files; a file that cannot be
    read throws, which the loop catches and skips. *)
Definition addFeature (fs : FS) (results : CypressResults)
    (cucumberFeatures : list (CucumberFeature * heap)) (featureFile : string)
  : list (CucumberFeature * heap) :=
  match fs !! featureFile with
  | Some featureContent =>
      match reportFeature featureContent featureFile results with
      | Some featureWithResults => (cucumberFeatures ++ [featureWithResults])%list
      | None => cucumberFeatures
      end
  | None => cucumberFeatures
  end.

(** [parseFeatureFilesAndCreateJson(results)] *)
Definition parseFeatureFilesAndCreateJson (fs : FS) (results : CypressResults)
  : list (CucumberFeature * heap) :=
  let featureFiles := fold_left (addRunFeatureFile fs) results [] in
  fold_left (addFeature fs results) featureFiles [].

(** [path.basename(p, '.feature')] *)
Definition basenameNoExt (p : string) : string := JSString.basenameSuffix p ".feature".

Definition orElse (s d : string) : string := if JSString.truthy s then s else d.

(** The scenario built for one test by the fallback. *)
Definition fallbackScenario (test : CypressTest) : TestScenario :=
  {| ts_keyword := "Scenario";
     ts_name := orElse (Correlator.lastTitle test) "Unknown Scenario";
     ts_steps :=
       [ {| keyword := "Given";
            name := orElse (Correlator.lastTitle test) "Unknown Step";
            result :=
              {| status := match state test with
                           | Some s => if String.eqb s "passed" then passed else failed
                           | None => failed
                           end;
                 duration := Some (Correlator.durationNs test);
                 error_message :=
                   match displayError test with
                   | Some e => if JSString.truthy e then Some e else None
                   | None => None
                   end |} |} ] |}.

(** [createFallbackCucumberJson(results)] *)
Definition createFallbackCucumberJson (results : CypressResults) : list TestFeature :=
  omap (fun run =>
          match spec run with
          | Some specName =>
              Some {| tf_keyword := "Feature";
                      tf_name := basenameNoExt specName ++ ": Feature from " ++ specName;
                      tf_elements := fallbackScenario <$> tests run;
                      tf_uri := None |}
          | None => None
          end) results.

(** [convertCypressResultsToCucumberJson(results)] as a transformation of
    the file system. *)
Definition convertCypressResultsToCucumberJson (results : CypressResults) (fs : FS) : FS :=
  (* fs.unlinkSync(cucumberJsonPath) when the file exists *)
  let fs1 := delete cucumberJsonPath fs in
  let cucumberFeatures := parseFeatureFilesAndCreateJson fs1 results in
  if (0 <? length cucumberFeatures)%nat then
    <[ cucumberJsonPath := JSON_stringify (snapshot <$> cucumberFeatures) ]> fs1
  else
    <[ cucumberJsonPath := JSON_stringify (createFallbackCucumberJson results) ]> fs1.

End Conversion.

End Generator.

(* ===================================================================== *)
(** * Analytics helpers of the statistics engine *)
(* ===================================================================== *)

Module ReportAnalytics.
Local Open Scope string_scope.

(** The error type chosen for a message: the first test that holds. *)
Definition errorTypeOf (error : string) : string :=
  if JSString.includes "AssertionError" error then "Assertion Error"
  else if JSString.includes "TypeError" error then "Type Error"
  else if JSString.includes "RangeError" error then "Range Error"
  else if JSString.includes "SyntaxError" error then "Syntax Error"
  else if JSString.includes "CypressError" error then "Cypress Error"
  else if JSString.includes "NetworkError" error || JSString.includes "ENOTFOUND" error
  then "Network Error"
  else if JSString.includes "Timed out" error then "Timeout Error"
  else if JSString.includes "not found" error || JSString.includes "not visible" error
  then "Element Error"
  else "Unknown Error".

(** [errorCounts[errorType] = (errorCounts[errorType] || 0) + 1] on an
    object whose keys, none of which is an array index, are kept in the
    order of their first assignment. *)
Fixpoint increment (errorType : string) (errorCounts : list (string * nat))
  : list (string * nat) :=
  match errorCounts with
  | [] => [(errorType, 1%nat)]
  | (k, n) :: rest =>
      if String.eqb k errorType then (k, S n) :: rest
      else (k, n) :: increment errorType rest
  end.

(** The callback of [scenario.steps?.forEach]. *)
Definition countError (errorCounts : list (string * nat)) (step : CucumberStep)
  : list (string * nat) :=
  match status (result step), error_message (result step) with
  | failed, Some error =>
      if JSString.truthy error then increment (errorTypeOf error) errorCounts
      else errorCounts
  | _, _ => errorCounts
  end.

Definition errorCountsOf (features : list TestFeature) : list (string * nat) :=
  fold_left
    (fun errorCounts feature =>
       fold_left
         (fun errorCounts scenario => fold_left countError (ts_steps scenario) errorCounts)
         (tf_elements feature) errorCounts)
    features [].

(** [sort((a, b) => b.count - a.count)]: the sort is stable, entries of
    larger count come first and entries of equal count keep their order. *)
Fixpoint insertByCount (x : string * nat) (sorted : list (string * nat))
  : list (string * nat) :=
  match sorted with
  | [] => [x]
  | y :: rest =>
      if (x.2 <? y.2)%nat then y :: insertByCount x rest else x :: y :: rest
  end.

Definition sortByCount (entries : list (string * nat)) : list (string * nat) :=
  fold_right insertByCount [] entries.

(** [getTopErrors(features)] *)
Definition getTopErrors (features : list TestFeature) : list (string * nat) :=
  take 5 (sortByCount (errorCountsOf features)).

End ReportAnalytics.

(* ===================================================================== *)
(** * Text helpers of the HTML report generator *)
(* ===================================================================== *)

Module ReportText.
Local Open Scope string_scope.

Definition quote : ascii := ascii_of_N 34.

(** The callback of the global replacement of the five characters
    ampersand, less-than, greater-than, double quote and apostrophe,
    extended to the characters the expression does not match. *)
Definition escapeChar (c : ascii) : string :=
  if Ascii.eqb c "&" then "&amp;"
  else if Ascii.eqb c "<" then "&lt;"
  else if Ascii.eqb c ">" then "&gt;"
  else if Ascii.eqb c quote then "&quot;"
  else if Ascii.eqb c "'" then "&#39;"
  else String c "".

(** [escapeHtml(text)]. The object [div] is a plain object, so assigning
    [textContent] leaves [div.innerHTML] empty and the function always
    returns the result of the replacement. *)
Fixpoint escapeHtml (text : string) : string :=
  match text with
  | EmptyString => EmptyString
  | String c text' => escapeChar c ++ escapeHtml text'
  end.

End ReportText.

(* ===================================================================== *)
(** * Concrete inputs *)
(* ===================================================================== *)

Module Fixtures.
Local Open Scope string_scope.

(** The results object with one spec and one test. *)
Definition oneTest (specName : string) (test : CypressTest) : CypressResults :=
  [ {| spec := Some specName; tests := [test] |} ].

Definition nl : string := String "010" "".

(** [cypress/e2e/features/examples/api/create-user.feature] *)
Definition create_user_feature : string :=
  "@api @create-user" ++ nl ++
  "Feature: API Create User" ++ nl ++
  "  Create user test based on cypress-realworld-app" ++ nl ++
  nl ++
  "  Background:" ++ nl ++
  "    Given I am logged in via API" ++ nl ++
  nl ++
  "  @smoke" ++ nl ++
  "  Scenario: Create a new user" ++ nl ++
  "    Given I have new user data" ++ nl ++
  "    When I create a new user via API" ++ nl ++
  "    Then the user should be created successfully" ++ nl ++
  "    And the response should contain the new user data" ++ nl.


(** A one-step Background and a two-step Scenario. *)
Definition new_user_feature : string :=
  "Feature: API Create User" ++ nl ++
  "  Background:" ++ nl ++
  "    Given I am logged in via API" ++ nl ++
  nl ++
  "  Scenario: Create a new user" ++ nl ++
  "    Given I have new user data" ++ nl ++
  "    When I create a new user via API" ++ nl.

Definition new_user_path : string := "cypress/e2e/features/examples/api/create-user.feature".

(** A feature file whose Background is shared by two Scenarios. *)
Definition accounts_feature : string :=
  "Feature: Accounts" ++ nl ++
  "  Background:" ++ nl ++
  "    Given I am logged in via API" ++ nl ++
  nl ++
  "  Scenario: Open account" ++ nl ++
  "    When I open an account" ++ nl ++
  nl ++
  "  Scenario: Close account" ++ nl ++
  "    When I close the account" ++ nl.

Definition accounts_path : string := "cypress/e2e/features/accounts.feature".

(** A test record of the runner: title path, state, duration in
    milliseconds, display error. *)
Definition test (feature scenario state : string) (ms : Z) (err : option string)
  : CypressTest :=
  {| title := Some [feature; scenario]; state := Some state;
     test_duration := Some (JSNumber.of_Z ms); displayError := err |}.

Definition accounts_run (tests : list CypressTest) : CypressResults :=
  [ {| spec := Some "cypress/e2e/features/accounts.feature"; tests := tests |} ].

(** What the report shows of a step. *)
Definition shown (s : CucumberStep) : string * Status * option number :=
  (name s, status (result s), duration (result s)).

Definition shownSteps (f : option (CucumberFeature * heap))
  : option (list (string * list (string * Status * option number))) :=
  (fun fh : CucumberFeature * heap =>
     (fun sc => (ts_name sc, shown <$> ts_steps sc)) <$> tf_elements (jsonFeature fh)) <$> f.

(** A Scenario block with a line of free text that begins with a keyword. *)
Definition checkout_feature : string :=
  "Feature: Checkout" ++ nl ++
  "  Scenario: Pay by card" ++ nl ++
  "    Given a full basket" ++ nl ++
  "    Whenever the card is declined the basket is kept" ++ nl ++
  "    Then the order is paid".

(** A Feature line without a name. *)
Definition unnamed_feature : string :=
  "Feature:" ++ nl ++
  "  Scenario: Pay by card" ++ nl ++
  "    Given a full basket".

(** A parsed feature with one Scenario of one step, and a failed record
    whose error has the shape of an equality assertion. *)
Definition login_scenario : CucumberScenario :=
  {| scenario_keyword := "Scenario"; scenario_name := "Login with valid credentials";
     steps := [0%nat] |}.

Definition login_path : string := "cypress/e2e/features/examples/ui/login.feature".

Definition login_feature : CucumberFeature :=
  {| feature_keyword := "Feature"; feature_name := "UI Login"; uri := Some login_path;
     elements := [login_scenario] |}.

Definition login_text : string :=
  "Feature: UI Login" ++ nl ++
  "  Scenario: Login with valid credentials" ++ nl ++
  "    When I enter valid credentials" ++ nl.

Definition login_step : CucumberStep := Parser.newStep "When" "I enter valid credentials".

Definition equality_error : string := "AssertionError: expected 1 to equal 2".

Definition login_result : TestResult :=
  {| tr_status := failed; tr_duration := JSNumber.of_Z 3000000000;
     tr_error_message := Some equality_error |}.

Definition login_passed : TestResult :=
  {| tr_status := passed; tr_duration := JSNumber.of_Z 3000000000;
     tr_error_message := None |}.

Definition login_pending : TestResult :=
  {| tr_status := skipped; tr_duration := JSNumber.of_Z 0;
     tr_error_message := None |}.

(** A run in which "Login" passed and "Login Test" failed. *)
Definition plainStep (kw nm : string) (st : Status) : CucumberStep :=
  {| keyword := kw; name := nm;
     result := {| status := st; duration := Some (JSNumber.of_Z 1000000000);
                  error_message := None |} |}.

Definition passed_login : TestScenario :=
  {| ts_keyword := "Scenario"; ts_name := "Login";
     ts_steps := [plainStep "When" "I enter valid credentials" passed] |}.

Definition failed_login_test : TestScenario :=
  {| ts_keyword := "Scenario"; ts_name := "Login Test";
     ts_steps := [plainStep "Then" "I should see the dashboard" failed] |}.

Definition login_run : list TestFeature :=
  [ {| tf_keyword := "Feature"; tf_name := "UI Login";
       tf_elements := [passed_login; failed_login_test];
       tf_uri := None |} ].

End Fixtures.

(** Further concrete inputs. *)
Module MoreFixtures.
Local Open Scope string_scope.

(** A parsed feature with one Scenario of three steps, and a failed
    record whose error matches none of the patterns of the correlator. *)
Definition payment_scenario : CucumberScenario :=
  {| scenario_keyword := "Scenario"; scenario_name := "Pay by card";
     steps := [0%nat; 1%nat; 2%nat] |}.

Definition payment_feature : CucumberFeature :=
  {| feature_keyword := "Feature"; feature_name := "Checkout";
     uri := Some "cypress/e2e/features/checkout.feature";
     elements := [payment_scenario] |}.

Definition payment_store : heap :=
  [ Parser.newStep "Given" "a full basket";
    Parser.newStep "When" "I pay by card";
    Parser.newStep "Then" "the order is paid" ].

Definition timeout_error : string := "Timed out retrying after 4000ms".

Definition payment_failed : TestResult :=
  {| tr_status := failed; tr_duration := JSNumber.of_Z 3000000000;
     tr_error_message := Some timeout_error |}.

(** The feature parsed from [Fixtures.accounts_feature]: the Background
    step object, reference 0, is held by both Scenarios. *)
Definition open_account : CucumberScenario :=
  {| scenario_keyword := "Scenario"; scenario_name := "Open account";
     steps := [0%nat; 1%nat] |}.

Definition close_account : CucumberScenario :=
  {| scenario_keyword := "Scenario"; scenario_name := "Close account";
     steps := [0%nat; 2%nat] |}.

Definition accounts_parsed : CucumberFeature :=
  {| feature_keyword := "Feature"; feature_name := "Accounts";
     uri := Some Fixtures.accounts_path;
     elements := [open_account; close_account] |}.

Definition accounts_store : heap :=
  [ Parser.newStep "Given" "I am logged in via API";
    Parser.newStep "When" "I open an account";
    Parser.newStep "When" "I close the account" ].

(** A feature file without Background and with two Scenarios. *)
Definition transfers_text : string :=
  "Feature: Transfers" ++ Fixtures.nl ++
  "  Scenario: Send money" ++ Fixtures.nl ++
  "    Given a funded account" ++ Fixtures.nl ++
  "    When I send money" ++ Fixtures.nl ++
  "    Then the balance is lower" ++ Fixtures.nl ++
  Fixtures.nl ++
  "  Scenario: Receive money" ++ Fixtures.nl ++
  "    Given an empty account" ++ Fixtures.nl ++
  "    When money arrives" ++ Fixtures.nl.

Definition transfers_path : string := "cypress/e2e/features/transfers.feature".

Definition send_money : CucumberScenario :=
  {| scenario_keyword := "Scenario"; scenario_name := "Send money";
     steps := [0%nat; 1%nat; 2%nat] |}.

Definition receive_money : CucumberScenario :=
  {| scenario_keyword := "Scenario"; scenario_name := "Receive money";
     steps := [3%nat; 4%nat] |}.

Definition transfers_parsed : CucumberFeature :=
  {| feature_keyword := "Feature"; feature_name := "Transfers";
     uri := Some transfers_path;
     elements := [send_money; receive_money] |}.

Definition transfers_store : heap :=
  [ Parser.newStep "Given" "a funded account";
    Parser.newStep "When" "I send money";
    Parser.newStep "Then" "the balance is lower";
    Parser.newStep "Given" "an empty account";
    Parser.newStep "When" "money arrives" ].

Definition transfers_results : gmap string TestResult :=
  {[ "Send money" := payment_failed; "Receive money" := Fixtures.login_passed ]}.

(** A run in which "Login Test" and "Constructor builds the cart" failed,
    and a listing whose second file has the test name "constructor". *)
Definition cart_run : list TestFeature :=
  [ {| tf_keyword := "Feature"; tf_name := "Shop";
       tf_elements :=
         [ Fixtures.failed_login_test;
           {| ts_keyword := "Scenario"; ts_name := "Constructor builds the cart";
              ts_steps := [Fixtures.plainStep "Then" "the cart is empty" failed] |} ];
       tf_uri := None |} ].

Definition cart_listing : list string :=
  [ "login_test_failed.png";
    "cart -- constructor (failed).png";
    "login_test_failed (attempt 2).png" ].

(** A feature file whose two Scenarios have the Background step as their
    only step. *)
Definition session_feature : string :=
  "Feature: Session" ++ Fixtures.nl ++
  "  Background:" ++ Fixtures.nl ++
  "    Given I am logged in via API" ++ Fixtures.nl ++
  Fixtures.nl ++
  "  Scenario: Keep session" ++ Fixtures.nl ++
  Fixtures.nl ++
  "  Scenario: Drop session" ++ Fixtures.nl.

Definition session_path : string := "cypress/e2e/features/session.feature".

Definition session_run (tests : list CypressTest) : CypressResults :=
  [ {| spec := Some "cypress/e2e/features/session.feature"; tests := tests |} ].

(** Two file systems that hold the same feature file and differ
    elsewhere, a search that finds the feature file when it exists, and a
    printer of the names of a report. *)
Definition glob_accounts (fs : gmap string string) (pattern : string) : list string :=
  if String.eqb pattern "cypress/e2e/features/**/accounts.feature"
     && bool_decide (is_Some (fs !! Fixtures.accounts_path))
  then [Fixtures.accounts_path] else [].

Definition print_names (features : list TestFeature) : string :=
  String.concat "; "
    ((fun f => tf_name f ++ ": " ++ String.concat ", " (ts_name <$> tf_elements f))
       <$> features).

Definition disk_one : gmap string string :=
  {[ Fixtures.accounts_path := Fixtures.accounts_feature; "README.md" := "notes" ]}.

Definition disk_two : gmap string string :=
  {[ Fixtures.accounts_path := Fixtures.accounts_feature;
     Generator.cucumberJsonPath := "the report of an earlier run";
     "cypress/e2e/features/other.feature" := "Feature: Other" ]}.

Definition accounts_results : CypressResults :=
  Fixtures.accounts_run
    [ Fixtures.test "Accounts" "Open account" "passed" 2000 None;
      Fixtures.test "Accounts" "Close account" "pending" 0 None ].

End MoreFixtures.

(* ===================================================================== *)
(** * Vocabulary of the statements *)
(* ===================================================================== *)

(** Independent descriptions against which the program is compared. *)
Module Spec.

(** All scenarios of a feature list, in report order. *)
Definition scenariosOf (features : list TestFeature) : list TestScenario :=
  features ≫= tf_elements.

(** The number of scenarios whose aggregate status is [st]: failed
    dominates skipped, skipped dominates passed. *)
Definition scenariosWith (st : Status) (features : list TestFeature) : nat :=
  length (List.filter
            (fun sc => Status_eqb (ReportStatistics.getScenarioStatus sc) st)
            (scenariosOf features)).

(** The estimate of the claim about missing durations: 2000 ms for a
    failed step, 500 ms for any other. *)
Definition estimateMs (step : CucumberStep) : Z :=
  match status (result step) with
  | failed => 2000
  | _ => 500
  end.

(** The recorded duration is absent or zero. *)
Definition absentOrZero (step : CucumberStep) : bool :=
  match duration (result step) with
  | None => true
  | Some (S754_zero _) => true
  | Some _ => false
  end.

(** Screenshot names are compared in lower case, without the white space
    around them, and one may be a part of the other. *)
Definition clean (s : string) : string := JSString.trim (JSString.toLowerCase s).

Definition partOfEachOther (a b : string) : bool :=
  JSString.includes (clean a) (clean b) || JSString.includes (clean b) (clean a).

(** The scenario [name] failed in the run: some scenario of that name has
    aggregate status failed. *)
Definition failedInRun (data : list TestFeature) (name : string) : Prop :=
  exists sc, sc ∈ scenariosOf data ∧ ts_name sc = name
             ∧ ReportStatistics.getScenarioStatus sc = failed.

(** What the failed branch does to the step at [index]. *)
Definition markedStep (failedStepIndex : Z) (scenarioDuration : number)
    (count : nat) (errorMessage : option string) (index : nat)
    (s : CucumberStep) : CucumberStep :=
  if (Z.of_nat index <? failedStepIndex)%Z then
    Correlator.setStatusDuration passed (JSNumber.div scenarioDuration (JSNumber.of_nat count)) s
  else if (Z.of_nat index =? failedStepIndex)%Z then
    match errorMessage with
    | Some msg =>
        if JSString.truthy msg
        then Correlator.setErrorMessage msg (Correlator.setStatusDuration failed scenarioDuration s)
        else Correlator.setStatusDuration failed scenarioDuration s
    | None => Correlator.setStatusDuration failed scenarioDuration s
    end
  else Correlator.setStatusDuration skipped (JSNumber.of_Z 0) s.

(** Flags and counters of the statistics loop. *)
Definition isFailed (step : CucumberStep) : bool := Status_eqb (status (result step)) failed.
Definition isSkipped (step : CucumberStep) : bool := Status_eqb (status (result step)) skipped.

Definition bump (b : bool) (n : nat) : nat := if b then S n else n.

End Spec.

(** The lines of a feature file, as the loop of the parser sorts them. *)
Module Lines.
Import Parser.
Local Open Scope string_scope.

(** The branch of the loop body a line takes. *)
Inductive lineClass : Type :=
| FeatureLine (nm : string)
| BackgroundLine
| ScenarioLine (nm : string)
| StepLine (kw nm : string)
| OtherLine.

Definition classify (line : string) : lineClass :=
  let trimmedLine := JSString.trim line in
  if JSString.startsWith "Feature:" trimmedLine then
    FeatureLine (JSString.trim (JSString.replace "Feature:" "" trimmedLine))
  else if JSString.startsWith "Background:" trimmedLine then BackgroundLine
  else if JSString.startsWith "Scenario:" trimmedLine then
    ScenarioLine (JSString.trim (JSString.replace "Scenario:" "" trimmedLine))
  else if bool_decide (is_Some (Regex.exec stepPrefix trimmedLine)) then
    match Regex.exec stepLine trimmedLine with
    | Some stepMatch => StepLine (Regex.group 1 stepMatch) (Regex.group 2 stepMatch)
    | None => OtherLine
    end
  else OtherLine.

(** The store grows by one object and the new reference goes to the
    current scenario, or to the Background when there is none. *)
Definition addStep (st : state) (kw nm : string) : state :=
  let r := length (store st) in
  match currentScenario st with
  | Some sc =>
      {| featureName := featureName st;
         currentScenario :=
           Some {| scenario_keyword := scenario_keyword sc;
                   scenario_name := scenario_name sc;
                   steps := (steps sc ++ [r])%list |};
         backgroundSteps := backgroundSteps st;
         scenarios := scenarios st;
         store := (store st ++ [newStep kw nm])%list |}
  | None =>
      {| featureName := featureName st;
         currentScenario := None;
         backgroundSteps := (backgroundSteps st ++ [r])%list;
         scenarios := scenarios st;
         store := (store st ++ [newStep kw nm])%list |}
  end.

(** The step a line stands for, when it is a step line. *)
Definition stepOf (line : string) : option CucumberStep :=
  match classify line with
  | StepLine kw nm => Some (newStep kw nm)
  | _ => None
  end.

(** The steps of a block of lines, in the order of the lines. *)
Definition stepsOf (lines : list string) : list CucumberStep := omap stepOf lines.

Definition isScenarioLine (line : string) : bool :=
  match classify line with ScenarioLine _ => true | _ => false end.

(** The Background collected over lines that precede the first Scenario:
    a Background line starts afresh, a step line adds its step. *)
Definition collect (bg : list CucumberStep) (line : string) : list CucumberStep :=
  match classify line with
  | BackgroundLine => []
  | StepLine kw nm => (bg ++ [newStep kw nm])%list
  | _ => bg
  end.

Definition backgroundOf (lines : list string) : list CucumberStep :=
  fold_left collect lines [].

(** The name on the last Feature line, empty when there is none. *)
Definition featureNames (lines : list string) : list string :=
  omap (fun line => match classify line with FeatureLine nm => Some nm | _ => None end) lines.

Definition featureNameOf (lines : list string) : string :=
  List.last (featureNames lines) "".

(** Every character of a string satisfies [p]. *)
Fixpoint allChars (p : ascii -> bool) (s : string) : bool :=
  match s with
  | EmptyString => true
  | String c s' => p c && allChars p s'
  end.

(** The first character of a string, if any, does not satisfy [p]. *)
Definition startsOutside (p : ascii -> bool) (s : string) : bool :=
  match s with
  | EmptyString => true
  | String c _ => negb (p c)
  end.

Fixpoint lastChar (s : string) : option ascii :=
  match s with
  | EmptyString => None
  | String c EmptyString => Some c
  | String _ s' => lastChar s'
  end.

(** The last character of a string, if any, does not satisfy [p]. *)
Definition endsOutside (p : ascii -> bool) (s : string) : bool :=
  match lastChar s with
  | Some c => negb (p c)
  | None => true
  end.

Definition stepKeywords : list string := ["Given"; "When"; "Then"; "And"; "But"].

(** The text of a step line: a keyword, white space, and a remainder that
    starts with a character other than white space and has no line
    terminator. *)
Definition stepText (kw ws rest : string) : Prop :=
  kw ∈ stepKeywords
  ∧ ws ≠ "" ∧ allChars JSString.is_space ws = true
  ∧ rest ≠ "" ∧ startsOutside JSString.is_space rest = true
  ∧ allChars (fun c => negb (JSString.is_line_terminator c)) rest = true.

(** The reading of "a line whose trimmed text starts with Given, When,
    Then, And or But". *)
Definition startsWithKeyword (line : string) : bool :=
  let t := JSString.trim line in
  JSString.startsWith "Given" t || JSString.startsWith "When" t
  || JSString.startsWith "Then" t || JSString.startsWith "And" t
  || JSString.startsWith "But" t.

(** Invariant of the parser: references are distinct and point into the
    store, whose objects carry the placeholder result. *)
Definition defaultResult : StepResult :=
  {| status := passed; duration := Some (JSNumber.of_Z 1000000000);
     error_message := None |}.

Definition refs_ok (h : heap) (refs : list ref) : Prop :=
  NoDup refs ∧ Forall (fun r => (r < length h)%nat) refs.

Record wf (st : state) : Prop := {
  wf_background : refs_ok (store st) (backgroundSteps st);
  wf_scenarios : Forall (fun sc => refs_ok (store st) (steps sc)) (pushCurrent st);
  wf_store : Forall (fun s => result s = defaultResult) (store st)
}.

End Lines.

(** Further vocabulary: steps of a report, by status. *)
Module StepSpec.

(** All steps of a feature list, in report order. *)
Definition stepsOfReport (features : list TestFeature) : list CucumberStep :=
  Spec.scenariosOf features ≫= ts_steps.

Definition hasStatus (st : Status) (step : CucumberStep) : bool :=
  Status_eqb (status (result step)) st.

(** The number of steps with status [st]. *)
Definition stepsWith (st : Status) (steps : list CucumberStep) : nat :=
  length (List.filter (hasStatus st) steps).

End StepSpec.

(** The durations the statistics count. *)
Module DurationSpec.
Import StepSpec.
Local Open Scope Z_scope.

(** The recorded duration of a step, in nanoseconds, unless it is absent,
    zero or not a number. *)
Definition recorded (step : CucumberStep) : option number :=
  match duration (result step) with
  | None | Some (S754_zero _) | Some S754_nan => None
  | Some d => Some d
  end.

(** What a step counts for: its recorded duration, or else the estimate
    of 2000 ms for a failed step and of 500 ms for any other. *)
Definition effectiveMs (step : CucumberStep) : number :=
  match recorded step with
  | Some d => JSNumber.div d (JSNumber.of_Z 1000000)
  | None => JSNumber.of_Z (Spec.estimateMs step)
  end.

Definition effectiveNs (step : CucumberStep) : number :=
  match recorded step with
  | Some d => d
  | None => JSNumber.of_Z (Spec.estimateMs step * 1000000)
  end.

(** The sum of a list of numbers, taken in order from zero. *)
Definition total (xs : list number) : number :=
  fold_left JSNumber.add xs (JSNumber.of_Z 0).

(** All steps of a feature, in report order. *)
Definition stepsOfFeature (feature : TestFeature) : list CucumberStep :=
  tf_elements feature ≫= ts_steps.

(** The estimates of a list of steps, in milliseconds: 2000 for each
    failed step and 500 for each of the others. *)
Definition estimatedMs (steps : list CucumberStep) : Z :=
  2000 * Z.of_nat (stepsWith failed steps)
  + 500 * (Z.of_nat (length steps) - Z.of_nat (stepsWith failed steps)).

(** A skipped step with duration 0, as the correlator leaves it. *)
Definition skippedWithZero (step : CucumberStep) : Prop :=
  status (result step) = skipped ∧ duration (result step) = Some (JSNumber.of_Z 0).

End DurationSpec.

(** Further vocabulary for the correlator. *)
Module CorrelatorSpec.
Import Correlator.

(** A run belongs to a feature file when its spec name contains the base
    name of the file. *)
Definition runMatches (featureFile : string) (run : CypressRun) : bool :=
  match spec run with
  | Some specName => JSString.includes (JSString.basename featureFile) specName
  | None => false
  end.

(** The tests of the runs of a feature file, in the order of the results. *)
Definition testsFor (results : CypressResults) (featureFile : string) : list CypressTest :=
  List.filter (runMatches featureFile) results ≫= tests.

(** The record made from one test. *)
Definition resultOf (test : CypressTest) : TestResult :=
  {| tr_status := statusOfState (state test);
     tr_duration := durationNs test;
     tr_error_message := displayError test |}.

Definition titled (scenarioName : string) (test : CypressTest) : bool :=
  String.eqb (lastTitle test) scenarioName.

(** What the failed branch does to the step at [index] when the value
    found under the scenario name is not a record. *)
Definition markedStepUndefined (failedStepIndex : Z) (index : nat)
    (s : CucumberStep) : CucumberStep :=
  if (Z.of_nat index <? failedStepIndex)%Z then setStatusDuration passed JSNumber.nan s
  else if (Z.of_nat index =? failedStepIndex)%Z then setStatusNoDuration failed s
  else setStatusDuration skipped (JSNumber.of_Z 0) s.

(** The name finds nothing in the records: it has no record, is not the
    name of a property of [Object.prototype], and no record was assigned
    to the name [__proto__]. *)
Definition plainMiss (testResults : gmap string TestResult) (name : string) : Prop :=
  testResults !! name = None
  ∧ JSObject.inherited name = false
  ∧ testResults !! "__proto__"%string = None.

(** A step without its result, and a report without its results. *)
Definition labelOf (s : CucumberStep) : string * string := (keyword s, name s).

Definition labelsOfScenario (sc : TestScenario) : string * string * list (string * string) :=
  (ts_keyword sc, ts_name sc, labelOf <$> ts_steps sc).

Definition labelsOf (f : TestFeature)
  : string * string * option string * list (string * string * list (string * string)) :=
  (tf_keyword f, tf_name f, tf_uri f, labelsOfScenario <$> tf_elements f).

(** What is kept of a store: its size and the labels of its objects. *)
Definition sameLabels (h h' : heap) : Prop :=
  length h' = length h ∧ forall r : ref, labelOf <$> h' !! r = labelOf <$> h !! r.

(** Status and duration of a step. *)
Definition marked (st : Status) (d : number) (s : CucumberStep) : Prop :=
  status (result s) = st ∧ duration (result s) = Some d.

End CorrelatorSpec.

(** Further vocabulary for the parser. *)
Module ParserSpec.
Import Parser Lines.

(** The names on the Scenario lines, in the order of the lines. *)
Definition scenarioNames (lines : list string) : list string :=
  omap (fun line => match classify line with ScenarioLine nm => Some nm | _ => None end) lines.

Definition isBackgroundLine (line : string) : bool :=
  match classify line with BackgroundLine => true | _ => false end.

(** The scenarios of a state, the current one last, are made of the
    Background references [bg] followed by references of their own. *)
Record shares (bg : list ref) (B : list CucumberStep) (st : state)
    (owns : list (list ref)) (own : list ref) : Prop := {
  sh_background : backgroundSteps st = bg;
  sh_scenarios : steps <$> scenarios st = (fun o => bg ++ o) <$> owns;
  sh_current : exists sc, currentScenario st = Some sc ∧ steps sc = bg ++ own;
  sh_nodup : NoDup (bg ++ concat owns ++ own);
  sh_bound : Forall (fun r => (r < length (store st))%nat) (bg ++ concat owns ++ own);
  sh_read : readSteps (store st) bg = B
}.

End ParserSpec.

(** Further vocabulary for the fallback report. *)
Module FallbackSpec.
Local Open Scope string_scope.

(** The tests the fallback reports: those of the runs that have a spec. *)
Definition reportedTests (results : CypressResults) : list CypressTest :=
  results ≫= fun run => match spec run with Some _ => tests run | None => [] end.

Definition statePassed (test : CypressTest) : bool :=
  match state test with
  | Some s => String.eqb s "passed"
  | None => false
  end.

End FallbackSpec.

(** Further vocabulary for the conversion. *)
Module ConverterSpec.
Import Generator.
Local Open Scope string_scope.

(** The file [path] is the first match of the pattern built from the
    spec name of some run whose spec is a feature file. *)
Definition foundForRun (glob_sync : FS -> string -> list string)
    (fs : FS) (results : CypressResults) (path : string) : Prop :=
  exists run specName,
    run ∈ results ∧ spec run = Some specName
    ∧ JSString.endsWith ".feature" specName = true
    ∧ head (glob_sync fs ("cypress/e2e/features/**/" ++ JSString.basename specName))
      = Some path.

(** The pattern searched for a run whose spec is a feature file. *)
Definition patternOf (run : CypressRun) : option string :=
  match spec run with
  | Some specName =>
      if JSString.endsWith ".feature" specName
      then Some ("cypress/e2e/features/**/" ++ JSString.basename specName)
      else None
  | None => None
  end.

(** Two file systems give the conversion the same inputs: the searches
    for the feature files of the runs find the same files in both, and the
    file found first has the same contents in both. Nothing is asked of
    any other file. *)
Definition sameInputs (glob_sync : FS -> string -> list string)
    (results : CypressResults) (fs fs' : FS) : Prop :=
  forall run pattern,
    run ∈ results -> patternOf run = Some pattern ->
    glob_sync fs pattern = glob_sync fs' pattern
    ∧ forall first, head (glob_sync fs pattern) = Some first -> fs !! first = fs' !! first.

(** A feature of the report was read from one of the files [all]. *)
Definition readFrom (fs : FS) (results : CypressResults) (all : list string)
    (fh : CucumberFeature * heap) : Prop :=
  exists path content,
    path ∈ all ∧ fs !! path = Some content
    ∧ reportFeature content path results = Some fh.

End ConverterSpec.

(** Further vocabulary for the screenshots. *)
Module ScreenshotSpec.
Import ReportHtmlGenerator.
Local Open Scope string_scope.

(** The path recorded for a file of the listing. *)
Definition relativePath (file : string) : string :=
  "screenshots/" ++ JSString.replaceAllChar "\" "/" file.

(** The file is recorded under [name]: it is a PNG file whose test name
    is [name], not empty, and matches a failed scenario. *)
Definition recordedUnder (failedScenarios : list string) (name file : string) : bool :=
  JSString.endsWith ".png" file
  && (JSString.truthy (testNameOf file) && isScenarioFailed (testNameOf file) failedScenarios)
  && String.eqb (testNameOf file) name.

(** The call for this file throws: the file would be recorded, under a
    name that [Object.prototype] defines. *)
Definition throws (failedScenarios : list string) (file : string) : bool :=
  JSString.endsWith ".png" file
  && (JSString.truthy (testNameOf file) && isScenarioFailed (testNameOf file) failedScenarios)
  && JSObject.inherited (testNameOf file).

(** The files the loop reaches: those before the first call that throws. *)
Fixpoint reached (failedScenarios : list string) (files : list string) : list string :=
  match files with
  | [] => []
  | file :: files' =>
      if throws failedScenarios file then [] else file :: reached failedScenarios files'
  end.

(** The texts are ASCII: file names, and the names of the scenarios. *)
Definition asciiFiles (files : list string) : Prop :=
  Forall (fun file => JSString.isAscii file = true) files.

Definition asciiNames (data : list TestFeature) : Prop :=
  Forall (fun sc => JSString.isAscii (ts_name sc) = true) (Spec.scenariosOf data).

End ScreenshotSpec.

(** Further vocabulary for the analytics helpers. *)
Module AnalyticsSpec.
Import ReportAnalytics.

(** The error messages that are counted: those of the failed steps with a
    non-empty message, in report order. *)
Definition countedMessage (step : CucumberStep) : option string :=
  match status (result step), error_message (result step) with
  | failed, Some error => if JSString.truthy error then Some error else None
  | _, _ => None
  end.

Definition countedTypes (features : list TestFeature) : list string :=
  errorTypeOf <$> omap countedMessage (StepSpec.stepsOfReport features).

(** The number of counted messages of an error type. *)
Definition occurrences (errorType : string) (features : list TestFeature) : nat :=
  length (List.filter (String.eqb errorType) (countedTypes features)).

Definition byCount (a b : string * nat) : Prop := (b.2 <= a.2)%nat.

(** The count kept for an error type, [0] when there is none. *)
Fixpoint countOf (errorType : string) (errorCounts : list (string * nat)) : nat :=
  match errorCounts with
  | [] => 0
  | (k, n) :: rest => if String.eqb k errorType then n else countOf errorType rest
  end.

End AnalyticsSpec.

(** Further vocabulary for the text helpers. *)
Module TextSpec.
Import ReportText.
Local Open Scope string_scope.

(** The characters with a meaning in HTML markup, the ampersand apart. *)
Definition isMarkup (c : ascii) : bool :=
  Ascii.eqb c "<" || Ascii.eqb c ">" || Ascii.eqb c quote || Ascii.eqb c "'".

(** Reading escaped text back: each of the five entities stands for its
    character; [skip] characters of an entity are still to be passed. *)
Fixpoint unescapeFrom (skip : nat) (s : string) : string :=
  match s with
  | EmptyString => EmptyString
  | String c s' =>
      match skip with
      | S k => unescapeFrom k s'
      | O =>
          if Ascii.eqb c "&" then
            if String.prefix "amp;" s' then String "&" (unescapeFrom 4 s')
            else if String.prefix "lt;" s' then String "<" (unescapeFrom 3 s')
            else if String.prefix "gt;" s' then String ">" (unescapeFrom 3 s')
            else if String.prefix "quot;" s' then String quote (unescapeFrom 5 s')
            else if String.prefix "#39;" s' then String "'" (unescapeFrom 4 s')
            else String c (unescapeFrom 0 s')
          else String c (unescapeFrom 0 s')
      end
  end.

Definition unescapeHtml : string -> string := unescapeFrom 0.

End TextSpec.

(* ===================================================================== *)
(** * What a regular expression matches; step lines read directly *)
(* ===================================================================== *)

(** The meaning of the expressions, without the search: at position [pos]
    of the subject the expression consumes [w], and [rest] follows. *)
Module RegexSpec.
Import Regex.
Local Open Scope string_scope.

Inductive matches : regex -> nat -> string -> string -> Prop :=
| M_Eps (pos : nat) (rest : string) :
    matches Eps pos "" rest
| M_Chr (c : ascii) (pos : nat) (rest : string) :
    matches (Chr c) pos (String c "") rest
| M_Class (p : ascii -> bool) (c : ascii) (pos : nat) (rest : string) :
    p c = true -> matches (Class p) pos (String c "") rest
| M_Seq (r1 r2 : regex) (pos : nat) (w1 w2 rest : string) :
    matches r1 pos w1 (w2 ++ rest) ->
    matches r2 (pos + String.length w1) w2 rest ->
    matches (Seq r1 r2) pos (w1 ++ w2) rest
| M_AltL (r1 r2 : regex) (pos : nat) (w rest : string) :
    matches r1 pos w rest -> matches (Alt r1 r2) pos w rest
| M_AltR (r1 r2 : regex) (pos : nat) (w rest : string) :
    matches r2 pos w rest -> matches (Alt r1 r2) pos w rest
| M_StarNil (g : bool) (r : regex) (pos : nat) (rest : string) :
    matches (Star g r) pos "" rest
| M_StarCons (g : bool) (r : regex) (pos : nat) (w1 w2 rest : string) :
    matches r pos w1 (w2 ++ rest) ->
    matches (Star g r) (pos + String.length w1) w2 rest ->
    matches (Star g r) pos (w1 ++ w2) rest
| M_Group (n : nat) (r : regex) (pos : nat) (w rest : string) :
    matches r pos w rest -> matches (Group n r) pos w rest
| M_Bol (rest : string) :
    matches Bol 0 "" rest
| M_Eol (pos : nat) :
    matches Eol pos "" "".

End RegexSpec.

(** A step line read without regular expressions. *)
Module LineSpec.
Import Parser Lines.
Local Open Scope string_scope.

(** The keyword a text begins with. No keyword begins another one. *)
Definition keywordOf (t : string) : option string :=
  List.find (fun kw => String.prefix kw t) stepKeywords.

(** The keyword and the name of a trimmed text: a keyword, at least one
    white-space character, and the remainder, which is not empty and has
    no line terminator. *)
Definition stepTextOf (t : string) : option (string * string) :=
  match keywordOf t with
  | Some kw =>
      let after := JSString.drop (String.length kw) t in
      let rest := JSString.trimStart after in
      if negb (String.length rest =? String.length after)%nat
         && JSString.truthy rest
         && allChars (fun c => negb (JSString.is_line_terminator c)) rest
      then Some (kw, rest)
      else None
  | None => None
  end.

(** The step of a line of the file, if it is a step line. *)
Definition specStep (line : string) : option CucumberStep :=
  match stepTextOf (JSString.trim line) with
  | Some (kw, rest) => Some (newStep kw rest)
  | None => None
  end.

(** The kinds of lines, read directly: the three headings by the
    beginning of the trimmed text, in the order the parser tests them,
    then the step lines. *)
Definition specClassify (line : string) : lineClass :=
  let t := JSString.trim line in
  if String.prefix "Feature:" t then
    FeatureLine (JSString.trim (JSString.replace "Feature:" "" t))
  else if String.prefix "Background:" t then BackgroundLine
  else if String.prefix "Scenario:" t then
    ScenarioLine (JSString.trim (JSString.replace "Scenario:" "" t))
  else
    match stepTextOf t with
    | Some (kw, rest) => StepLine kw rest
    | None => OtherLine
    end.

Definition specIsScenarioLine (line : string) : bool :=
  match specClassify line with ScenarioLine _ => true | _ => false end.

(** The name on the last Feature line, empty when there is none. *)
Definition specFeatureName (lines : list string) : string :=
  List.last
    (omap (fun line => match specClassify line with FeatureLine nm => Some nm | _ => None end)
       lines)
    "".

(** The steps of a Scenario block, and the Background collected before
    the first Scenario line, read directly. *)
Definition specSteps (lines : list string) : list CucumberStep := omap specStep lines.

Definition specCollect (bg : list CucumberStep) (line : string) : list CucumberStep :=
  match specClassify line with
  | BackgroundLine => []
  | StepLine kw nm => (bg ++ [newStep kw nm])%list
  | _ => bg
  end.

Definition specBackground (lines : list string) : list CucumberStep :=
  fold_left specCollect lines [].

End LineSpec.

(* ===================================================================== *)
(** * The definitions at work *)
(* ===================================================================== *)

Example ex_of_Z_3000 :
  JSNumber.mul (JSNumber.of_Z 3000) (JSNumber.of_Z 1000000) = JSNumber.of_Z 3000000000.
Proof. vm_compute. reflexivity. Qed.

Example ex_div_3 :
  JSNumber.div (JSNumber.of_Z 3000000000) (JSNumber.of_nat 3) = JSNumber.of_Z 1000000000.
Proof. vm_compute. reflexivity. Qed.

Example ex_round_eighth :
  JSNumber.Math_round
    (JSNumber.mul (JSNumber.div (JSNumber.of_nat 1) (JSNumber.of_nat 8)) (JSNumber.of_Z 100))
  = JSNumber.of_Z 13.
Proof. vm_compute. reflexivity. Qed.

Example ex_round_29_200 :
  JSNumber.Math_round
    (JSNumber.mul (JSNumber.div (JSNumber.of_nat 29) (JSNumber.of_nat 200)) (JSNumber.of_Z 100))
  = JSNumber.of_Z 14.
Proof. vm_compute. reflexivity. Qed.

Section StringExamples.
Local Open Scope string_scope.

Example ex_trim : JSString.trim "   Given I log in  " = "Given I log in".
Proof. reflexivity. Qed.

Example ex_replace :
  JSString.trim (JSString.replace "Feature:" "" "Feature: API Users") = "API Users".
Proof. reflexivity. Qed.

Example ex_split : JSString.split "010" ("a" ++ String "010" ("" ++ String "010" "b"))
                   = ["a"; ""; "b"].
Proof. reflexivity. Qed.

Example ex_capitalize :
  JSString.capitalizeWords (JSString.replaceAllChar "_" " " "login_test") = "Login Test".
Proof. reflexivity. Qed.

Example ex_basename :
  JSString.basename "cypress/e2e/features/examples/api/login.feature" = "login.feature"
  ∧ JSString.basename "features/api/" = "api"
  ∧ JSString.basename "///" = ""
  ∧ JSString.basenameSuffix "cypress/e2e/features/login.feature" ".feature" = "login"
  ∧ JSString.basenameSuffix "features/.feature" ".feature" = ".feature"
  ∧ JSString.basenameSuffix ".feature" ".feature" = ""
  ∧ JSString.basenameSuffix "login.spec.ts" ".feature" = "login.spec.ts".
Proof. repeat split; vm_compute; reflexivity. Qed.
End StringExamples.

Section ParserExamples.
Local Open Scope string_scope.

Example ex_parse_create_user :
  (fun fh : CucumberFeature * heap =>
     (feature_name fh.1, elements fh.1, (fun s => (keyword s, name s)) <$> fh.2))
    <$> Parser.parseFeatureFile Fixtures.create_user_feature "f.feature"
  = Some ("API Create User",
          [ {| scenario_keyword := "Scenario"; scenario_name := "Create a new user";
               steps := [0; 1; 2; 3; 4]%nat |} ],
          [ ("Given", "I am logged in via API");
            ("Given", "I have new user data");
            ("When", "I create a new user via API");
            ("Then", "the user should be created successfully");
            ("And", "the response should contain the new user data") ]).
Proof. vm_compute. reflexivity. Qed.
Example ex_parse_login :
  Parser.parseFeatureFile Fixtures.login_text Fixtures.login_path
  = Some (Fixtures.login_feature, [Fixtures.login_step]).
Proof. vm_compute. reflexivity. Qed.

Example ex_step_line :
  Regex.exec Parser.stepLine "Given I am logged in via API"
  = Some (<[2%nat := "I am logged in via API"]> (<[1%nat := "Given"]> ∅)).
Proof. vm_compute. reflexivity. Qed.

Example ex_not_a_step_line :
  Regex.exec Parser.stepPrefix "Whenever the card is declined the basket is kept" = None.
Proof. vm_compute. reflexivity. Qed.
End ParserExamples.

Section CorrelatorExamples.
Local Open Scope string_scope.

Example ex_state_passed : Correlator.statusOfState (Some "passed") = passed.
Proof. reflexivity. Qed.

Example ex_state_pending : Correlator.statusOfState (Some "pending") = skipped.
Proof. reflexivity. Qed.

Example ex_state_failed : Correlator.statusOfState (Some "failed") = failed.
Proof. reflexivity. Qed.

(** The first Scenario of [Fixtures.accounts_feature] merged alone: both of
    its steps are passed with a half of the 2000 ms. *)
Example ex_first_scenario_alone :
  (fun fh : CucumberFeature * heap =>
     Fixtures.shown <$>
       readSteps
         (Correlator.mergeScenario
            (Correlator.getTestResultsForFeature
               (Fixtures.accounts_run
                  [ Fixtures.test "Accounts" "Open account" "passed" 2000 None;
                    Fixtures.test "Accounts" "Close account" "pending" 0 None ])
               Fixtures.accounts_path)
            fh.2 {| scenario_keyword := "Scenario"; scenario_name := "Open account";
                    steps := [0; 1]%nat |})
         [0; 1]%nat)
    <$> Parser.parseFeatureFile Fixtures.accounts_feature Fixtures.accounts_path
  = Some [ ("I am logged in via API", passed, Some (JSNumber.of_Z 1000000000));
           ("I open an account", passed, Some (JSNumber.of_Z 1000000000)) ].
Proof. vm_compute. reflexivity. Qed.
End CorrelatorExamples.

Section ScreenshotExamples.
Local Open Scope string_scope.

Example ex_testName_cleaned :
  ReportHtmlGenerator.testNameOf "login_test_failed.png" = "Login Test".
Proof. vm_compute. reflexivity. Qed.

Example ex_testName_old :
  ReportHtmlGenerator.testNameOf "UI Login -- Login with valid credentials (failed).png"
  = "Login with valid credentials".
Proof. vm_compute. reflexivity. Qed.

Example ex_testName_plain :
  ReportHtmlGenerator.testNameOf "my_shot.png" = "my shot".
Proof. vm_compute. reflexivity. Qed.
End ScreenshotExamples.

(* ===================================================================== *)
(** * Facts about numbers *)
(* ===================================================================== *)

Module NumberFacts.

Lemma div_eucl_mul (a : Z) (b : positive) : Z.div_eucl (a * Zpos b) (Zpos b) = (a, 0).
Proof.
  pose proof (Z.div_mul a (Zpos b) ltac:(lia)) as Hd.
  pose proof (Z.mod_mul a (Zpos b) ltac:(lia)) as Hm.
  unfold Z.div, Z.modulo in *.
  destruct (Z.div_eucl (a * Zpos b) (Zpos b)) as [q r]. simpl in *. congruence.
Qed.

(** Division by one is exact: [x / 1 = x] for every binary64 value. *)
Lemma div_one (x : number) :
  JSNumber.valid x = true -> JSNumber.div x (JSNumber.of_nat 1) = x.
Proof.
  change (JSNumber.of_nat 1) with (S754_finite false 4503599627370496 (-52)).
  unfold JSNumber.valid, JSNumber.div, JSNumber.prec, JSNumber.emax.
  destruct x as [s|s| |s m e]; intros Hv; simpl; rewrite ?xorb_false_r; try reflexivity.
  simpl in Hv. unfold bounded, canonical_mantissa in Hv.
  apply andb_prop in Hv as [Hc Hb]. apply Z.eqb_eq in Hc. apply Z.leb_le in Hb.
  unfold SFdiv_core_binary.
  change (Zdigits2 (Z.pos 4503599627370496)) with 53.
  change (Zdigits2 (Z.pos m)) with (Z.pos (digits2_pos m)).
  set (d := Z.pos (digits2_pos m)) in *.
  unfold fexp, emin in *.
  change (3 - 1024 - 53) with (-1074) in *.
  destruct (Z_lt_le_dec (d + e - 54) (-1074)) as [Hsub|Hnorm].
  - (* the smallest exponent: the quotient needs no shift *)
    assert (He : e = -1074) by lia.
    replace (Z.min (Z.max (d + e - (53 + -52) - 53) (-1074)) (e - -52)) with e by lia.
    replace (e - -52 - e) with 52 by lia.
    rewrite Z.shiftl_mul_pow2 by lia.
    change (2 ^ 52) with (Z.pos 4503599627370496).
    rewrite div_eucl_mul.
    change (new_location (Z.pos 4503599627370496) 0) with loc_Exact.
    unfold binary_round_aux, shr_fexp, fexp, emin.
    change (3 - 1024 - 53) with (-1074).
    change (Zdigits2 (Z.pos m)) with d.
    replace (Z.max (d + e - 53) (-1074) - e) with 0 by lia.
    cbn [shr shr_record_of_loc loc_of_shr_record shr_m round_nearest_even].
    change (Zdigits2 (Z.pos m)) with d.
    replace (Z.max (d + e - 53) (-1074) - e) with 0 by lia.
    cbn [shr shr_record_of_loc shr_m].
    replace (e <=? 1024 - 53) with true by (symmetry; apply Z.leb_le; lia).
    reflexivity.
  - (* a full mantissa: the quotient has one more bit, shifted out again *)
    assert (Hd : d = 53) by lia.
    replace (Z.min (Z.max (d + e - (53 + -52) - 53) (-1074)) (e - -52)) with (e - 1) by lia.
    replace (e - -52 - (e - 1)) with 53 by lia.
    rewrite Z.shiftl_mul_pow2 by lia.
    change (2 ^ 53) with (2 * Z.pos 4503599627370496).
    rewrite Z.mul_assoc, div_eucl_mul.
    change (new_location (Z.pos 4503599627370496) 0) with loc_Exact.
    replace (Z.pos m * 2) with (Z.pos m~0) by lia.
    unfold binary_round_aux, shr_fexp, fexp, emin.
    change (3 - 1024 - 53) with (-1074).
    change (Zdigits2 (Z.pos m~0)) with (Z.pos (Pos.succ (digits2_pos m))).
    rewrite Pos2Z.inj_succ. fold d.
    replace (Z.max (Z.succ d + (e - 1) - 53) (-1074) - (e - 1)) with 1 by lia.
    cbn [shr shr_record_of_loc loc_of_shr_record shr_m round_nearest_even SpecFloat.iter_pos shr_1 orb].
    change (Zdigits2 (Z.pos m)) with d.
    replace (e - 1 + 1) with e by lia.
    replace (Z.max (d + e - 53) (-1074) - e) with 0 by lia.
    cbn [shr shr_record_of_loc shr_m].
    replace (e <=? 1024 - 53) with true by (symmetry; apply Z.leb_le; lia).
    reflexivity.
Qed.

End NumberFacts.

(* ===================================================================== *)
(** * Integers below 2^53 are added, divided and rounded without error *)
(* ===================================================================== *)

Module NumberExact.
Import JSNumber.
Local Open Scope Z_scope.

(** The number of binary digits of a positive integer. *)
Lemma digits2_bounds (v : positive) :
  2 ^ (Z.pos (digits2_pos v) - 1) <= Z.pos v < 2 ^ Z.pos (digits2_pos v).
Proof.
  induction v as [v IH|v IH|]; cbn [digits2_pos]; rewrite ?Pos2Z.inj_succ.
  - replace (Z.succ (Z.pos (digits2_pos v)) - 1) with (Z.succ (Z.pos (digits2_pos v) - 1)) by lia.
    rewrite !Z.pow_succ_r by lia. lia.
  - replace (Z.succ (Z.pos (digits2_pos v)) - 1) with (Z.succ (Z.pos (digits2_pos v) - 1)) by lia.
    rewrite !Z.pow_succ_r by lia. lia.
  - simpl. lia.
Qed.

Lemma digits2_le (v : positive) (n : Z) :
  0 <= n -> Z.pos v < 2 ^ n -> Z.pos (digits2_pos v) <= n.
Proof.
  intros Hn Hv. pose proof (digits2_bounds v) as [Hlo _].
  destruct (Z_le_gt_dec (Z.pos (digits2_pos v)) n) as [|Hgt]; [done|].
  assert (2 ^ n <= 2 ^ (Z.pos (digits2_pos v) - 1)) by (apply Z.pow_le_mono_r; lia).
  lia.
Qed.

Lemma digits2_shift (v w : positive) (k : Z) :
  0 <= k -> Z.pos w = Z.pos v * 2 ^ k ->
  Z.pos (digits2_pos w) = Z.pos (digits2_pos v) + k.
Proof.
  intros Hk. revert w. pattern k. apply natlike_ind; [| |done].
  - intros w Hw. rewrite Z.pow_0_r, Z.mul_1_r in Hw. injection Hw as ->. lia.
  - intros j Hj IH w Hw. rewrite Z.pow_succ_r in Hw by done.
    destruct w as [w|w|]; [lia| |lia].
    cbn [digits2_pos]. rewrite Pos2Z.inj_succ, (IH w); [lia|]. lia.
Qed.

Lemma iter_pos_nat {A : Type} (f : A -> A) (p : positive) (x : A) :
  SpecFloat.iter_pos f p x = Nat.iter (Pos.to_nat p) f x.
Proof.
  revert x. induction p as [p IH|p IH|]; intros x; cbn [SpecFloat.iter_pos].
  - rewrite !IH, Pos2Nat.inj_xI. rewrite <- Nat.iter_add.
    replace (S (2 * Pos.to_nat p))%nat with (Pos.to_nat p + Pos.to_nat p + 1)%nat by lia.
    rewrite (Nat.iter_add (Pos.to_nat p + Pos.to_nat p) 1). done.
  - rewrite !IH, Pos2Nat.inj_xO, <- Nat.iter_add. f_equal. lia.
  - done.
Qed.

(** Shifting out binary zeros loses nothing. *)
Lemma shr_exact (n : nat) (m : Z) :
  Nat.iter n shr_1 (Build_shr_record (m * 2 ^ Z.of_nat n) false false)
  = Build_shr_record m false false.
Proof.
  induction n as [|n IH]; [by rewrite Z.mul_1_r|].
  rewrite Nat.iter_succ_r, Nat2Z.inj_succ, Z.pow_succ_r by lia.
  replace (m * (2 * 2 ^ Z.of_nat n)) with (2 * (m * 2 ^ Z.of_nat n)) by lia.
  assert (H1 : forall x, shr_1 (Build_shr_record (2 * x) false false)
                         = Build_shr_record x false false)
    by (intros [|w|w]; reflexivity).
  by rewrite H1.
Qed.

(** Rounding a mantissa [v * 2^k] that has at least 53 digits, of which at
    most 53 are significant, gives the normal form of the same value. *)
Lemma round_aux_exact (s : bool) (v w : positive) (k e : Z) :
  Z.pos (digits2_pos v) <= 53 ->
  53 - Z.pos (digits2_pos v) <= k ->
  Z.pos w = Z.pos v * 2 ^ k ->
  -1074 <= e + k - (53 - Z.pos (digits2_pos v)) <= 971 ->
  binary_round_aux prec emax s (Z.pos w) e loc_Exact
  = S754_finite s (Z.to_pos (Z.pos v * 2 ^ (53 - Z.pos (digits2_pos v))))
      (e + k - (53 - Z.pos (digits2_pos v))).
Proof.
  intros Hd Hk Hw He. set (d := Z.pos (digits2_pos v)) in *.
  assert (Hdw : Z.pos (digits2_pos w) = d + k) by (apply digits2_shift; [lia|done]).
  set (M := Z.to_pos (Z.pos v * 2 ^ (53 - d))).
  assert (HM : Z.pos M = Z.pos v * 2 ^ (53 - d)).
  { unfold M. rewrite Z2Pos.id; [done|].
    apply Z.mul_pos_pos; [lia|]. apply Z.pow_pos_nonneg; lia. }
  assert (HdM : Z.pos (digits2_pos M) = 53).
  { rewrite (digits2_shift v M (53 - d)); [lia|lia|done]. }
  assert (Hshift : shr (Build_shr_record (Z.pos w) false false) e (d + k - 53)
                   = (Build_shr_record (Z.pos M) false false, e + k - (53 - d))).
  { unfold shr. destruct (d + k - 53) as [|p|p] eqn:Hn; [| |lia].
    - assert (k = 53 - d) by lia. subst k. rewrite Hw, HM. f_equal. lia.
    - rewrite iter_pos_nat.
      assert (Hwm : Z.pos w = Z.pos M * 2 ^ Z.of_nat (Pos.to_nat p)).
      { rewrite positive_nat_Z, Hw, HM, <- Z.mul_assoc, <- Z.pow_add_r by lia.
        do 2 f_equal. lia. }
      rewrite Hwm, shr_exact. f_equal. lia. }
  unfold binary_round_aux, shr_fexp, fexp, emin, prec, emax.
  change (3 - 1024 - 53) with (-1074).
  cbn [Zdigits2 shr_record_of_loc]. rewrite Hdw.
  replace (Z.max (d + k + e - 53) (-1074) - e) with (d + k - 53) by lia.
  rewrite Hshift. cbn [loc_of_shr_record shr_m round_nearest_even Zdigits2 shr_record_of_loc].
  rewrite HdM.
  replace (Z.max (53 + (e + k - (53 - d)) - 53) (-1074) - (e + k - (53 - d))) with 0 by lia.
  cbn [shr shr_m].
  replace (e + k - (53 - d) <=? 1024 - 53) with true by (symmetry; apply Z.leb_le; lia).
  reflexivity.
Qed.

Lemma iter_xO (w p : positive) : Z.pos (Pos.iter xO w p) = Z.pos w * 2 ^ Z.pos p.
Proof.
  induction p as [|p IH] using Pos.peano_ind.
  - simpl. lia.
  - rewrite Pos.iter_succ, Pos2Z.inj_xO, IH, Pos2Z.inj_succ, Z.pow_succ_r by lia. lia.
Qed.

(** The same for a mantissa of any length. *)
Lemma round_exact (s : bool) (v w : positive) (k e : Z) :
  Z.pos (digits2_pos v) <= 53 ->
  0 <= k ->
  Z.pos w = Z.pos v * 2 ^ k ->
  -1074 <= e + k - (53 - Z.pos (digits2_pos v)) <= 971 ->
  binary_round prec emax s w e
  = S754_finite s (Z.to_pos (Z.pos v * 2 ^ (53 - Z.pos (digits2_pos v))))
      (e + k - (53 - Z.pos (digits2_pos v))).
Proof.
  intros Hd Hk Hw He. set (d := Z.pos (digits2_pos v)) in *.
  assert (Hdw : Z.pos (digits2_pos w) = d + k) by (apply digits2_shift; [lia|done]).
  unfold binary_round, shl_align, fexp, emin, prec, emax.
  change (3 - 1024 - 53) with (-1074). rewrite Hdw.
  replace (Z.max (d + k + e - 53) (-1074) - e) with (d + k - 53) by lia.
  replace (Z.max (d + k + e - 53) (-1074)) with (d + k + e - 53) by lia.
  destruct (d + k - 53) as [|p|p] eqn:Hn.
  - apply (round_aux_exact s v w k e); solve [done|lia].
  - apply (round_aux_exact s v w k e); solve [done|lia].
  - replace (e + k - (53 - d)) with ((d + k + e - 53) + (53 - d) - (53 - d)) by lia.
    apply (round_aux_exact s v (Pos.iter xO w p) (53 - d) (d + k + e - 53));
      [done|lia| |lia].
    rewrite iter_xO, Hw, <- Z.mul_assoc, <- Z.pow_add_r by lia.
    do 2 f_equal. lia.
Qed.

(** The representation of a positive integer below 2^53. *)
Lemma of_Z_pos (v : positive) :
  Z.pos v < 2 ^ 53 ->
  of_Z (Z.pos v)
  = S754_finite false (Z.to_pos (Z.pos v * 2 ^ (53 - Z.pos (digits2_pos v))))
      (Z.pos (digits2_pos v) - 53).
Proof.
  intros Hv. pose proof (digits2_le v 53 ltac:(lia) Hv) as Hd.
  unfold of_Z, binary_normalize.
  rewrite (round_exact false v v 0 0); [f_equal; lia|done|lia|lia|lia].
Qed.

Lemma mantissa_pos (v : positive) (k : Z) :
  0 <= k -> Z.pos (Z.to_pos (Z.pos v * 2 ^ k)) = Z.pos v * 2 ^ k.
Proof.
  intros Hk. rewrite Z2Pos.id; [done|].
  apply Z.mul_pos_pos; [lia|]. apply Z.pow_pos_nonneg; lia.
Qed.

(** Aligning a normal form to a smaller exponent. *)
Lemma shl_align_exact (v : positive) (ez : Z) :
  Z.pos (digits2_pos v) <= 53 ->
  ez <= Z.pos (digits2_pos v) - 53 ->
  Z.pos (fst (shl_align (Z.to_pos (Z.pos v * 2 ^ (53 - Z.pos (digits2_pos v))))
                (Z.pos (digits2_pos v) - 53) ez))
  = Z.pos v * 2 ^ (- ez).
Proof.
  intros Hd He. set (d := Z.pos (digits2_pos v)) in *.
  unfold shl_align. destruct (ez - (d - 53)) as [|p|p] eqn:Hn; [|lia|]; cbn [fst].
  - rewrite mantissa_pos by lia. do 2 f_equal. lia.
  - rewrite iter_xO, mantissa_pos, <- Z.mul_assoc, <- Z.pow_add_r by lia.
    do 2 f_equal. lia.
Qed.

(** Integers are added without error as long as the sum is below 2^53. *)
Lemma add_exact_pos (a b : positive) :
  Z.pos a + Z.pos b < 2 ^ 53 ->
  add (of_Z (Z.pos a)) (of_Z (Z.pos b)) = of_Z (Z.pos a + Z.pos b).
Proof.
  intros Hsum.
  pose proof (digits2_le a 53 ltac:(lia) ltac:(lia)) as Hda.
  pose proof (digits2_le b 53 ltac:(lia) ltac:(lia)) as Hdb.
  change (Z.pos a + Z.pos b) with (Z.pos (a + b)) in *.
  pose proof (digits2_le (a + b) 53 ltac:(lia) Hsum) as Hdc.
  rewrite (of_Z_pos a), (of_Z_pos b), (of_Z_pos (a + b)) by lia.
  unfold add, SFadd. cbv zeta. cbn [cond_Zopp].
  set (ez := Z.min (Z.pos (digits2_pos a) - 53) (Z.pos (digits2_pos b) - 53)).
  rewrite !shl_align_exact by lia.
  rewrite <- Z.mul_add_distr_r. change (Z.pos a + Z.pos b) with (Z.pos (a + b)).
  rewrite <- (mantissa_pos (a + b) (- ez)) by lia.
  unfold binary_normalize.
  rewrite (round_exact false (a + b) _ (- ez) ez); [f_equal; lia|done|lia| |lia].
  by rewrite mantissa_pos by lia.
Qed.

Lemma add_exact (a b : Z) :
  0 <= a -> 0 <= b -> a + b < 2 ^ 53 ->
  add (of_Z a) (of_Z b) = of_Z (a + b).
Proof.
  intros Ha Hb Hsum. destruct a as [|a|a]; [|destruct b as [|b|b]|]; try lia.
  - destruct b as [|b|b]; [reflexivity| |lia]. rewrite Z.add_0_l.
    rewrite of_Z_pos by lia. reflexivity.
  - rewrite Z.add_0_r, of_Z_pos by lia. reflexivity.
  - by apply add_exact_pos.
Qed.

(** A multiple of [c] divided by [c]. *)
Lemma div_exact_pos (n c : positive) :
  Z.pos n * Z.pos c < 2 ^ 53 ->
  div (of_Z (Z.pos n * Z.pos c)) (of_Z (Z.pos c)) = of_Z (Z.pos n).
Proof.
  intros Hprod.
  change (Z.pos n * Z.pos c) with (Z.pos (n * c)) in *.
  assert (Hn : Z.pos n < 2 ^ 53) by nia.
  assert (Hc : Z.pos c < 2 ^ 53) by nia.
  pose proof (digits2_le n 53 ltac:(lia) Hn) as Hdn.
  pose proof (digits2_le c 53 ltac:(lia) Hc) as Hdc.
  pose proof (digits2_le (n * c) 53 ltac:(lia) Hprod) as Hdx.
  pose proof (digits2_bounds n) as [Hn1 Hn2].
  pose proof (digits2_bounds c) as [Hc1 Hc2].
  pose proof (digits2_bounds (n * c)) as [Hx1 Hx2].
  set (dn := Z.pos (digits2_pos n)) in *.
  set (dc := Z.pos (digits2_pos c)) in *.
  set (dx := Z.pos (digits2_pos (n * c))) in *.
  assert (Hle : dc <= dx).
  { destruct (Z_le_gt_dec dc dx) as [|Hgt]; [done|].
    assert (2 ^ dx <= 2 ^ (dc - 1)) by (apply Z.pow_le_mono_r; lia). nia. }
  assert (Hsum : dx <= dn + dc).
  { destruct (Z_le_gt_dec dx (dn + dc)) as [|Hgt]; [done|].
    assert (2 ^ (dn + dc) <= 2 ^ (dx - 1)) by (apply Z.pow_le_mono_r; lia).
    rewrite Z.pow_add_r in * by lia. nia. }
  rewrite (of_Z_pos (n * c)), (of_Z_pos c), (of_Z_pos n) by lia.
  fold dn dc dx.
  unfold div, SFdiv, SFdiv_core_binary. cbn [xorb].
  set (mx := Z.to_pos (Z.pos (n * c) * 2 ^ (53 - dx))).
  set (my := Z.to_pos (Z.pos c * 2 ^ (53 - dc))).
  assert (Hmx : Z.pos mx = Z.pos (n * c) * 2 ^ (53 - dx)) by (apply mantissa_pos; lia).
  assert (Hmy : Z.pos my = Z.pos c * 2 ^ (53 - dc)) by (apply mantissa_pos; lia).
  cbn [Zdigits2].
  rewrite (digits2_shift (n * c) mx (53 - dx)), (digits2_shift c my (53 - dc)) by (lia || done).
  fold dx dc. unfold fexp, emin, prec, emax. change (3 - 1024 - 53) with (-1074).
  replace (Z.min (Z.max (dx + (53 - dx) + (dx - 53) - (dc + (53 - dc) + (dc - 53)) - 53) (-1074))
             (dx - 53 - (dc - 53))) with (dx - dc - 53) by lia.
  replace (dx - 53 - (dc - 53) - (dx - dc - 53)) with 53 by lia.
  rewrite Z.shiftl_mul_pow2 by lia.
  assert (Hq : Z.pos mx * 2 ^ 53 = (Z.pos n * 2 ^ (53 - dx + dc)) * Z.pos my).
  { rewrite Hmx, Hmy, Pos2Z.inj_mul.
    replace (53 - dx + dc) with ((53 - dx) + 53 - (53 - dc)) by lia.
    assert (E : 2 ^ (53 - dx) * 2 ^ 53 = 2 ^ (53 - dx + 53 - (53 - dc)) * 2 ^ (53 - dc)).
    { rewrite <- !Z.pow_add_r by lia. f_equal. lia. }
    nia. }
  rewrite Hq, NumberFacts.div_eucl_mul.
  assert (Hloc : new_location (Z.pos my) 0 = loc_Exact).
  { unfold new_location, new_location_even, new_location_odd.
    by destruct (Z.even (Z.pos my)). }
  rewrite Hloc.
  rewrite <- (mantissa_pos n (53 - dx + dc)) by lia.
  rewrite (round_aux_exact false n _ (53 - dx + dc) (dx - dc - 53));
    [fold dn; f_equal; lia|fold dn; lia|fold dn; lia| |fold dn; lia].
  by rewrite mantissa_pos by lia.
Qed.

Lemma div_exact (n c : Z) :
  0 <= n -> 0 < c < 2 ^ 53 -> n * c < 2 ^ 53 ->
  div (of_Z (n * c)) (of_Z c) = of_Z n.
Proof.
  intros Hn [Hc Hc'] Hprod. destruct c as [|c|c]; try lia.
  destruct n as [|n|n]; try lia.
  - rewrite Z.mul_0_l, (of_Z_pos c) by done. reflexivity.
  - by apply div_exact_pos.
Qed.

(** [Math.round] leaves an integer as it is. *)
Lemma Math_round_of_Z (n : Z) :
  0 <= n < 2 ^ 53 -> Math_round (of_Z n) = of_Z n.
Proof.
  intros [Hn Hlt]. destruct n as [|n|n]; [reflexivity| |lia].
  pose proof (digits2_le n 53 ltac:(lia) Hlt) as Hd.
  rewrite (of_Z_pos n) at 1 by done. set (d := Z.pos (digits2_pos n)) in *.
  unfold Math_round. cbv zeta.
  destruct (Z.leb_spec 0 (d - 53)) as [H0|Hneg].
  - by rewrite (of_Z_pos n) by done.
  - rewrite mantissa_pos by lia.
    replace (- (d - 53)) with (53 - d) by lia.
    replace (1 - (d - 53)) with (Z.succ (53 - d)) by lia.
    rewrite Z.pow_succ_r by lia.
    replace (2 * (Z.pos n * 2 ^ (53 - d)) + 2 ^ (53 - d))
      with ((2 * Z.pos n + 1) * 2 ^ (53 - d)) by lia.
    assert (Hp : 0 < 2 ^ (53 - d)) by (apply Z.pow_pos_nonneg; lia).
    rewrite Z.div_mul_cancel_r by lia.
    replace ((2 * Z.pos n + 1) / 2) with (Z.pos n)
      by (apply Z.div_unique with (r := 1); lia).
    reflexivity.
Qed.

End NumberExact.

(* ===================================================================== *)
(** * Facts about the correlator *)
(* ===================================================================== *)

Module CorrelatorFacts.
Import Correlator Spec.

(** ** Iteration over references *)

Section ForEach.
Variable body : ref -> nat -> heap -> heap.

(** The callback writes through its own reference only. *)
Hypothesis body_other :
  forall r r' i (h : heap), r' ≠ r -> body r' i h !! r = h !! r.

Lemma forEachFrom_other (refs : list ref) (i : nat) (h : heap) (r : ref) :
  r ∉ refs -> forEachFrom body i refs h !! r = h !! r.
Proof.
  revert i h. induction refs as [|a refs IH]; intros i h Hr; simpl; [done|].
  apply not_elem_of_cons in Hr as [Hne Hr].
  rewrite IH by done. by apply body_other.
Qed.

(** What the callback leaves in an object depends on that object only. *)
Hypothesis body_local :
  forall r r' i (h1 h2 : heap), h1 !! r = h2 !! r -> body r' i h1 !! r = body r' i h2 !! r.

Lemma forEachFrom_local (refs : list ref) (i : nat) (h1 h2 : heap) (r : ref) :
  h1 !! r = h2 !! r ->
  forEachFrom body i refs h1 !! r = forEachFrom body i refs h2 !! r.
Proof.
  revert i h1 h2. induction refs as [|a refs IH]; intros i h1 h2 Hr; simpl; [done|].
  apply IH. by apply body_local.
Qed.

(** With pairwise distinct references, the object at position [j] is
    written once, by the call with index [i + j]. *)
Lemma forEachFrom_at (refs : list ref) (i j : nat) (h : heap) (r : ref) :
  NoDup refs -> refs !! j = Some r ->
  forEachFrom body i refs h !! r = body r (i + j)%nat (forEachFrom body i (take j refs) h) !! r.
Proof.
  revert i j h. induction refs as [|a refs IH]; intros i j h Hnd Hj; [done|].
  apply NoDup_cons in Hnd as [Ha Hnd]. destruct j as [|j]; simpl in *.
  - injection Hj as ->. rewrite forEachFrom_other by done.
    by rewrite Nat.add_0_r.
  - rewrite (IH (S i) j) by done. by rewrite Nat.add_succ_r.
Qed.
End ForEach.

(** A callback that overwrites status and duration, whatever the index. *)
Lemma forEachFrom_alter_all (g : CucumberStep -> CucumberStep)
    (refs : list ref) (i : nat) (h : heap) (r : ref) :
  (forall s, g (g s) = g s) ->
  r ∈ refs ->
  forEachFrom (fun r _ => alter g r) i refs h !! r = g <$> h !! r.
Proof.
  intros Hg. revert i h. induction refs as [|a refs IH]; intros i h Hr; [set_solver|].
  simpl. destruct (decide (r ∈ refs)) as [Hin|Hnin].
  - rewrite IH by done. destruct (decide (a = r)) as [->|Hne].
    + rewrite list_lookup_alter_eq. destruct (h !! r); simpl; by rewrite ?Hg.
    + by rewrite list_lookup_alter_ne.
  - rewrite forEachFrom_other; [|intros; by apply list_lookup_alter_ne|done].
    apply elem_of_cons in Hr as [->|Hr]; [|done]. apply list_lookup_alter_eq.
Qed.

(** ** The failed branch, step by step *)

Lemma markAround_eq fi d n e r index (h : heap) :
  markAround fi d n e r index h !! r = markedStep fi d n e index <$> h !! r.
Proof.
  unfold markAround, markedStep.
  destruct (Z.of_nat index <? fi)%Z; [apply list_lookup_alter_eq|].
  destruct (Z.of_nat index =? fi)%Z; [|apply list_lookup_alter_eq].
  destruct e as [msg|]; [destruct (JSString.truthy msg)|];
    rewrite ?list_lookup_alter_eq; destruct (h !! r); done.
Qed.

Lemma markAround_other fi d n e r r' index (h : heap) :
  r' ≠ r -> markAround fi d n e r' index h !! r = h !! r.
Proof.
  intros Hne. unfold markAround.
  destruct (Z.of_nat index <? fi)%Z; [by apply list_lookup_alter_ne|].
  destruct (Z.of_nat index =? fi)%Z; [|by apply list_lookup_alter_ne].
  destruct e as [msg|]; [destruct (JSString.truthy msg)|];
    by rewrite ?list_lookup_alter_ne.
Qed.

Lemma alter_local (g : CucumberStep -> CucumberStep) (r r' : ref) (h1 h2 : heap) :
  h1 !! r = h2 !! r -> alter g r' h1 !! r = alter g r' h2 !! r.
Proof.
  intros Hr. destruct (decide (r' = r)) as [->|Hne].
  - by rewrite !list_lookup_alter_eq, Hr.
  - by rewrite !list_lookup_alter_ne.
Qed.

Lemma markAround_local fi d n e r r' index (h1 h2 : heap) :
  h1 !! r = h2 !! r -> markAround fi d n e r' index h1 !! r = markAround fi d n e r' index h2 !! r.
Proof.
  intros Hr. destruct (decide (r' = r)) as [->|Hne].
  - by rewrite !markAround_eq, Hr.
  - by rewrite !markAround_other.
Qed.

Lemma markAroundUndefined_eq fi r index (h : heap) :
  markAroundUndefined fi r index h !! r
  = CorrelatorSpec.markedStepUndefined fi index <$> h !! r.
Proof.
  unfold markAroundUndefined, CorrelatorSpec.markedStepUndefined.
  destruct (Z.of_nat index <? fi)%Z; [apply list_lookup_alter_eq|].
  destruct (Z.of_nat index =? fi)%Z; apply list_lookup_alter_eq.
Qed.

Lemma markAroundUndefined_other fi r r' index (h : heap) :
  r' ≠ r -> markAroundUndefined fi r' index h !! r = h !! r.
Proof.
  intros Hne. unfold markAroundUndefined.
  destruct (Z.of_nat index <? fi)%Z; [by apply list_lookup_alter_ne|].
  destruct (Z.of_nat index =? fi)%Z; by apply list_lookup_alter_ne.
Qed.

Lemma markAroundUndefined_local fi r r' index (h1 h2 : heap) :
  h1 !! r = h2 !! r ->
  markAroundUndefined fi r' index h1 !! r = markAroundUndefined fi r' index h2 !! r.
Proof.
  intros Hr. destruct (decide (r' = r)) as [->|Hne].
  - by rewrite !markAroundUndefined_eq, Hr.
  - by rewrite !markAroundUndefined_other.
Qed.

(** ** Looking a scenario name up *)

Lemma lookupResult_record testResults (n : string) (res : TestResult) :
  testResults !! n = Some res -> lookupResult testResults n = FoundRecord res.
Proof. intros H. unfold lookupResult. by rewrite H. Qed.

Lemma lookupResult_plainMiss testResults (n : string) :
  CorrelatorSpec.plainMiss testResults n -> lookupResult testResults n = FoundNothing.
Proof. intros (H1 & H2 & H3). unfold lookupResult. by rewrite H1, H2, H3. Qed.

Lemma lookupResult_inherited testResults (n : string) :
  testResults !! n = None -> JSObject.inherited n = true ->
  lookupResult testResults n = FoundOther.
Proof. intros H1 H2. unfold lookupResult. by rewrite H1, H2. Qed.

(** ** One scenario *)

(** The scenario writes to its own step objects only. *)
Lemma mergeScenario_other testResults (h : heap) sc (r : ref) :
  r ∉ steps sc -> mergeScenario testResults h sc !! r = h !! r.
Proof.
  intros Hr. unfold mergeScenario.
  destruct (lookupResult testResults (scenario_name sc)) as [res| |]; [| |done].
  - destruct (tr_status res); unfold forEach; apply forEachFrom_other; try done;
      intros; first [by apply list_lookup_alter_ne | by apply markAround_other].
  - unfold forEach; apply forEachFrom_other; [|done].
    intros; by apply markAroundUndefined_other.
Qed.

(** What it leaves in a step object depends on that object only. *)
Lemma mergeScenario_local testResults (h1 h2 : heap) sc (r : ref) :
  h1 !! r = h2 !! r ->
  mergeScenario testResults h1 sc !! r = mergeScenario testResults h2 sc !! r.
Proof.
  intros Hr. unfold mergeScenario.
  destruct (lookupResult testResults (scenario_name sc)) as [res| |]; [| |done].
  - destruct (tr_status res); unfold forEach; apply forEachFrom_local; try done;
      intros; first [by apply alter_local | by apply markAround_local].
  - unfold forEach; apply forEachFrom_local; [|done].
    intros; by apply markAroundUndefined_local.
Qed.

Lemma mergeScenario_passed testResults (h : heap) sc res (r : ref) :
  testResults !! scenario_name sc = Some res ->
  tr_status res = passed ->
  r ∈ steps sc ->
  mergeScenario testResults h sc !! r
  = setStatusDuration passed
      (JSNumber.div (tr_duration res) (JSNumber.of_nat (length (steps sc)))) <$> h !! r.
Proof.
  intros Hres Hst Hr. unfold mergeScenario. rewrite (lookupResult_record _ _ _ Hres), Hst.
  unfold forEach. by apply forEachFrom_alter_all.
Qed.

Lemma mergeScenario_skipped testResults (h : heap) sc res (r : ref) :
  testResults !! scenario_name sc = Some res ->
  tr_status res = skipped ->
  r ∈ steps sc ->
  mergeScenario testResults h sc !! r
  = setStatusDuration skipped (JSNumber.of_Z 0) <$> h !! r.
Proof.
  intros Hres Hst Hr. unfold mergeScenario. rewrite (lookupResult_record _ _ _ Hres), Hst.
  unfold forEach. by apply forEachFrom_alter_all.
Qed.

Lemma mergeScenario_failed testResults (h : heap) sc res (j : nat) (r : ref) :
  testResults !! scenario_name sc = Some res ->
  tr_status res = failed ->
  NoDup (steps sc) ->
  steps sc !! j = Some r ->
  mergeScenario testResults h sc !! r
  = markedStep (detectFailedStepFromError (tr_error_message res) (steps sc))
      (tr_duration res) (length (steps sc)) (tr_error_message res) j <$> h !! r.
Proof.
  intros Hres Hst Hnd Hj. unfold mergeScenario. rewrite (lookupResult_record _ _ _ Hres), Hst. unfold forEach.
  rewrite (forEachFrom_at _ (fun r r' i h => markAround_other _ _ _ _ r r' i h) _ 0%nat j) by done.
  rewrite markAround_eq. simpl. f_equal.
  apply forEachFrom_other; [intros; by apply markAround_other|].
  intros Hin. apply list_elem_of_lookup in Hin as [k Hk].
  apply lookup_take_Some in Hk as [Hk Hlt].
  pose proof (NoDup_lookup _ _ _ _ Hnd Hk Hj). lia.
Qed.

(** ** The whole feature *)

Lemma mergeScenarios_other testResults (scs : list CucumberScenario) (h : heap) (r : ref) :
  (forall sc, sc ∈ scs -> r ∉ steps sc) ->
  fold_left (mergeScenario testResults) scs h !! r = h !! r.
Proof.
  revert h. induction scs as [|sc scs IH]; intros h Hr; simpl; [done|].
  rewrite IH by (intros sc' Hsc'; apply Hr; by apply list_elem_of_further).
  apply mergeScenario_other, Hr. apply list_elem_of_here.
Qed.

(** A step object that no other scenario of the feature holds ends as
    its own scenario leaves it. *)
Lemma merge_unshared (f : CucumberFeature) (h : heap) testResults
    (before after : list CucumberScenario) (sc : CucumberScenario) (r : ref) :
  elements f = before ++ sc :: after ->
  (forall sc', sc' ∈ before ++ after -> r ∉ steps sc') ->
  (mergeFeatureWithResults (f, h) testResults).2 !! r = mergeScenario testResults h sc !! r.
Proof.
  intros Hel Hr. unfold mergeFeatureWithResults; simpl. rewrite Hel, fold_left_app; simpl.
  rewrite mergeScenarios_other
    by (intros sc' Hsc'; apply Hr, elem_of_app; by right).
  apply mergeScenario_local, mergeScenarios_other.
  intros sc' Hsc'; apply Hr, elem_of_app; by left.
Qed.

End CorrelatorFacts.

(* ===================================================================== *)
(** * Facts about the parser *)
(* ===================================================================== *)

Module ParserFacts.
Import Parser Lines.
Local Open Scope string_scope.
Local Open Scope list_scope.

Lemma parseLine_classify (st : state) (line : string) :
  parseLine st line =
  match classify line with
  | FeatureLine nm =>
      {| featureName := nm; currentScenario := currentScenario st;
         backgroundSteps := backgroundSteps st; scenarios := scenarios st;
         store := store st |}
  | BackgroundLine =>
      {| featureName := featureName st; currentScenario := currentScenario st;
         backgroundSteps := []; scenarios := scenarios st; store := store st |}
  | ScenarioLine nm =>
      {| featureName := featureName st;
         currentScenario :=
           Some {| scenario_keyword := "Scenario"; scenario_name := nm;
                   steps := backgroundSteps st |};
         backgroundSteps := backgroundSteps st;
         scenarios := pushCurrent st; store := store st |}
  | StepLine kw nm => addStep st kw nm
  | OtherLine => st
  end.
Proof.
  unfold parseLine, classify.
  destruct (JSString.startsWith "Feature:" _); [done|].
  destruct (JSString.startsWith "Background:" _); [done|].
  destruct (JSString.startsWith "Scenario:" _); [done|].
  destruct (bool_decide _); [|done].
  destruct (Regex.exec stepLine _); [|done].
  unfold addStep. by destruct (currentScenario st).
Qed.

(** ** References stay valid, distinct, and point to fresh results *)

Lemma refs_ok_grow (h : heap) (refs : list ref) (s : CucumberStep) :
  refs_ok h refs -> refs_ok (h ++ [s]) refs.
Proof.
  intros [Hnd Hlt]. split; [done|].
  eapply Forall_impl; [exact Hlt|]. intros r Hr. rewrite length_app; simpl in *. lia.
Qed.

Lemma refs_ok_fresh (h : heap) (refs : list ref) (s : CucumberStep) :
  refs_ok h refs -> refs_ok (h ++ [s]) (refs ++ [length h]).
Proof.
  intros [Hnd Hlt]. split.
  - apply NoDup_app. split; [done|]. split; [|apply NoDup_singleton].
    intros r Hr Hr'. apply list_elem_of_singleton in Hr' as ->.
    rewrite Forall_forall in Hlt. specialize (Hlt _ Hr). lia.
  - apply Forall_app. split.
    + eapply Forall_impl; [exact Hlt|]. intros r Hr. rewrite length_app; simpl in *. lia.
    + apply Forall_singleton. rewrite length_app; simpl. lia.
Qed.

Lemma wf_init : wf init.
Proof.
  split; simpl.
  - split; constructor.
  - unfold pushCurrent; simpl. constructor.
  - constructor.
Qed.

Lemma wf_parseLine (st : state) (line : string) : wf st -> wf (parseLine st line).
Proof.
  intros [Hbg Hsc Hst]. rewrite parseLine_classify.
  destruct (classify line) as [nm| |nm|kw nm|].
  - by split.
  - split; simpl; [|done..]. split; constructor.
  - split; simpl; [done| |done]. unfold pushCurrent at 1; simpl.
    apply Forall_app. split; [done|]. by apply Forall_singleton.
  - unfold addStep, pushCurrent in *.
    destruct (currentScenario st) as [sc|]; split; simpl.
    + by apply refs_ok_grow.
    + apply Forall_app in Hsc as [Hs Hc]. rewrite Forall_singleton in Hc. simpl.
      apply Forall_app. split.
      * eapply Forall_impl; [exact Hs|]. intros; by apply refs_ok_grow.
      * apply Forall_singleton. simpl. by apply refs_ok_fresh.
    + apply Forall_app. split; [done|]. by apply Forall_singleton.
    + by apply refs_ok_fresh.
    + eapply Forall_impl; [exact Hsc|]. intros; by apply refs_ok_grow.
    + apply Forall_app. split; [done|]. by apply Forall_singleton.
  - by split.
Qed.

Lemma wf_parseLines (lines : list string) (st : state) : wf st -> wf (parseLines lines st).
Proof.
  revert st. unfold parseLines.
  induction lines as [|l lines IH]; intros st Hwf; simpl; [done|].
  by apply IH, wf_parseLine.
Qed.

(** In a parsed feature, the steps of a scenario are distinct objects of
    the store and carry the placeholder result. *)
Lemma parseFeatureFile_steps content filePath f (h : heap) sc :
  parseFeatureFile content filePath = Some (f, h) ->
  sc ∈ elements f ->
  NoDup (steps sc)
  ∧ forall r, r ∈ steps sc -> exists s, h !! r = Some s ∧ result s = defaultResult.
Proof.
  unfold parseFeatureFile. intros Hp Hsc.
  pose proof (wf_parseLines (JSString.split "010" content) init wf_init) as [_ Hs Hst].
  destruct (JSString.truthy _); [|done]. injection Hp as <- <-. simpl in Hsc.
  rewrite Forall_forall in Hs. destruct (Hs _ Hsc) as [Hnd Hlt].
  split; [done|]. intros r Hr. rewrite Forall_forall in Hlt.
  destruct (lookup_lt_is_Some_2 _ _ (Hlt _ Hr)) as [s Hs'].
  exists s. split; [done|]. rewrite Forall_forall in Hst.
  apply Hst. by eapply list_elem_of_lookup_2.
Qed.

(** ** Reading steps back from the store *)

Lemma readSteps_grow (h : heap) (refs : list ref) (s : CucumberStep) :
  refs_ok h refs -> readSteps (h ++ [s]) refs = readSteps h refs.
Proof.
  intros [_ Hlt]. unfold readSteps.
  induction Hlt as [|r refs Hr Hlt IH]; [done|]. cbn [omap list_omap].
  rewrite IH. by rewrite lookup_app_l.
Qed.

Lemma readSteps_fresh (h : heap) (refs : list ref) (s : CucumberStep) :
  refs_ok h refs -> readSteps (h ++ [s]) (refs ++ [length h]) = readSteps h refs ++ [s].
Proof.
  intros Hok. unfold readSteps. rewrite omap_app.
  fold (readSteps (h ++ [s]) refs). rewrite readSteps_grow by done.
  f_equal. cbn [omap list_omap]. by rewrite list_lookup_middle.
Qed.

Lemma readSteps_length (h : heap) (refs : list ref) :
  refs_ok h refs -> length (readSteps h refs) = length refs.
Proof.
  intros [_ Hlt]. unfold readSteps.
  induction Hlt as [|r refs Hr Hlt IH]; [done|]. cbn [omap list_omap].
  destruct (lookup_lt_is_Some_2 _ _ Hr) as [s ->]. simpl. by rewrite IH.
Qed.

(** ** The lines before the first Scenario line *)

Lemma last_cons_default {A : Type} (a d : A) (l : list A) :
  List.last (a :: l) d = List.last l a.
Proof.
  revert a d. induction l as [|b l IH]; intros a d; [done|].
  change (List.last (a :: b :: l) d) with (List.last (b :: l) d).
  rewrite IH. symmetry. apply IH.
Qed.

Lemma before_first_scenario (lines : list string) (st : state) :
  currentScenario st = None ->
  Forall (fun l => isScenarioLine l = false) lines ->
  refs_ok (store st) (backgroundSteps st) ->
  let st' := parseLines lines st in
  currentScenario st' = None
  ∧ scenarios st' = scenarios st
  ∧ refs_ok (store st') (backgroundSteps st')
  ∧ readSteps (store st') (backgroundSteps st')
    = fold_left collect lines (readSteps (store st) (backgroundSteps st))
  ∧ featureName st' = List.last (featureNames lines) (featureName st).
Proof.
  intros Hcur Hno. revert st Hcur.
  induction Hno as [|line lines Hline Hno IH]; intros st Hcur Hok; cbn zeta.
  - unfold parseLines; simpl. repeat (split; [done|]). done.
  - unfold parseLines in *. cbn [fold_left]. unfold featureNames, collect at 2.
    cbn [omap list_omap]. fold (featureNames lines).
    rewrite parseLine_classify. unfold isScenarioLine in Hline.
    destruct (classify line) as [nm| |nm|kw nm|] eqn:Hc; try done.
    + rewrite last_cons_default.
      by apply (IH {| featureName := nm; currentScenario := currentScenario st;
                      backgroundSteps := backgroundSteps st; scenarios := scenarios st;
                      store := store st |}).
    + apply (IH {| featureName := featureName st;
                   currentScenario := currentScenario st;
                   backgroundSteps := []; scenarios := scenarios st;
                   store := store st |}); [done|].
      split; constructor.
    + unfold addStep. rewrite Hcur.
      specialize (IH {| featureName := featureName st; currentScenario := None;
                        backgroundSteps := backgroundSteps st ++ [length (store st)];
                        scenarios := scenarios st;
                        store := store st ++ [newStep kw nm] |} eq_refl).
      simpl in IH. rewrite readSteps_fresh in IH by done.
      apply IH. by apply refs_ok_fresh.
    + by apply IH.
Qed.

(** ** The lines of a Scenario block *)

Lemma inside_scenario (lines : list string) (st : state) (sc : CucumberScenario) :
  currentScenario st = Some sc ->
  Forall (fun l => isScenarioLine l = false) lines ->
  refs_ok (store st) (steps sc) ->
  let st' := parseLines lines st in
  exists sc',
    currentScenario st' = Some sc'
    ∧ scenario_keyword sc' = scenario_keyword sc
    ∧ scenario_name sc' = scenario_name sc
    ∧ scenarios st' = scenarios st
    ∧ refs_ok (store st') (steps sc')
    ∧ readSteps (store st') (steps sc') = readSteps (store st) (steps sc) ++ stepsOf lines
    ∧ featureName st' = List.last (featureNames lines) (featureName st).
Proof.
  intros Hcur Hno. revert st sc Hcur.
  induction Hno as [|line lines Hline Hno IH]; intros st sc Hcur Hok; cbn zeta.
  - exists sc. unfold stepsOf. simpl. by rewrite app_nil_r.
  - unfold parseLines in *. cbn [fold_left]. unfold featureNames, stepsOf, stepOf.
    cbn [omap list_omap]. fold (featureNames lines).
    rewrite parseLine_classify. unfold isScenarioLine in Hline.
    destruct (classify line) as [nm| |nm|kw nm|] eqn:Hc; try done.
    + rewrite last_cons_default.
      by apply (IH {| featureName := nm; currentScenario := currentScenario st;
                      backgroundSteps := backgroundSteps st; scenarios := scenarios st;
                      store := store st |} sc).
    + by apply (IH {| featureName := featureName st;
                      currentScenario := currentScenario st;
                      backgroundSteps := []; scenarios := scenarios st;
                      store := store st |} sc).
    + unfold addStep. rewrite Hcur.
      destruct (IH {| featureName := featureName st;
                      currentScenario :=
                        Some {| scenario_keyword := scenario_keyword sc;
                                scenario_name := scenario_name sc;
                                steps := steps sc ++ [length (store st)] |};
                      backgroundSteps := backgroundSteps st;
                      scenarios := scenarios st;
                      store := store st ++ [newStep kw nm] |}
                   {| scenario_keyword := scenario_keyword sc;
                      scenario_name := scenario_name sc;
                      steps := steps sc ++ [length (store st)] |} eq_refl)
        as (sc' & H1 & H2 & H3 & H4 & H5 & H6 & H7).
      { simpl. by apply refs_ok_fresh. }
      exists sc'. simpl in *. rewrite readSteps_fresh in H6 by done.
      rewrite <- app_assoc in H6. done.
    + by apply IH.
Qed.

End ParserFacts.

(* ===================================================================== *)
(** * Facts about the regular expressions *)
(* ===================================================================== *)

Module RegexFacts.
Import Regex Lines.
Local Open Scope string_scope.

Lemma substring_0_app (w s : string) :
  String.substring 0 (String.length w) (w ++ s) = w.
Proof.
  induction w as [|c w IH].
  - change ("" ++ s) with s. by destruct s.
  - change (String c w ++ s) with (String c (w ++ s)).
    cbn [String.length String.substring]. by rewrite IH.
Qed.

(** A greedy star over a character class takes the longest run of such
    characters when the rest of the expression matches after it. *)
Lemma star_greedy_class (p : ascii -> bool) (w s : string) (pos : nat)
    (caps : captures) (k : cont) (c : captures) :
  allChars p w = true ->
  startsOutside p s = true ->
  k (pos + String.length w)%nat s caps = Some c ->
  run (Star true (Class p)) pos (w ++ s) caps k = Some c.
Proof.
  revert pos. induction w as [|a w IH]; intros pos Hw Hs Hk.
  - simpl in *. rewrite Nat.add_0_r in Hk.
    destruct s as [|b s]; simpl; [done|].
    simpl in Hs. apply negb_true_iff in Hs. by rewrite Hs.
  - simpl in Hw. apply andb_prop in Hw as [Ha Hw].
    specialize (IH (S pos) Hw Hs).
    replace (S pos + String.length w)%nat
      with (pos + String.length (String a w))%nat in IH by (simpl; lia).
    specialize (IH Hk).
    change (String a w ++ s) with (String a (w ++ s)).
    change (run (Star true (Class p)) pos (String a (w ++ s)) caps k)
      with (match (if p a
                   then if (pos <? S pos)%nat
                        then run (Star true (Class p)) (S pos) (w ++ s) caps k
                        else None
                   else None)
            with Some c0 => Some c0 | None => k pos (String a (w ++ s)) caps end).
    rewrite Ha. replace (pos <? S pos)%nat with true by (symmetry; apply Nat.ltb_lt; lia).
    by rewrite IH.
Qed.

Lemma append_cons (c : ascii) (s t : string) : String c s ++ t = String c (s ++ t).
Proof. reflexivity. Qed.

Lemma append_nil_r (s : string) : s ++ "" = s.
Proof. induction s as [|c s IH]; [done|]. by rewrite append_cons, IH. Qed.

Lemma substring_0_length (s : string) : String.substring 0 (String.length s) s = s.
Proof. induction s as [|c s IH]; simpl; [done|]. by f_equal. Qed.

(** One or more characters of a class, greedily. *)
Lemma plus_greedy_class (p : ascii -> bool) (w s : string) (pos : nat)
    (caps : captures) (k : cont) (c : captures) :
  w <> "" ->
  allChars p w = true ->
  startsOutside p s = true ->
  k (pos + String.length w)%nat s caps = Some c ->
  run (Plus true (Class p)) pos (w ++ s) caps k = Some c.
Proof.
  intros Hne Hw Hs Hk. destruct w as [|a w]; [done|].
  simpl in Hw. apply andb_prop in Hw as [Ha Hw].
  unfold Plus. change (String a w ++ s) with (String a (w ++ s)). cbn [run]. rewrite Ha.
  apply star_greedy_class; [done|done|].
  by replace (S pos + String.length w)%nat
       with (pos + String.length (String a w))%nat by (simpl; lia).
Qed.

(** What follows the keyword in [stepLine]: white space, then the
    remainder up to the end of the line, captured as group 2. *)
Lemma after_keyword (ws rest : string) (pos : nat) (caps : captures) :
  ws <> "" -> allChars JSString.is_space ws = true ->
  rest <> "" -> startsOutside JSString.is_space rest = true ->
  allChars (fun c => negb (JSString.is_line_terminator c)) rest = true ->
  run (Seq (Plus true space) (Seq (Group 2 (Plus true dot)) Eol))
      pos (ws ++ rest) caps (fun _ _ caps => Some caps)
  = Some (<[2%nat := rest]> caps).
Proof.
  intros Hws Hsp Hrest Hout Hdot.
  cbn [run]. apply plus_greedy_class; [done..|].
  cbn [run]. rewrite <- (append_nil_r rest) at 1.
  apply plus_greedy_class; [done|done|done|].
  cbn [run]. do 2 f_equal.
  replace (pos + String.length ws + String.length rest - (pos + String.length ws))%nat
    with (String.length rest) by lia.
  apply substring_0_length.
Qed.

(** The equations of [run] used below. *)
Lemma run_Seq (r1 r2 : regex) (pos : nat) (s : string) (caps : captures) (k : cont) :
  run (Seq r1 r2) pos s caps k
  = run r1 pos s caps (fun pos' s' caps' => run r2 pos' s' caps' k).
Proof. reflexivity. Qed.

Lemma run_Bol (s : string) (caps : captures) (k : cont) :
  run Bol 0 s caps k = k 0%nat s caps.
Proof. reflexivity. Qed.

Lemma run_Group (n : nat) (r : regex) (pos : nat) (s : string) (caps : captures) (k : cont) :
  run (Group n r) pos s caps k
  = run r pos s caps
      (fun pos' s' caps' => k pos' s' (<[n := String.substring 0 (pos' - pos) s]> caps')).
Proof. reflexivity. Qed.

Lemma searchFrom_matchAt (r : regex) (pos : nat) (s : string) (c : captures) :
  matchAt r pos s = Some c -> searchFrom r pos s = Some c.
Proof. intros Hm. destruct s; simpl; by rewrite Hm. Qed.

(** A literal matches itself, and nothing that starts with another
    character. *)
Lemma run_Lit (w t : string) (pos : nat) (caps : captures) (k : cont) :
  run (Lit w) pos (w ++ t) caps k = k (pos + String.length w)%nat t caps.
Proof.
  revert pos. induction w as [|a w IH]; intros pos.
  - change ("" ++ t) with t. cbn [Lit run String.length]. by rewrite Nat.add_0_r.
  - change (String a w ++ t) with (String a (w ++ t)).
    cbn [Lit run String.length]. rewrite Ascii.eqb_refl, IH.
    by replace (S pos + String.length w)%nat with (pos + S (String.length w))%nat by lia.
Qed.

Lemma run_Lit_mismatch (a b : ascii) (w u t : string) (pos : nat)
    (caps : captures) (k : cont) :
  Ascii.eqb a b = false ->
  run (Lit (String a w)) pos (String b u ++ t) caps k = None.
Proof.
  intros Hab. change (String b u ++ t) with (String b (u ++ t)).
  cbn [Lit run]. by rewrite Hab.
Qed.

(** The alternation of the five keywords matches the keyword the text
    starts with. *)
Lemma run_stepKeyword (kw t : string) (pos : nat) (caps : captures) (k : cont)
    (c : captures) :
  kw ∈ stepKeywords ->
  k (pos + String.length kw)%nat t caps = Some c ->
  run Parser.stepKeyword pos (kw ++ t) caps k = Some c.
Proof.
  intros Hkw Hk. unfold stepKeywords in Hkw. unfold Parser.stepKeyword.
  repeat (apply elem_of_cons in Hkw as [->|Hkw]); [..|by apply elem_of_nil in Hkw];
    cbn [run];
    repeat (rewrite run_Lit_mismatch by reflexivity);
    by rewrite run_Lit, Hk.
Qed.

Lemma startsOutside_keyword (kw t : string) :
  kw ∈ stepKeywords -> startsOutside JSString.is_space (kw ++ t) = true.
Proof.
  intros Hkw. unfold stepKeywords in Hkw.
  repeat (apply elem_of_cons in Hkw as [->|Hkw]); [..|by apply elem_of_nil in Hkw];
    reflexivity.
Qed.

(** [stepLine] on the text of a step line: group 1 is the keyword, group 2
    the remainder after the white space. *)
Lemma exec_stepLine (kw ws rest : string) :
  stepText kw ws rest ->
  exec Parser.stepLine (kw ++ ws ++ rest) = Some (<[2%nat := rest]> (<[1%nat := kw]> ∅)).
Proof.
  intros (Hkw & Hws & Hsp & Hrest & Hout & Hdot).
  assert (Hm : matchAt Parser.stepLine 0 (kw ++ ws ++ rest)
               = Some (<[2%nat := rest]> (<[1%nat := kw]> ∅))).
  { unfold matchAt, Parser.stepLine. rewrite run_Seq, run_Bol, run_Seq.
    change (kw ++ ws ++ rest) with ("" ++ (kw ++ ws ++ rest)) at 1.
    apply star_greedy_class; [done|by apply startsOutside_keyword|].
    cbn beta. rewrite run_Seq, run_Group.
    apply run_stepKeyword; [done|]. cbn beta.
    rewrite Nat.add_0_l, Nat.sub_0_r, substring_0_app.
    by apply after_keyword. }
  by apply searchFrom_matchAt.
Qed.

(** [stepPrefix] accepts it as well. *)
Lemma exec_stepPrefix (kw ws rest : string) :
  stepText kw ws rest ->
  is_Some (exec Parser.stepPrefix (kw ++ ws ++ rest)).
Proof.
  intros (Hkw & Hws & Hsp & Hrest & Hout & Hdot).
  assert (Hm : is_Some (matchAt Parser.stepPrefix 0 (kw ++ ws ++ rest))).
  { exists (<[1%nat := kw]> ∅).
    unfold matchAt, Parser.stepPrefix. rewrite run_Seq, run_Bol, run_Seq.
    change (kw ++ ws ++ rest) with ("" ++ (kw ++ ws ++ rest)) at 1.
    apply star_greedy_class; [done|by apply startsOutside_keyword|].
    cbn beta. rewrite run_Seq, run_Group.
    apply run_stepKeyword; [done|]. cbn beta.
    rewrite Nat.add_0_l, Nat.sub_0_r, substring_0_app.
    by apply plus_greedy_class. }
  destruct Hm as [c Hm]. exists c. by apply searchFrom_matchAt.
Qed.

(** ** Trimming *)

Lemma append_assoc (a b c : string) : (a ++ b) ++ c = a ++ (b ++ c).
Proof. induction a as [|x a IH]; [done|]. by rewrite !append_cons, IH. Qed.

Lemma trimStart_app (w s : string) :
  allChars JSString.is_space w = true ->
  startsOutside JSString.is_space s = true ->
  JSString.trimStart (w ++ s) = s.
Proof.
  intros Hw Hs. induction w as [|a w IH].
  - change ("" ++ s) with s. destruct s as [|b s]; [done|].
    simpl in Hs. apply negb_true_iff in Hs. cbn [JSString.trimStart]. by rewrite Hs.
  - simpl in Hw. apply andb_prop in Hw as [Ha Hw].
    rewrite append_cons. cbn [JSString.trimStart]. rewrite Ha. by apply IH.
Qed.

Lemma trimEnd_spaces (w : string) :
  allChars JSString.is_space w = true -> JSString.trimEnd w = "".
Proof.
  induction w as [|a w IH]; [done|]. simpl. intros Hw.
  apply andb_prop in Hw as [Ha Hw]. by rewrite IH, Ha.
Qed.

Lemma trimEnd_app (s w : string) :
  allChars JSString.is_space w = true ->
  JSString.trimEnd (s ++ w) = JSString.trimEnd s.
Proof.
  intros Hw. induction s as [|a s IH].
  - change ("" ++ w) with w. by apply trimEnd_spaces.
  - rewrite append_cons. cbn [JSString.trimEnd]. by rewrite IH.
Qed.

Lemma trimEnd_id (s : string) :
  s <> "" -> endsOutside JSString.is_space s = true -> JSString.trimEnd s = s.
Proof.
  unfold endsOutside. induction s as [|a s IH]; [done|]. intros _ Hlast.
  destruct s as [|b s].
  - simpl in *. apply negb_true_iff in Hlast. by rewrite Hlast.
  - change (lastChar (String a (String b s))) with (lastChar (String b s)) in Hlast.
    cbn [JSString.trimEnd] in *. rewrite IH by done. done.
Qed.

Lemma lastChar_app (a b : string) : b <> "" -> lastChar (a ++ b) = lastChar b.
Proof.
  intros Hb. induction a as [|x a IH]; [done|].
  rewrite append_cons. destruct (a ++ b) eqn:E.
  - destruct a; [by change ("" ++ b) with b in E|done].
  - done.
Qed.

(** A line made of white space, the text of a step line that ends in a
    character other than white space, and white space again is sorted as a
    step line with that keyword and that remainder. *)
Lemma classify_step_text (pad kw ws rest pad' : string) :
  allChars JSString.is_space pad = true ->
  allChars JSString.is_space pad' = true ->
  stepText kw ws rest ->
  endsOutside JSString.is_space rest = true ->
  classify (pad ++ (kw ++ ws ++ rest) ++ pad') = StepLine kw rest.
Proof.
  intros Hpad Hpad' Htext Hend.
  pose proof Htext as (Hkw & Hws & Hsp & Hrest & Hout & Hdot).
  assert (Htrim : JSString.trim (pad ++ (kw ++ ws ++ rest) ++ pad') = kw ++ ws ++ rest).
  { unfold JSString.trim. rewrite trimStart_app; [|done|].
    - rewrite trimEnd_app by done. apply trimEnd_id.
      + unfold stepKeywords in Hkw.
        repeat (apply elem_of_cons in Hkw as [->|Hkw]); [..|by apply elem_of_nil in Hkw];
          done.
      + unfold endsOutside in *. rewrite !lastChar_app; try done.
        destruct ws; [done|]. by rewrite append_cons.
    - rewrite append_assoc. by apply startsOutside_keyword. }
  unfold classify. rewrite Htrim.
  assert (Hother : forall p, p ∈ ["Feature:"; "Background:"; "Scenario:"] ->
                             JSString.startsWith p (kw ++ ws ++ rest) = false).
  { intros p Hp. unfold stepKeywords in Hkw.
    repeat (apply elem_of_cons in Hkw as [->|Hkw]); [..|by apply elem_of_nil in Hkw];
      repeat (apply elem_of_cons in Hp as [->|Hp]); try (by apply elem_of_nil in Hp);
      reflexivity. }
  rewrite !Hother by (repeat first [apply list_elem_of_here | apply list_elem_of_further]).
  rewrite bool_decide_eq_true_2 by (by apply exec_stepPrefix).
  rewrite exec_stepLine by done.
  unfold group. rewrite lookup_insert_ne by done. by rewrite !lookup_insert_eq.
Qed.

End RegexFacts.

(* ===================================================================== *)
(** * The matcher finds only what the expressions mean *)
(* ===================================================================== *)

Module RegexSound.
Import Regex RegexSpec RegexFacts.
Local Open Scope string_scope.

Lemma length_append (a b : string) :
  String.length (a ++ b) = (String.length a + String.length b)%nat.
Proof. induction a as [|c a IH]; [done|]. rewrite append_cons. simpl. by rewrite IH. Qed.

(** The matcher finds only what the expression means. *)
Lemma run_sound (r : regex) :
  forall (pos : nat) (s : string) (caps : captures) (k : cont) (c : captures),
    run r pos s caps k = Some c ->
    exists (w rest : string) (caps' : captures),
      s = w ++ rest ∧ matches r pos w rest
      ∧ k (pos + String.length w)%nat rest caps' = Some c.
Proof.
  induction r as [|a|p|r1 IH1 r2 IH2|r1 IH1 r2 IH2|g r IH|n r IH| |];
    intros pos s caps k c Hrun.
  - exists "", s, caps. simpl in *. rewrite Nat.add_0_r. repeat split; [constructor|done].
  - cbn [run] in Hrun. destruct s as [|b s]; [done|].
    destruct (Ascii.eqb_spec a b) as [->|]; [|done].
    exists (String b ""), s, caps. simpl. rewrite Nat.add_1_r.
    repeat split; [constructor|done].
  - cbn [run] in Hrun. destruct s as [|b s]; [done|].
    destruct (p b) eqn:Hp; [|done].
    exists (String b ""), s, caps. simpl. rewrite Nat.add_1_r.
    repeat split; [by constructor|done].
  - rewrite run_Seq in Hrun.
    apply IH1 in Hrun as (w1 & rest1 & caps1 & -> & Hm1 & Hrun).
    apply IH2 in Hrun as (w2 & rest & caps2 & -> & Hm2 & Hk).
    exists (w1 ++ w2), rest, caps2. rewrite append_assoc, length_append, Nat.add_assoc.
    repeat split; [by constructor|done].
  - cbn [run] in Hrun. destruct (run r1 pos s caps k) as [c1|] eqn:H1.
    + injection Hrun as <-. apply IH1 in H1 as (w & rest & caps' & -> & Hm & Hk).
      exists w, rest, caps'. repeat split; [by apply M_AltL|done].
    + apply IH2 in Hrun as (w & rest & caps' & -> & Hm & Hk).
      exists w, rest, caps'. repeat split; [by apply M_AltR|done].
  - cbn [run] in Hrun. cbv zeta in Hrun.
    match type of Hrun with ?f _ _ _ _ = _ => remember f as loop eqn:Hloop end.
    revert Hrun. generalize (String.length s) as fuel.
    intros fuel. revert pos s caps. induction fuel as [|fuel IHf]; intros pos s caps Hrun.
    + rewrite Hloop in Hrun. cbv beta iota in Hrun.
      exists "", s, caps. simpl. rewrite Nat.add_0_r. repeat split; [constructor|done].
    + rewrite Hloop in Hrun. cbv beta iota in Hrun. rewrite <- Hloop in Hrun.
      assert (Hagain :
                run r pos s caps
                  (fun pos' s' caps' =>
                     if (pos <? pos')%nat then loop fuel pos' s' caps' else None) = Some c ->
                exists (w rest : string) (caps' : captures),
                  s = w ++ rest ∧ matches (Star g r) pos w rest
                  ∧ k (pos + String.length w)%nat rest caps' = Some c).
      { intros H. apply IH in H as (w1 & rest1 & caps1 & -> & Hm1 & H).
        destruct (pos <? pos + String.length w1)%nat; [|done].
        apply IHf in H as (w2 & rest & caps2 & -> & Hm2 & Hk).
        exists (w1 ++ w2), rest, caps2. rewrite append_assoc, length_append, Nat.add_assoc.
        repeat split; [by apply M_StarCons|done]. }
      destruct g.
      * match type of Hrun with
        | match ?e with _ => _ end = _ => destruct e as [c1|] eqn:H1
        end.
        -- injection Hrun as <-. by apply Hagain.
        -- exists "", s, caps. simpl. rewrite Nat.add_0_r.
           repeat split; [constructor|done].
      * destruct (k pos s caps) as [c1|] eqn:H1.
        -- injection Hrun as <-. exists "", s, caps. simpl. rewrite Nat.add_0_r.
           repeat split; [constructor|done].
        -- by apply Hagain.
  - rewrite run_Group in Hrun.
    apply IH in Hrun as (w & rest & caps' & -> & Hm & Hk).
    eexists w, rest, _. repeat split; [by constructor|exact Hk].
  - cbn [run] in Hrun. destruct (Nat.eqb_spec pos 0) as [->|]; [|done].
    exists "", s, caps. repeat split; [constructor|done].
  - cbn [run] in Hrun. destruct s; [|done].
    exists "", "", caps. simpl. rewrite Nat.add_0_r. repeat split; [constructor|done].
Qed.

(** An unanchored search finds a match at some position. *)
Lemma searchFrom_sound (r : regex) (s : string) :
  forall (pos : nat) (c : captures),
    searchFrom r pos s = Some c ->
    exists (pre w rest : string),
      s = pre ++ w ++ rest ∧ matches r (pos + String.length pre) w rest.
Proof.
  induction s as [|a s IH]; intros pos c Hs; cbn [searchFrom] in Hs.
  - destruct (matchAt r pos "") as [c1|] eqn:Hm; [|done].
    unfold matchAt in Hm. apply run_sound in Hm as (w & rest & caps' & Heq & Hw & _).
    exists "", w, rest. simpl. rewrite Nat.add_0_r. done.
  - destruct (matchAt r pos (String a s)) as [c1|] eqn:Hm.
    + unfold matchAt in Hm. apply run_sound in Hm as (w & rest & caps' & Heq & Hw & _).
      exists "", w, rest. simpl. rewrite Nat.add_0_r. done.
    + apply IH in Hs as (pre & w & rest & -> & Hw).
      exists (String a pre), w, rest. rewrite append_cons. simpl.
      by rewrite Nat.add_succ_r.
Qed.

(** ** What the expressions of the parser mean *)

Lemma allChars_app (p : ascii -> bool) (a b : string) :
  Lines.allChars p (a ++ b) = Lines.allChars p a && Lines.allChars p b.
Proof.
  induction a as [|c a IH]; [done|]. rewrite append_cons. simpl. by rewrite IH, andb_assoc.
Qed.

Lemma matches_star_class (g : bool) (p : ascii -> bool) (pos : nat) (w rest : string) :
  matches (Star g (Class p)) pos w rest -> Lines.allChars p w = true.
Proof.
  intros Hm. remember (Star g (Class p)) as r eqn:Hr. revert Hr.
  induction Hm as [| | | | | | |g' r' pos w1 w2 rest H1 _ H2 IH2| | |]; intros Hr; try done.
  injection Hr as -> ->. inversion H1; subst. rewrite append_cons. simpl.
  change ("" ++ w2) with w2. rewrite IH2 by done. by rewrite andb_true_r.
Qed.

Lemma matches_plus_class (g : bool) (p : ascii -> bool) (pos : nat) (w rest : string) :
  matches (Plus g (Class p)) pos w rest -> w <> "" ∧ Lines.allChars p w = true.
Proof.
  unfold Plus. intros Hm. inversion Hm as [| | |r1 r2 pos' w1 w2 rest' H1 H2| | | | | | |]; subst.
  inversion H1; subst. apply matches_star_class in H2.
  rewrite append_cons. simpl. change ("" ++ w2) with w2. split; [done|].
  by rewrite H2, andb_true_r.
Qed.

Lemma matches_Lit (s : string) (pos : nat) (w rest : string) :
  matches (Lit s) pos w rest -> w = s.
Proof.
  revert pos w. induction s as [|c s IH]; intros pos w Hm; cbn [Lit] in Hm.
  - by inversion Hm.
  - inversion Hm as [| | |r1 r2 pos' w1 w2 rest' H1 H2| | | | | | |]; subst.
    inversion H1; subst. apply IH in H2 as ->. by rewrite append_cons.
Qed.

Lemma matches_stepKeyword (pos : nat) (w rest : string) :
  matches Parser.stepKeyword pos w rest -> w ∈ Lines.stepKeywords.
Proof.
  unfold Parser.stepKeyword, Lines.stepKeywords. intros Hm.
  inversion Hm as [| | | |r1 r2 p1 w1 t1 H1|r1 r2 p1 w1 t1 H1| | | | |]; subst; clear Hm;
    [apply (matches_Lit "Given") in H1 as ->; apply list_elem_of_here|].
  inversion H1 as [| | | |r1 r2 p1 w1 t1 H2|r1 r2 p1 w1 t1 H2| | | | |]; subst; clear H1;
    [apply (matches_Lit "When") in H2 as ->; do 1 apply list_elem_of_further; apply list_elem_of_here|].
  inversion H2 as [| | | |r1 r2 p1 w1 t1 H3|r1 r2 p1 w1 t1 H3| | | | |]; subst; clear H2;
    [apply (matches_Lit "Then") in H3 as ->; do 2 apply list_elem_of_further; apply list_elem_of_here|].
  inversion H3 as [| | | |r1 r2 p1 w1 t1 H4|r1 r2 p1 w1 t1 H4| | | | |]; subst; clear H3;
    [apply (matches_Lit "And") in H4 as ->; do 3 apply list_elem_of_further; apply list_elem_of_here|].
  apply (matches_Lit "But") in H4 as ->. do 4 apply list_elem_of_further. apply list_elem_of_here.
Qed.

(** A text that [stepLine] accepts: white space, a keyword, white space,
    and a remainder without line terminator, up to the end. *)
Lemma exec_stepLine_shape (t : string) (c : captures) :
  exec Parser.stepLine t = Some c ->
  exists (w0 kw ws body : string),
    t = w0 ++ kw ++ ws ++ body
    ∧ Lines.allChars JSString.is_space w0 = true
    ∧ kw ∈ Lines.stepKeywords
    ∧ ws <> "" ∧ Lines.allChars JSString.is_space ws = true
    ∧ body <> ""
    ∧ Lines.allChars (fun c => negb (JSString.is_line_terminator c)) body = true.
Proof.
  unfold exec. intros Hs.
  apply searchFrom_sound in Hs as (pre & w & rest & -> & Hm).
  unfold Parser.stepLine in Hm.
  inversion Hm as [| | |r1 r2 pos' wb w1 rest' Hb H1| | | | | | |]; subst.
  inversion Hb as [| | | | | | | | |rest'' Hpos|]; subst.
  assert (pre = "") as -> by (destruct pre; [done|simpl in *; lia]).
  inversion H1 as [| | |r1 r2 pos' w0 w2 rest' H0 H2| | | | | | |]; subst.
  inversion H2 as [| | |r1 r2 pos' kw w3 rest' Hk H3| | | | | | |]; subst.
  inversion Hk as [| | | | | | | |n r pos' kw' rest' Hk'| |]; subst.
  inversion H3 as [| | |r1 r2 pos' ws w4 rest' Hws H4| | | | | | |]; subst.
  inversion H4 as [| | |r1 r2 pos' body w5 rest' Hg H5| | | | | | |]; subst.
  inversion Hg as [| | | | | | | |n r pos' body' rest' Hbody| |]; subst.
  inversion H5; subst.
  apply matches_star_class in H0. apply matches_stepKeyword in Hk'.
  apply matches_plus_class in Hws as [Hws1 Hws2].
  apply matches_plus_class in Hbody as [Hb1 Hb2].
  exists w0, kw, ws, body. change ("" ++ ?x) with x.
  rewrite !append_nil_r. done.
Qed.

End RegexSound.

(* ===================================================================== *)
(** * The parser sorts lines as the direct reading does *)
(* ===================================================================== *)

Module LineFacts.
Import Regex Parser Lines LineSpec RegexFacts RegexSound.
Local Open Scope string_scope.

Lemma trimStart_startsOutside (s : string) :
  startsOutside JSString.is_space (JSString.trimStart s) = true.
Proof.
  induction s as [|c s IH]; [done|]. cbn [JSString.trimStart].
  destruct (JSString.is_space c) eqn:E; [done|]. simpl. by rewrite E.
Qed.

(** [trimStart] removes a prefix of white space. *)
Lemma trimStart_split (s : string) :
  exists w : string,
    s = w ++ JSString.trimStart s ∧ allChars JSString.is_space w = true.
Proof.
  induction s as [|c s (w & IH & Hw)]; [by exists ""|].
  cbn [JSString.trimStart]. destruct (JSString.is_space c) eqn:E.
  - exists (String c w). rewrite append_cons, <- IH. simpl. by rewrite E, Hw.
  - by exists "".
Qed.

Lemma trimEnd_startsOutside (s : string) :
  startsOutside JSString.is_space s = true ->
  startsOutside JSString.is_space (JSString.trimEnd s) = true.
Proof.
  destruct s as [|c s]; [done|]. simpl. intros Hc.
  destruct (JSString.trimEnd s); [|done].
  apply negb_true_iff in Hc. rewrite Hc. simpl. by rewrite Hc.
Qed.

Lemma trimEnd_endsOutside (s : string) :
  endsOutside JSString.is_space (JSString.trimEnd s) = true.
Proof.
  unfold endsOutside. induction s as [|c s IH]; [done|].
  cbn [JSString.trimEnd]. destruct (JSString.trimEnd s) as [|d t] eqn:E.
  - destruct (JSString.is_space c) eqn:Hc; [done|]. simpl. by rewrite Hc.
  - change (lastChar (String c (String d t))) with (lastChar (String d t)). done.
Qed.

Lemma trim_startsOutside (line : string) :
  startsOutside JSString.is_space (JSString.trim line) = true.
Proof. apply trimEnd_startsOutside, trimStart_startsOutside. Qed.

Lemma trim_endsOutside (line : string) :
  endsOutside JSString.is_space (JSString.trim line) = true.
Proof. apply trimEnd_endsOutside. Qed.

Lemma allChars_lastChar (p : ascii -> bool) (s : string) (c : ascii) :
  allChars p s = true -> lastChar s = Some c -> p c = true.
Proof.
  induction s as [|a s IH]; [done|]. simpl. intros Hs Hl.
  apply andb_prop in Hs as [Ha Hs]. destruct s as [|b s].
  - by injection Hl as <-.
  - by apply IH.
Qed.

Lemma lastChar_is_Some (s : string) : s <> "" -> is_Some (lastChar s).
Proof.
  induction s as [|a s IH]; [done|]. intros _. destruct s as [|b s]; [by eexists|].
  change (lastChar (String a (String b s))) with (lastChar (String b s)).
  by apply IH.
Qed.

Lemma drop_app (a b : string) : JSString.drop (String.length a) (a ++ b) = b.
Proof. induction a as [|c a IH]; [by destruct b|]. by rewrite append_cons. Qed.

Lemma prefix_nil (s : string) : String.prefix "" s = true.
Proof. by destruct s. Qed.

Lemma prefix_split (p s : string) :
  String.prefix p s = true -> s = p ++ JSString.drop (String.length p) s.
Proof.
  revert s. induction p as [|a p IH]; intros s Hp; [by destruct s|].
  destruct s as [|b s]; [done|]. simpl in Hp.
  destruct (ascii_dec a b) as [->|]; [|done].
  rewrite append_cons. simpl. by rewrite <- IH.
Qed.

(** No keyword begins another one. *)
Lemma keywordOf_keyword (kw s : string) :
  kw ∈ stepKeywords -> keywordOf (kw ++ s) = Some kw.
Proof.
  intros Hkw. unfold stepKeywords in Hkw.
  repeat (apply elem_of_cons in Hkw as [->|Hkw]); [..|by apply elem_of_nil in Hkw];
    unfold keywordOf, stepKeywords; rewrite !append_cons; cbn [List.find String.prefix];
    repeat match goal with
           | |- context [ascii_dec ?a ?b] => destruct (ascii_dec a b); try done
           end;
    by rewrite ?prefix_nil.
Qed.

Lemma keywordOf_inv (t kw : string) :
  keywordOf t = Some kw -> kw ∈ stepKeywords ∧ String.prefix kw t = true.
Proof.
  unfold keywordOf. intros Hf. apply find_some in Hf as [Hin Hp].
  split; [by apply list_elem_of_In|done].
Qed.

(** The direct reading of a text that has the form of a step line. *)
Lemma stepTextOf_text (kw ws rest : string) :
  stepText kw ws rest -> stepTextOf (kw ++ ws ++ rest) = Some (kw, rest).
Proof.
  intros (Hkw & Hws & Hsp & Hrest & Hout & Hdot).
  unfold stepTextOf. rewrite keywordOf_keyword by done. cbv zeta.
  rewrite drop_app, trimStart_app by done.
  rewrite length_append, Hdot.
  destruct ws as [|c ws]; [done|]. destruct rest as [|d rest]; [done|].
  cbn [JSString.truthy String.length].
  destruct (Nat.eqb_spec (S (String.length rest))
              (S (String.length ws) + S (String.length rest))) as [E|_]; [lia|].
  done.
Qed.

Lemma stepTextOf_inv (t kw rest : string) :
  stepTextOf t = Some (kw, rest) ->
  exists ws : string, t = kw ++ ws ++ rest ∧ stepText kw ws rest.
Proof.
  unfold stepTextOf. destruct (keywordOf t) as [kw'|] eqn:Hk; [|done].
  apply keywordOf_inv in Hk as [Hkw Hp]. cbv zeta.
  destruct (trimStart_split (JSString.drop (String.length kw') t)) as (ws & Hsplit & Hws).
  set (after := JSString.drop (String.length kw') t) in *.
  destruct (negb (String.length (JSString.trimStart after) =? String.length after)%nat)
    eqn:Hlen; [|done].
  destruct (JSString.truthy (JSString.trimStart after)) eqn:Ht; [|done].
  destruct (allChars _ (JSString.trimStart after)) eqn:Hdot; [|done].
  simpl. intros [= <- <-].
  exists ws. split.
  - rewrite <- Hsplit. by apply prefix_split.
  - repeat split; try done.
    + intros ->. change ("" ++ JSString.trimStart after) with (JSString.trimStart after) in Hsplit.
      rewrite <- Hsplit, Nat.eqb_refl in Hlen. done.
    + intros E. by rewrite E in Ht.
    + apply trimStart_startsOutside.
Qed.

(** A trimmed text that [stepLine] accepts has the form of a step line. *)
Lemma accepted_text (t : string) (c : captures) :
  startsOutside JSString.is_space t = true ->
  endsOutside JSString.is_space t = true ->
  exec stepLine t = Some c ->
  exists kw ws rest : string, t = kw ++ ws ++ rest ∧ stepText kw ws rest.
Proof.
  intros Hstart Hend Hexec.
  apply exec_stepLine_shape in Hexec
    as (w0 & kw & ws & body & -> & Hw0 & Hkw & Hws & Hsp & Hbody & Hdot).
  destruct w0 as [|a w0].
  2:{ rewrite append_cons in Hstart. simpl in Hstart, Hw0.
      apply andb_prop in Hw0 as [Ha _]. by rewrite Ha in Hstart. }
  change ("" ++ ?x) with x in *.
  destruct (trimStart_split body) as (sp & Hsplit & Hspaces).
  exists kw, (ws ++ sp), (JSString.trimStart body). split.
  - rewrite append_assoc, <- Hsplit. done.
  - split; [done|]. split.
    { destruct ws; [done|]. by rewrite append_cons. }
    split; [by rewrite allChars_app, Hsp, Hspaces|].
    split.
    { intros E. rewrite E, append_nil_r in Hsplit. subst sp.
      unfold endsOutside in Hend.
      rewrite lastChar_app in Hend by (destruct ws; [done|by rewrite append_cons]).
      rewrite lastChar_app in Hend by done.
      destruct (lastChar_is_Some body Hbody) as [x Hx]. rewrite Hx in Hend.
      by rewrite (allChars_lastChar _ _ _ Hspaces Hx) in Hend. }
    split; [apply trimStart_startsOutside|].
    rewrite Hsplit, allChars_app in Hdot. by apply andb_prop in Hdot as [_ ?].
Qed.

(** The two expressions of the parser decide what the direct reading
    decides, on every line. *)
Lemma classify_spec (line : string) : classify line = specClassify line.
Proof.
  unfold classify, specClassify, JSString.startsWith. cbv zeta.
  set (t := JSString.trim line).
  destruct (String.prefix "Feature:" t); [done|].
  destruct (String.prefix "Background:" t); [done|].
  destruct (String.prefix "Scenario:" t); [done|].
  destruct (stepTextOf t) as [[kw rest]|] eqn:Hspec.
  - apply stepTextOf_inv in Hspec as (ws & Ht & Htext). rewrite Ht.
    rewrite (bool_decide_eq_true_2 _ (exec_stepPrefix _ _ _ Htext)).
    rewrite (exec_stepLine _ _ _ Htext). unfold group.
    rewrite lookup_insert_ne, lookup_insert_eq by done. by rewrite lookup_insert_eq.
  - destruct (bool_decide _); [|done].
    destruct (exec stepLine t) as [c|] eqn:Hexec; [|done].
    apply accepted_text in Hexec as (kw & ws & rest & Ht & Htext);
      [|apply trim_startsOutside|apply trim_endsOutside].
    rewrite Ht, (stepTextOf_text _ _ _ Htext) in Hspec. done.
Qed.

Lemma heading_no_keyword (p t : string) :
  p ∈ ["Feature:"; "Background:"; "Scenario:"] ->
  String.prefix p t = true -> keywordOf t = None.
Proof.
  intros Hp Ht. apply prefix_split in Ht. rewrite Ht.
  repeat (apply elem_of_cons in Hp as [->|Hp]); [..|by apply elem_of_nil in Hp];
    unfold keywordOf, stepKeywords; rewrite !append_cons; cbn [List.find String.prefix];
    repeat match goal with
           | |- context [ascii_dec ?a ?b] => destruct (ascii_dec a b); try done
           end.
Qed.

Lemma stepOf_spec (line : string) : stepOf line = specStep line.
Proof.
  unfold stepOf, specStep. rewrite classify_spec. unfold specClassify. cbv zeta.
  set (t := JSString.trim line).
  assert (Hhead : forall p, p ∈ ["Feature:"; "Background:"; "Scenario:"] ->
                            String.prefix p t = true -> stepTextOf t = None).
  { intros p Hp Ht. unfold stepTextOf. by rewrite (heading_no_keyword p t Hp Ht). }
  destruct (String.prefix "Feature:" t) eqn:E1.
  { rewrite (Hhead "Feature:"); [done| |done]. apply list_elem_of_here. }
  destruct (String.prefix "Background:" t) eqn:E2.
  { rewrite (Hhead "Background:"); [done| |done].
    apply list_elem_of_further, list_elem_of_here. }
  destruct (String.prefix "Scenario:" t) eqn:E3.
  { rewrite (Hhead "Scenario:"); [done| |done].
    do 2 apply list_elem_of_further. apply list_elem_of_here. }
  by destruct (stepTextOf t) as [[kw rest]|].
Qed.

Lemma omap_ext_fun {A B : Type} (f g : A -> option B) (l : list A) :
  (forall x, f x = g x) -> omap f l = omap g l.
Proof.
  intros H. induction l as [|x l IH]; [done|]. simpl. rewrite H.
  destruct (g x); [f_equal|]; apply IH.
Qed.

Lemma stepsOf_spec (lines : list string) : stepsOf lines = specSteps lines.
Proof. apply omap_ext_fun, stepOf_spec. Qed.

Lemma isScenarioLine_spec (line : string) : isScenarioLine line = specIsScenarioLine line.
Proof. unfold isScenarioLine, specIsScenarioLine. by rewrite classify_spec. Qed.

Lemma featureNameOf_spec (lines : list string) :
  featureNameOf lines = specFeatureName lines.
Proof.
  unfold featureNameOf, specFeatureName, featureNames. f_equal.
  apply omap_ext_fun. intros l. by rewrite classify_spec.
Qed.

Lemma backgroundOf_spec (lines : list string) : backgroundOf lines = specBackground lines.
Proof.
  unfold backgroundOf, specBackground. generalize (@nil CucumberStep).
  induction lines as [|l lines IH]; intros bg; [done|]. simpl.
  replace (collect bg l) with (specCollect bg l); [apply IH|].
  unfold collect, specCollect. by rewrite classify_spec.
Qed.

(** A line is a step line exactly when its trimmed text is a keyword,
    white space, and a remainder that is not empty, starts with a
    character other than white space and has no line terminator. *)
Lemma specStep_iff (line kw rest : string) :
  specStep line = Some (newStep kw rest)
  <-> exists ws : string, JSString.trim line = kw ++ ws ++ rest ∧ stepText kw ws rest.
Proof.
  unfold specStep. split.
  - destruct (stepTextOf (JSString.trim line)) as [[kw' rest']|] eqn:E; [|done].
    intros [= <- <-]. by apply stepTextOf_inv.
  - intros (ws & -> & Htext). by rewrite (stepTextOf_text _ _ _ Htext).
Qed.

End LineFacts.

(* ===================================================================== *)
(** * The claims *)
(* ===================================================================== *)

Section EndToEnd.
Import ReportStatistics Fixtures.
Local Open Scope string_scope.

Lemma getTestResults_oneTest specName test featureFile :
  JSString.includes (JSString.basename featureFile) specName = true ->
  Correlator.getTestResultsForFeature (oneTest specName test) featureFile
  = {[ Correlator.lastTitle test :=
         {| tr_status := Correlator.statusOfState (state test);
            tr_duration := Correlator.durationNs test;
            tr_error_message := displayError test |} ]}.
Proof.
  intros Hspec. unfold Correlator.getTestResultsForFeature, oneTest; simpl.
  unfold Correlator.recordRun; simpl. rewrite Hspec. simpl.
  unfold Correlator.recordTest. apply insert_empty.
Qed.

Lemma includes_truthy (p s : string) :
  JSString.truthy p = true -> JSString.includes p s = true -> JSString.truthy s = true.
Proof. destruct p; [done|]. destruct s; done. Qed.

(** C1. A feature parsed from a file with a one-step Background and a
    two-step Scenario (three steps in the parsed Scenario), merged with a
    run record of state "failed", duration 3000 ms and an error text that
    contains "expected 1 to equal 2": step 0 is passed, step 1 is failed
    with the whole 3000 ms (3 000 000 000 ns) and the error text, step 2
    is skipped with duration 0; the statistics count one failed scenario
    and a pass rate of 0. *)
Theorem C1_failed_scenario_end_to_end
    (content filePath specName err : string) (titlePath : list string)
    (f : CucumberFeature) (h : heap) (sc : CucumberScenario) :
  Parser.parseFeatureFile content filePath = Some (f, h) ->
  elements f = [sc] ->
  length (steps sc) = 3%nat ->
  JSString.includes (JSString.basename filePath) specName = true ->
  List.last titlePath "" = scenario_name sc ->
  JSString.includes "expected 1 to equal 2" err = true ->
  let results :=
    oneTest specName
      {| title := Some titlePath; state := Some "failed";
         test_duration := Some (JSNumber.of_Z 3000); displayError := Some err |} in
  exists report s0 s1 s2,
    Generator.reportFeature content filePath results = Some report
    ∧ (ts_steps <$> tf_elements (jsonFeature report)) = [[s0; s1; s2]]
    ∧ result s0 = {| status := passed; duration := Some (JSNumber.of_Z 1000000000);
                     error_message := None |}
    ∧ result s1 = {| status := failed; duration := Some (JSNumber.of_Z 3000000000);
                     error_message := Some err |}
    ∧ result s2 = {| status := skipped; duration := Some (JSNumber.of_Z 0);
                     error_message := None |}
    ∧ failedScenarios (generateStatistics [jsonFeature report]) = 1%nat
    ∧ passRate (generateStatistics [jsonFeature report]) = JSNumber.of_Z 0.
Proof.
  intros Hparse Hel Hlen Hspec Htitle Herr results.
  destruct (ParserFacts.parseFeatureFile_steps _ _ _ _ sc Hparse) as [Hnd Hdef].
  { rewrite Hel. apply list_elem_of_here. }
  destruct (steps sc) as [|r0 [|r1 [|r2 [|]]]] eqn:Hsteps; try done.
  destruct (Hdef r0) as (t0 & Hr0 & Hd0); [set_solver|].
  destruct (Hdef r1) as (t1 & Hr1 & Hd1); [set_solver|].
  destruct (Hdef r2) as (t2 & Hr2 & Hd2); [set_solver|].
  set (tr := Correlator.getTestResultsForFeature results filePath).
  assert (Htr : tr !! scenario_name sc
                = Some {| tr_status := failed;
                          tr_duration := JSNumber.of_Z 3000000000;
                          tr_error_message := Some err |}).
  { subst tr results. rewrite getTestResults_oneTest by done.
    unfold Correlator.lastTitle; simpl. rewrite Htitle.
    by rewrite lookup_singleton_eq. }
  assert (Htruthy : JSString.truthy err = true) 
    by (by apply (includes_truthy "expected 1 to equal 2")).
  assert (Hfinal : forall j r,
    steps sc !! j = Some r ->
    (Correlator.mergeFeatureWithResults (f, h) tr).2 !! r
    = Spec.markedStep 1 (JSNumber.of_Z 3000000000) 3 (Some err) j <$> h !! r).
  { intros j r Hj.
    rewrite (CorrelatorFacts.merge_unshared f h tr [] [] sc r Hel)
      by (intros sc' Hsc'; by apply elem_of_nil in Hsc').
    rewrite (CorrelatorFacts.mergeScenario_failed tr h sc _ j r Htr);
      [|done|by rewrite Hsteps|done].
    simpl. unfold Correlator.detectFailedStepFromError.
    rewrite Htruthy, Herr, Hsteps. done. }
  rewrite Hsteps in Hfinal.
  set (h' := (Correlator.mergeFeatureWithResults (f, h) tr).2) in Hfinal.
  change (Correlator.mergeFeatureWithResults (f, h) tr) with (f, h').
  pose proof (Hfinal 0%nat r0 eq_refl) as H0.
  pose proof (Hfinal 1%nat r1 eq_refl) as H1.
  pose proof (Hfinal 2%nat r2 eq_refl) as H2.
  rewrite Hr0 in H0. rewrite Hr1 in H1. rewrite Hr2 in H2.
  unfold Spec.markedStep in H0, H1, H2. simpl in H0, H1, H2.
  rewrite Htruthy in H1.
  set (u0 := Correlator.setStatusDuration passed
               (JSNumber.div (JSNumber.of_Z 3000000000) (JSNumber.of_nat 3)) t0) in H0.
  set (u1 := Correlator.setErrorMessage err
               (Correlator.setStatusDuration failed (JSNumber.of_Z 3000000000) t1)) in H1.
  set (u2 := Correlator.setStatusDuration skipped (JSNumber.of_Z 0) t2) in H2.
  exists (f, h'), (jsonStep u0), (jsonStep u1), (jsonStep u2).
  split.
  { unfold Generator.reportFeature. rewrite Hparse. reflexivity. }
  assert (Hsnap : tf_elements (jsonFeature (f, h'))
          = [ jsonScenario {| ts_keyword := scenario_keyword sc;
                             ts_name := scenario_name sc;
                             ts_steps := [u0; u1; u2] |} ]).
  { unfold jsonFeature, snapshot; simpl. rewrite Hel; simpl.
    unfold snapshotScenario, readSteps. rewrite Hsteps; simpl.
    rewrite H0, H1, H2. reflexivity. }
  split; [by rewrite Hsnap|].
  subst u0 u1 u2. simpl. rewrite ?Hd0, ?Hd1, ?Hd2. simpl.
  split; [vm_compute; reflexivity|].
  split; [vm_compute; reflexivity|].
  split; [vm_compute; reflexivity|].
  unfold generateStatistics. cbn [fold_left]. unfold countFeature. rewrite Hsnap. simpl.
  rewrite ?Hd0, ?Hd1, ?Hd2. split; vm_compute; reflexivity.
Qed.

Lemma C1_failed_scenario_end_to_end_witness :
  let results :=
    oneTest new_user_path
      {| title := Some ["API Create User"; "Create a new user"]; state := Some "failed";
         test_duration := Some (JSNumber.of_Z 3000);
         displayError := Some "AssertionError: expected 1 to equal 2" |} in
  exists report s0 s1 s2,
    Generator.reportFeature Fixtures.new_user_feature Fixtures.new_user_path results
    = Some report
    ∧ (ts_steps <$> tf_elements (jsonFeature report)) = [[s0; s1; s2]]
    ∧ result s0 = {| status := passed; duration := Some (JSNumber.of_Z 1000000000);
                     error_message := None |}
    ∧ result s1 = {| status := failed; duration := Some (JSNumber.of_Z 3000000000);
                     error_message := Some "AssertionError: expected 1 to equal 2" |}
    ∧ result s2 = {| status := skipped; duration := Some (JSNumber.of_Z 0);
                     error_message := None |}
    ∧ failedScenarios (generateStatistics [jsonFeature report]) = 1%nat
    ∧ passRate (generateStatistics [jsonFeature report]) = JSNumber.of_Z 0.
Proof.
  eapply C1_failed_scenario_end_to_end;
    [ vm_compute; reflexivity | reflexivity | reflexivity
    | vm_compute; reflexivity | reflexivity | vm_compute; reflexivity ].
Defined.

End EndToEnd.

Section SharedBackground.
Import Correlator CorrelatorFacts.
Local Open Scope string_scope.
Local Open Scope list_scope.

(** ** Scenarios that share no step object *)

(** A step object held by one scenario only ends with what the branch of
    that scenario's record assigns. For a record of state "passed": status
    passed and duration D / K. *)
Lemma passed_steps_unshared (f : CucumberFeature) (h : heap)
    (testResults : gmap string TestResult)
    (before after : list CucumberScenario) (sc : CucumberScenario)
    (res : TestResult) (r : ref) (s : CucumberStep) :
  elements f = before ++ sc :: after ->
  testResults !! scenario_name sc = Some res ->
  tr_status res = passed ->
  r ∈ steps sc ->
  (forall sc', sc' ∈ before ++ after -> r ∉ steps sc') ->
  h !! r = Some s ->
  (mergeFeatureWithResults (f, h) testResults).2 !! r
  = Some (setStatusDuration passed
            (JSNumber.div (tr_duration res) (JSNumber.of_nat (length (steps sc)))) s).
Proof.
  intros Hel Hres Hst Hr Hsep Hs.
  rewrite (merge_unshared f h testResults before after sc r Hel Hsep).
  rewrite (mergeScenario_passed testResults h sc res r Hres Hst Hr).
  by rewrite Hs.
Qed.

(** For a record of state "pending": status skipped and duration 0. *)
Lemma skipped_steps_unshared (f : CucumberFeature) (h : heap)
    (testResults : gmap string TestResult)
    (before after : list CucumberScenario) (sc : CucumberScenario)
    (res : TestResult) (r : ref) (s : CucumberStep) :
  elements f = before ++ sc :: after ->
  testResults !! scenario_name sc = Some res ->
  tr_status res = skipped ->
  r ∈ steps sc ->
  (forall sc', sc' ∈ before ++ after -> r ∉ steps sc') ->
  h !! r = Some s ->
  (mergeFeatureWithResults (f, h) testResults).2 !! r
  = Some (setStatusDuration skipped (JSNumber.of_Z 0) s).
Proof.
  intros Hel Hres Hst Hr Hsep Hs.
  rewrite (merge_unshared f h testResults before after sc r Hel Hsep).
  rewrite (mergeScenario_skipped testResults h sc res r Hres Hst Hr).
  by rewrite Hs.
Qed.

(** When the scenario name finds nothing in the records (no record, not
    the name of a property of [Object.prototype], no record assigned to
    [__proto__]): the step object stays as the parser left it. *)
Lemma unmatched_steps_unshared (f : CucumberFeature) (h : heap)
    (testResults : gmap string TestResult)
    (before after : list CucumberScenario) (sc : CucumberScenario) (r : ref) :
  elements f = before ++ sc :: after ->
  CorrelatorSpec.plainMiss testResults (scenario_name sc) ->
  (forall sc', sc' ∈ before ++ after -> r ∉ steps sc') ->
  (mergeFeatureWithResults (f, h) testResults).2 !! r = h !! r.
Proof.
  intros Hel Hmiss Hsep.
  rewrite (merge_unshared f h testResults before after sc r Hel Hsep).
  unfold mergeScenario. by rewrite (lookupResult_plainMiss _ _ Hmiss).
Qed.

Lemma passed_steps_unshared_witness :
  (mergeFeatureWithResults (Fixtures.login_feature, [Fixtures.login_step])
     {[ "Login with valid credentials" := Fixtures.login_passed ]}).2 !! 0%nat
  = Some (setStatusDuration passed
            (JSNumber.div (tr_duration Fixtures.login_passed) (JSNumber.of_nat 1))
            Fixtures.login_step).
Proof.
  apply (passed_steps_unshared Fixtures.login_feature [Fixtures.login_step]
           {[ "Login with valid credentials" := Fixtures.login_passed ]}
           [] [] Fixtures.login_scenario Fixtures.login_passed 0%nat Fixtures.login_step);
    [ reflexivity | apply lookup_singleton_eq | reflexivity | apply list_elem_of_here
    | intros sc' Hsc'; by apply elem_of_nil in Hsc' | reflexivity ].
Defined.

Lemma skipped_steps_unshared_witness :
  (mergeFeatureWithResults (Fixtures.login_feature, [Fixtures.login_step])
     {[ "Login with valid credentials" := Fixtures.login_pending ]}).2 !! 0%nat
  = Some (setStatusDuration skipped (JSNumber.of_Z 0) Fixtures.login_step).
Proof.
  apply (skipped_steps_unshared Fixtures.login_feature [Fixtures.login_step]
           {[ "Login with valid credentials" := Fixtures.login_pending ]}
           [] [] Fixtures.login_scenario Fixtures.login_pending 0%nat Fixtures.login_step);
    [ reflexivity | apply lookup_singleton_eq | reflexivity | apply list_elem_of_here
    | intros sc' Hsc'; by apply elem_of_nil in Hsc' | reflexivity ].
Defined.

Lemma unmatched_steps_unshared_witness :
  (mergeFeatureWithResults (MoreFixtures.accounts_parsed, MoreFixtures.accounts_store)
     {[ "Close account" := Fixtures.login_pending ]}).2 !! 1%nat
  = MoreFixtures.accounts_store !! 1%nat.
Proof.
  apply (unmatched_steps_unshared MoreFixtures.accounts_parsed MoreFixtures.accounts_store
           {[ "Close account" := Fixtures.login_pending ]}
           [] [MoreFixtures.close_account] MoreFixtures.open_account 1%nat).
  - reflexivity.
  - split; [by apply lookup_singleton_ne|]. split; [reflexivity|].
    by apply lookup_singleton_ne.
  - intros sc' Hsc'. apply list_elem_of_singleton in Hsc' as ->.
    refine (bool_decide_unpack _ _). vm_compute. exact I.
Defined.

(** ** A Background shared by two Scenarios *)

(** C2. The feature file [Fixtures.accounts_feature] has a one-step
    Background and two Scenarios. "Open account" (K = 2 steps) is matched
    to a record of state "passed" and duration D = 2000 ms, "Close account"
    to a record of state "pending". In the report the Background step of
    "Open account" is skipped with duration 0 instead of passed with D/K:
    both Scenarios hold the same Background step object, and the Scenario
    merged last writes into it. *)
Theorem C2_passed_step_overwritten_by_later_scenario :
  Fixtures.shownSteps
    (Generator.reportFeature Fixtures.accounts_feature Fixtures.accounts_path
       (Fixtures.accounts_run
          [ Fixtures.test "Accounts" "Open account" "passed" 2000 None;
            Fixtures.test "Accounts" "Close account" "pending" 0 None ]))
  = Some [ ("Open account",
            [ ("I am logged in via API", skipped, Some (JSNumber.of_Z 0));
              ("I open an account", passed, Some (JSNumber.of_Z 1000000000)) ]);
           ("Close account",
            [ ("I am logged in via API", skipped, Some (JSNumber.of_Z 0));
              ("I close the account", skipped, Some (JSNumber.of_Z 0)) ]) ].
Proof. vm_compute. reflexivity. Qed.

(** C3. Same file; "Open account" is matched to a record of state
    "pending", "Close account" to a record of state "passed" (2000 ms).
    In the report the Background step of the pending Scenario is passed
    with duration 1 000 000 000 ns instead of skipped with duration 0. *)
Theorem C3_skipped_step_overwritten_by_later_scenario :
  Fixtures.shownSteps
    (Generator.reportFeature Fixtures.accounts_feature Fixtures.accounts_path
       (Fixtures.accounts_run
          [ Fixtures.test "Accounts" "Open account" "pending" 0 None;
            Fixtures.test "Accounts" "Close account" "passed" 2000 None ]))
  = Some [ ("Open account",
            [ ("I am logged in via API", passed, Some (JSNumber.of_Z 1000000000));
              ("I open an account", skipped, Some (JSNumber.of_Z 0)) ]);
           ("Close account",
            [ ("I am logged in via API", passed, Some (JSNumber.of_Z 1000000000));
              ("I close the account", passed, Some (JSNumber.of_Z 1000000000)) ]) ].
Proof. vm_compute. reflexivity. Qed.

(** C4. Same file; no record matches "Open account", "Close account" is
    matched to a record of state "pending". The steps of the unmatched
    Scenario do not stay as parsed: its Background step is skipped with
    duration 0, and the statistics count the Scenario as skipped, not as
    passed. *)
Theorem C4_unmatched_scenario_changed_through_shared_step :
  let report :=
    Generator.reportFeature Fixtures.accounts_feature Fixtures.accounts_path
      (Fixtures.accounts_run [ Fixtures.test "Accounts" "Close account" "pending" 0 None ]) in
  Correlator.getTestResultsForFeature
    (Fixtures.accounts_run [ Fixtures.test "Accounts" "Close account" "pending" 0 None ])
    Fixtures.accounts_path !! "Open account" = None
  ∧ Fixtures.shownSteps report
    = Some [ ("Open account",
              [ ("I am logged in via API", skipped, Some (JSNumber.of_Z 0));
                ("I open an account", passed, Some (JSNumber.of_Z 1000000000)) ]);
             ("Close account",
              [ ("I am logged in via API", skipped, Some (JSNumber.of_Z 0));
                ("I close the account", skipped, Some (JSNumber.of_Z 0)) ]) ]
  ∧ (fun fh : CucumberFeature * heap =>
       ReportStatistics.getScenarioStatus <$> tf_elements (jsonFeature fh)) <$> report
    = Some [skipped; skipped].
Proof. vm_compute. repeat split; reflexivity. Qed.

End SharedBackground.

Section PassRate.
Import ReportStatistics Spec.

(** The scenario counters are not touched by the loop over the steps, and
    the two flags record whether a failed and a skipped step were seen. *)
Lemma countStep_scenario_counters (step : CucumberStep) (a : acc) (hf hs : bool) :
  exists a',
    countStep (a, hf, hs) step = (a', hf || isFailed step, hs || isSkipped step)
    ∧ a_totalScenarios a' = a_totalScenarios a
    ∧ a_passedScenarios a' = a_passedScenarios a
    ∧ a_failedScenarios a' = a_failedScenarios a
    ∧ a_skippedScenarios a' = a_skippedScenarios a.
Proof. eexists. split; [reflexivity|]. done. Qed.

Lemma countSteps_scenario_counters (steps : list CucumberStep) (a : acc) (hf hs : bool) :
  exists a',
    fold_left countStep steps (a, hf, hs)
    = (a', hf || existsb isFailed steps, hs || existsb isSkipped steps)
    ∧ a_totalScenarios a' = a_totalScenarios a
    ∧ a_passedScenarios a' = a_passedScenarios a
    ∧ a_failedScenarios a' = a_failedScenarios a
    ∧ a_skippedScenarios a' = a_skippedScenarios a.
Proof.
  revert a hf hs. induction steps as [|step steps IH]; intros a hf hs; cbn [fold_left existsb].
  - exists a. by rewrite !orb_false_r.
  - destruct (countStep_scenario_counters step a hf hs) as (a1 & -> & E1 & E2 & E3 & E4).
    destruct (IH a1 (hf || isFailed step) (hs || isSkipped step))
      as (a' & -> & H1 & H2 & H3 & H4).
    exists a'. rewrite !orb_assoc. repeat split; congruence.
Qed.

Lemma countScenario_counters (a : acc) (sc : TestScenario) :
  a_totalScenarios (countScenario a sc) = S (a_totalScenarios a)
  ∧ a_passedScenarios (countScenario a sc)
    = bump (Status_eqb (getScenarioStatus sc) passed) (a_passedScenarios a)
  ∧ a_failedScenarios (countScenario a sc)
    = bump (Status_eqb (getScenarioStatus sc) failed) (a_failedScenarios a)
  ∧ a_skippedScenarios (countScenario a sc)
    = bump (Status_eqb (getScenarioStatus sc) skipped) (a_skippedScenarios a).
Proof.
  unfold countScenario, getScenarioStatus.
  match goal with
  | |- context [fold_left countStep ?l (?a1, false, false)] =>
      destruct (countSteps_scenario_counters l a1 false false)
        as (a' & Heq & H1 & H2 & H3 & H4)
  end.
  rewrite Heq. simpl in *. fold isFailed isSkipped.
  destruct (existsb isFailed (ts_steps sc)); [simpl; by rewrite H1, H2, H3, H4|].
  destruct (existsb isSkipped (ts_steps sc)); simpl; by rewrite H1, H2, H3, H4.
Qed.

Lemma countScenarios_counters (scs : list TestScenario) (a : acc) :
  let a' := fold_left countScenario scs a in
  let n x := length (List.filter (fun sc => Status_eqb (getScenarioStatus sc) x) scs) in
  a_totalScenarios a' = (a_totalScenarios a + length scs)%nat
  ∧ a_passedScenarios a' = (a_passedScenarios a + n passed)%nat
  ∧ a_failedScenarios a' = (a_failedScenarios a + n failed)%nat
  ∧ a_skippedScenarios a' = (a_skippedScenarios a + n skipped)%nat.
Proof.
  revert a. induction scs as [|sc scs IH]; intros a; cbn zeta.
  - simpl. by rewrite !Nat.add_0_r.
  - cbn [fold_left List.filter length].
    destruct (IH (countScenario a sc)) as (H1 & H2 & H3 & H4).
    destruct (countScenario_counters a sc) as (G1 & G2 & G3 & G4).
    rewrite H1, H2, H3, H4, G1, G2, G3, G4. unfold bump.
    destruct (getScenarioStatus sc); simpl; repeat split; lia.
Qed.

Lemma countFeatures_counters (features : list TestFeature) (a : acc) :
  let a' := fold_left countFeature features a in
  a_totalScenarios a' = (a_totalScenarios a + length (Spec.scenariosOf features))%nat
  ∧ a_passedScenarios a' = (a_passedScenarios a + Spec.scenariosWith passed features)%nat
  ∧ a_failedScenarios a' = (a_failedScenarios a + Spec.scenariosWith failed features)%nat
  ∧ a_skippedScenarios a' = (a_skippedScenarios a + Spec.scenariosWith skipped features)%nat.
Proof.
  unfold Spec.scenariosWith, Spec.scenariosOf.
  revert a. induction features as [|f features IH]; intros a; cbn zeta.
  - simpl. by rewrite !Nat.add_0_r.
  - cbn [fold_left]. destruct (IH (countFeature a f)) as (H1 & H2 & H3 & H4).
    destruct (countScenarios_counters (tf_elements f) a) as (G1 & G2 & G3 & G4).
    unfold countFeature in *. rewrite H1, H2, H3, H4, G1, G2, G3, G4.
    change ((f :: features) ≫= tf_elements)
      with (tf_elements f ++ (features ≫= tf_elements)).
    rewrite !List.filter_app, !length_app. repeat split; lia.
Qed.

(** C6. For every feature list, the pass rate of [generateStatistics] is
    [Math.round((passedScenarios / totalScenarios) * 100)], computed in
    binary64 from the number of scenarios without a failed or skipped step
    and the number of all scenarios; it is [0] when there is no scenario,
    and no division takes place then. *)
Theorem C6_pass_rate (features : list TestFeature) :
  let total := length (Spec.scenariosOf features) in
  let passedCount := Spec.scenariosWith passed features in
  totalScenarios (generateStatistics features) = total
  ∧ passedScenarios (generateStatistics features) = passedCount
  ∧ passRate (generateStatistics features)
    = match total with
      | O => JSNumber.of_Z 0
      | S _ =>
          JSNumber.Math_round
            (JSNumber.mul (JSNumber.div (JSNumber.of_nat passedCount) (JSNumber.of_nat total))
                          (JSNumber.of_Z 100))
      end.
Proof.
  cbn zeta. unfold generateStatistics; simpl.
  destruct (countFeatures_counters features acc0) as (H1 & H2 & _ & _).
  simpl in H1, H2. rewrite H1, H2.
  repeat split. by destruct (length (Spec.scenariosOf features)).
Qed.

End PassRate.
Section Estimates.
Import ReportStatistics StepSpec DurationSpec NumberExact.
Local Open Scope Z_scope.

Lemma estimate_estimateMs (step : CucumberStep) :
  estimate step = JSNumber.of_Z (Spec.estimateMs step).
Proof. unfold estimate, Spec.estimateMs. by destruct (status (result step)). Qed.

Lemma estimate_ns (step : CucumberStep) :
  JSNumber.mul (estimate step) (JSNumber.of_Z 1000000)
  = JSNumber.of_Z (Spec.estimateMs step * 1000000).
Proof.
  unfold estimate, Spec.estimateMs.
  destruct (status (result step)); vm_compute; reflexivity.
Qed.

Lemma hasDuration_recorded (step : CucumberStep) : hasDuration step = recorded step.
Proof.
  unfold hasDuration, recorded. destruct (duration (result step)) as [[| | |]|]; reflexivity.
Qed.

(** The millisecond callback adds what the step counts for. *)
Lemma addStepMs_effective (d : number) (step : CucumberStep) :
  addStepMs d step = JSNumber.add d (effectiveMs step).
Proof.
  unfold addStepMs, effectiveMs. rewrite hasDuration_recorded, estimate_estimateMs.
  by destruct (recorded step).
Qed.

Lemma fold_addStepMs (steps : list CucumberStep) (d : number) :
  fold_left addStepMs steps d = fold_left JSNumber.add (effectiveMs <$> steps) d.
Proof.
  revert d. induction steps as [|step steps IH]; intros d; [done|].
  rewrite fmap_cons. cbn [fold_left]. by rewrite IH, addStepMs_effective.
Qed.

Lemma fold_featureStatsScenario (scenarios : list TestScenario) (s : nat * nat * nat * number) :
  snd (fold_left featureStatsScenario scenarios s)
  = fold_left JSNumber.add (effectiveMs <$> (scenarios ≫= ts_steps)) (snd s).
Proof.
  revert s. induction scenarios as [|sc scenarios IH]; intros s; [done|].
  cbn [fold_left]. rewrite IH, bind_cons, fmap_app, fold_left_app.
  destruct s as [[[p f] k] d]. unfold featureStatsScenario. cbn [snd].
  by rewrite fold_addStepMs.
Qed.

(** The nanosecond accumulator of [generateStatistics]. *)
Lemma fold_countStep (steps : list CucumberStep) (s : acc * bool * bool) :
  a_totalDuration (fst (fst (fold_left countStep steps s)))
  = fold_left JSNumber.add (effectiveNs <$> steps) (a_totalDuration (fst (fst s))).
Proof.
  revert s. induction steps as [|step steps IH]; intros s; [done|].
  rewrite fmap_cons. cbn [fold_left]. rewrite IH. f_equal.
  destruct s as [[a hf] hs]. unfold countStep, effectiveNs. cbn [fst a_totalDuration].
  rewrite hasDuration_recorded, estimate_ns. by destruct (recorded step).
Qed.

Lemma countScenario_duration (a : acc) (sc : TestScenario) :
  a_totalDuration (countScenario a sc)
  = fold_left JSNumber.add (effectiveNs <$> ts_steps sc) (a_totalDuration a).
Proof.
  unfold countScenario. cbv zeta.
  match goal with
  | |- context [fold_left countStep (ts_steps sc) ?s0] =>
      pose proof (fold_countStep (ts_steps sc) s0) as H;
      destruct (fold_left countStep (ts_steps sc) s0) as [[a2 hf] hs]
  end.
  cbn [fst a_totalDuration] in *. exact H.
Qed.

Lemma countFeature_duration (a : acc) (feature : TestFeature) :
  a_totalDuration (countFeature a feature)
  = fold_left JSNumber.add (effectiveNs <$> stepsOfFeature feature) (a_totalDuration a).
Proof.
  unfold countFeature, stepsOfFeature. revert a.
  induction (tf_elements feature) as [|sc scenarios IH]; intros a; [done|].
  cbn [fold_left]. by rewrite IH, countScenario_duration, bind_cons, fmap_app, fold_left_app.
Qed.

Lemma fold_countFeature (features : list TestFeature) (a : acc) :
  a_totalDuration (fold_left countFeature features a)
  = fold_left JSNumber.add (effectiveNs <$> stepsOfReport features) (a_totalDuration a).
Proof.
  unfold stepsOfReport, Spec.scenariosOf. revert a.
  induction features as [|feature features IH]; intros a; [done|].
  cbn [fold_left]. rewrite IH, countFeature_duration, !bind_cons, bind_app, fmap_app, fold_left_app.
  done.
Qed.

Lemma estimatedMs_cons (step : CucumberStep) (steps : list CucumberStep) :
  estimatedMs (step :: steps) = Spec.estimateMs step + estimatedMs steps.
Proof.
  unfold estimatedMs, stepsWith, hasStatus, Spec.estimateMs. cbn [List.filter length].
  destruct (status (result step)); cbn [Status_eqb length]; lia.
Qed.

Lemma estimatedMs_bounds (steps : list CucumberStep) :
  0 <= estimatedMs steps <= 2000 * Z.of_nat (length steps).
Proof.
  induction steps as [|step steps IH]; [done|].
  rewrite estimatedMs_cons. cbn [length]. unfold Spec.estimateMs.
  destruct (status (result step)); lia.
Qed.

Lemma absentOrZero_recorded (step : CucumberStep) :
  Spec.absentOrZero step = true -> recorded step = None.
Proof.
  unfold Spec.absentOrZero, recorded.
  by destruct (duration (result step)) as [[| | |]|].
Qed.

(** With all durations missing the sums are the sums of the estimates,
    without rounding error. *)
Lemma total_estimates (c : Z) (effective : CucumberStep -> number)
    (steps : list CucumberStep) (a : Z) :
  0 < c ->
  (forall step, step ∈ steps -> effective step = JSNumber.of_Z (Spec.estimateMs step * c)) ->
  0 <= a ->
  (a + 2000 * Z.of_nat (length steps)) * c < 2 ^ 53 ->
  fold_left JSNumber.add (effective <$> steps) (JSNumber.of_Z (a * c))
  = JSNumber.of_Z ((a + estimatedMs steps) * c).
Proof.
  intros Hc. revert a. induction steps as [|step steps IH]; intros a Heff Ha Hbound.
  - cbn. do 2 f_equal. unfold estimatedMs. cbn. lia.
  - rewrite fmap_cons. cbn [fold_left]. rewrite Heff by apply list_elem_of_here.
    assert (Hest : 0 < Spec.estimateMs step <= 2000)
      by (unfold Spec.estimateMs; destruct (status (result step)); lia).
    cbn [length] in Hbound.
    rewrite add_exact by nia.
    replace (a * c + Spec.estimateMs step * c) with ((a + Spec.estimateMs step) * c) by lia.
    rewrite IH; [|intros s Hs; apply Heff; by apply list_elem_of_further|lia|nia].
    rewrite estimatedMs_cons. f_equal. lia.
Qed.

Lemma total_estimates_ms (steps : list CucumberStep) :
  Forall (fun step => Spec.absentOrZero step = true) steps ->
  Z.of_nat (length steps) <= 4000000 ->
  total (effectiveMs <$> steps) = JSNumber.of_Z (estimatedMs steps).
Proof.
  intros Hall Hlen. unfold total.
  assert (H : fold_left JSNumber.add (effectiveMs <$> steps) (JSNumber.of_Z (0 * 1))
              = JSNumber.of_Z ((0 + estimatedMs steps) * 1)).
  { apply total_estimates; try lia.
    intros step Hstep. rewrite Forall_forall in Hall.
    unfold effectiveMs. rewrite absentOrZero_recorded by by apply Hall.
    by rewrite Z.mul_1_r. }
  replace ((0 + estimatedMs steps) * 1) with (estimatedMs steps) in H by lia.
  exact H.
Qed.

Lemma total_estimates_ns (steps : list CucumberStep) :
  Forall (fun step => Spec.absentOrZero step = true) steps ->
  Z.of_nat (length steps) <= 4000000 ->
  total (effectiveNs <$> steps) = JSNumber.of_Z (estimatedMs steps * 1000000).
Proof.
  intros Hall Hlen. unfold total.
  assert (H : fold_left JSNumber.add (effectiveNs <$> steps) (JSNumber.of_Z (0 * 1000000))
              = JSNumber.of_Z ((0 + estimatedMs steps) * 1000000)).
  { apply total_estimates; try lia.
    intros step Hstep. rewrite Forall_forall in Hall.
    unfold effectiveNs. by rewrite absentOrZero_recorded by by apply Hall. }
  exact H.
Qed.

Lemma skipped_estimates (steps : list CucumberStep) :
  Forall skippedWithZero steps ->
  Forall (fun step => Spec.absentOrZero step = true) steps
  ∧ estimatedMs steps = 500 * Z.of_nat (length steps).
Proof.
  induction 1 as [|step steps [Hst Hd] _ [IH1 IH2]]; [done|]. split.
  - constructor; [|done]. unfold Spec.absentOrZero. by rewrite Hd.
  - rewrite estimatedMs_cons, IH2. unfold Spec.estimateMs. rewrite Hst. cbn [length]. lia.
Qed.

(** C10. The three functions sum, over the steps in report order, what
    each step counts for: its recorded duration, or, when that is absent,
    zero (or not a number), the estimate of 2000 ms for a failed step and
    of 500 ms for any other; [getScenarioDuration] and [getFeatureStats]
    sum milliseconds and round, [generateStatistics] sums nanoseconds,
    divides by 1000000 and rounds. When every duration is absent or zero
    and there are at most 4000000 steps, the results are exactly 2000
    times the number of failed steps plus 500 times the number of the
    other steps. In particular, when all steps are skipped with duration
    0, as the correlator leaves them, each of them adds 500 ms to the
    scenario duration, the feature duration and the total duration. *)
Theorem C10_estimates_for_missing_durations :
  (forall scenario : TestScenario,
      getScenarioDuration scenario
      = JSNumber.Math_round (total (effectiveMs <$> ts_steps scenario)))
  ∧ (forall feature : TestFeature,
        fs_duration (getFeatureStats feature)
        = JSNumber.Math_round (total (effectiveMs <$> stepsOfFeature feature)))
  ∧ (forall features : list TestFeature,
        totalDuration (generateStatistics features)
        = JSNumber.Math_round
            (JSNumber.div (total (effectiveNs <$> stepsOfReport features))
               (JSNumber.of_Z 1000000)))
  ∧ (forall step : CucumberStep,
        Spec.absentOrZero step = true ->
        effectiveMs step
        = JSNumber.of_Z (if Status_eqb (status (result step)) failed then 2000 else 500)
        ∧ effectiveNs step
          = JSNumber.of_Z (if Status_eqb (status (result step)) failed
                           then 2000000000 else 500000000))
  ∧ (forall scenario : TestScenario,
        Forall (fun step => Spec.absentOrZero step = true) (ts_steps scenario) ->
        Z.of_nat (length (ts_steps scenario)) <= 4000000 ->
        getScenarioDuration scenario = JSNumber.of_Z (estimatedMs (ts_steps scenario)))
  ∧ (forall feature : TestFeature,
        Forall (fun step => Spec.absentOrZero step = true) (stepsOfFeature feature) ->
        Z.of_nat (length (stepsOfFeature feature)) <= 4000000 ->
        fs_duration (getFeatureStats feature)
        = JSNumber.of_Z (estimatedMs (stepsOfFeature feature)))
  ∧ (forall features : list TestFeature,
        Forall (fun step => Spec.absentOrZero step = true) (stepsOfReport features) ->
        Z.of_nat (length (stepsOfReport features)) <= 4000000 ->
        totalDuration (generateStatistics features)
        = JSNumber.of_Z (estimatedMs (stepsOfReport features)))
  ∧ (forall (scenario : TestScenario) (feature : TestFeature) (features : list TestFeature),
        Forall skippedWithZero (stepsOfReport features) ->
        Z.of_nat (length (stepsOfReport features)) <= 4000000 ->
        feature ∈ features ->
        scenario ∈ tf_elements feature ->
        getScenarioDuration scenario
        = JSNumber.of_Z (500 * Z.of_nat (length (ts_steps scenario)))
        ∧ fs_duration (getFeatureStats feature)
          = JSNumber.of_Z (500 * Z.of_nat (length (stepsOfFeature feature)))
        ∧ totalDuration (generateStatistics features)
          = JSNumber.of_Z (500 * Z.of_nat (length (stepsOfReport features)))).
Proof.
  assert (A : forall scenario : TestScenario,
             getScenarioDuration scenario
             = JSNumber.Math_round (total (effectiveMs <$> ts_steps scenario))).
  { intros scenario. unfold getScenarioDuration, total. by rewrite fold_addStepMs. }
  assert (B : forall feature : TestFeature,
             fs_duration (getFeatureStats feature)
             = JSNumber.Math_round (total (effectiveMs <$> stepsOfFeature feature))).
  { intros feature. unfold getFeatureStats, total, stepsOfFeature.
    pose proof (fold_featureStatsScenario (tf_elements feature)
                  (0, 0, 0, JSNumber.of_Z 0)%nat) as H.
    destruct (fold_left featureStatsScenario _ _) as [[[p f] k] d].
    cbn [snd fs_duration] in *. by rewrite H. }
  assert (C : forall features : list TestFeature,
             totalDuration (generateStatistics features)
             = JSNumber.Math_round
                 (JSNumber.div (total (effectiveNs <$> stepsOfReport features))
                    (JSNumber.of_Z 1000000))).
  { intros features. unfold generateStatistics, total. cbv zeta. cbn [totalDuration].
    by rewrite fold_countFeature. }
  assert (E1 : forall steps : list CucumberStep,
             Forall (fun step => Spec.absentOrZero step = true) steps ->
             Z.of_nat (length steps) <= 4000000 ->
             JSNumber.Math_round (total (effectiveMs <$> steps))
             = JSNumber.of_Z (estimatedMs steps)).
  { intros steps Hall Hlen. rewrite total_estimates_ms by done.
    pose proof (estimatedMs_bounds steps). apply Math_round_of_Z. lia. }
  assert (E2 : forall steps : list CucumberStep,
             Forall (fun step => Spec.absentOrZero step = true) steps ->
             Z.of_nat (length steps) <= 4000000 ->
             JSNumber.Math_round
               (JSNumber.div (total (effectiveNs <$> steps)) (JSNumber.of_Z 1000000))
             = JSNumber.of_Z (estimatedMs steps)).
  { intros steps Hall Hlen. rewrite total_estimates_ns by done.
    pose proof (estimatedMs_bounds steps).
    rewrite div_exact by lia. apply Math_round_of_Z. lia. }
  split; [exact A|]. split; [exact B|]. split; [exact C|].
  split.
  { intros step Hmiss. unfold effectiveMs, effectiveNs, Spec.estimateMs.
    rewrite (absentOrZero_recorded step Hmiss).
    by destruct (status (result step)). }
  split; [intros scenario Hall Hlen; rewrite A; by apply E1|].
  split; [intros feature Hall Hlen; rewrite B; by apply E1|].
  split; [intros features Hall Hlen; rewrite C; by apply E2|].
  intros scenario feature features Hall Hlen Hf Hsc.
  apply list_elem_of_split in Hf as (fs1 & fs2 & ->).
  apply list_elem_of_split in Hsc as (scs1 & scs2 & Hscs).
  assert (Hrep : stepsOfReport (fs1 ++ feature :: fs2)
                 = stepsOfReport fs1 ++ stepsOfFeature feature ++ stepsOfReport fs2).
  { unfold stepsOfReport, Spec.scenariosOf, stepsOfFeature.
    by rewrite !bind_app, !bind_cons, !bind_app. }
  assert (Hfe : stepsOfFeature feature
                = (scs1 ≫= ts_steps) ++ ts_steps scenario ++ (scs2 ≫= ts_steps)).
  { unfold stepsOfFeature. by rewrite Hscs, bind_app, bind_cons. }
  pose proof Hall as Hall'. rewrite Hrep in Hall'.
  apply Forall_app in Hall' as [_ Hall']. apply Forall_app in Hall' as [Hfeat _].
  pose proof Hfeat as Hfeat'. rewrite Hfe in Hfeat'.
  apply Forall_app in Hfeat' as [_ Hfeat']. apply Forall_app in Hfeat' as [Hscen _].
  assert (Hlenf : Z.of_nat (length (stepsOfFeature feature)) <= 4000000).
  { rewrite Hrep, !length_app in Hlen. lia. }
  assert (Hlens : Z.of_nat (length (ts_steps scenario)) <= 4000000).
  { rewrite Hfe, !length_app in Hlenf. lia. }
  destruct (skipped_estimates _ Hall) as [H1 H1'].
  destruct (skipped_estimates _ Hfeat) as [H2 H2'].
  destruct (skipped_estimates _ Hscen) as [H3 H3'].
  rewrite A, B, C, E1, E1, E2 by done.
  by rewrite H1', H2', H3'.
Qed.

End Estimates.

Section FailedStepHeuristic.
Import Correlator CorrelatorFacts.
Local Open Scope string_scope.
Local Open Scope list_scope.

Lemma detect_equality_pattern (err : string) (refs : list ref) :
  JSString.includes "expected 1 to equal 2" err = true
  ∨ JSString.includes "expect(1).to.eq(2)" err = true ->
  detectFailedStepFromError (Some err) refs = 1%Z.
Proof.
  intros Hpat. unfold detectFailedStepFromError.
  assert (JSString.truthy err = true) as ->.
  { destruct Hpat as [H|H]; eapply includes_truthy; try exact H; done. }
  simpl. destruct Hpat as [-> | ->]; [done|]. by rewrite orb_true_r.
Qed.




End FailedStepHeuristic.

Section Screenshots.
Import ReportHtmlGenerator.
Local Open Scope string_scope.
Local Open Scope list_scope.

Lemma existsb_eqb_elem_of (x : string) (l : list string) :
  existsb (String.eqb x) l = true <-> x ∈ l.
Proof.
  rewrite existsb_exists. split.
  - intros (y & Hy & Heq). apply String.eqb_eq in Heq as ->. by apply list_elem_of_In.
  - intros Hx. exists x. split; [by apply list_elem_of_In|apply String.eqb_refl].
Qed.

Lemma elem_of_setAdd (x y : string) (s : list string) :
  x ∈ setAdd y s <-> x = y ∨ x ∈ s.
Proof.
  unfold setAdd. destruct (existsb (String.eqb y) s) eqn:E.
  - apply existsb_eqb_elem_of in E. split; [by right|]. by intros [->|?].
  - rewrite elem_of_app, list_elem_of_singleton. tauto.
Qed.

(** The set built by [findScreenshots] holds exactly the names of the
    scenarios with status failed. *)
Lemma failedScenariosOf_spec (data : list TestFeature) (name : string) :
  name ∈ failedScenariosOf data <-> Spec.failedInRun data name.
Proof.
  unfold failedScenariosOf, Spec.failedInRun, Spec.scenariosOf.
  assert (Hin : forall scs s,
    name ∈ fold_left
             (fun s scenario =>
                if Status_eqb (ReportStatistics.getScenarioStatus scenario) failed
                then setAdd (ts_name scenario) s else s) scs s
    <-> name ∈ s ∨ exists sc, sc ∈ scs ∧ ts_name sc = name
                              ∧ ReportStatistics.getScenarioStatus sc = failed).
  { induction scs as [|sc scs IH]; intros s; cbn [fold_left].
    - split; [by left|]. intros [?|(sc & Hsc & _)]; [done|]. by apply elem_of_nil in Hsc.
    - rewrite IH. destruct (ReportStatistics.getScenarioStatus sc) eqn:E; cbn [Status_eqb];
        try rewrite elem_of_setAdd; split;
        try (intros [?|(sc' & Hsc' & ? & ?)]; [by left|];
             right; exists sc'; split; [by apply list_elem_of_further|done]);
        try (intros [?|(sc' & Hsc' & Hn & Hf)]; [by left|];
             apply elem_of_cons in Hsc' as [->|?]; [congruence|]; right; by exists sc').
      + intros [[->|?]|(sc' & Hsc' & ? & ?)].
        * right. exists sc. split; [apply list_elem_of_here|done].
        * by left.
        * right. exists sc'. split; [by apply list_elem_of_further|done].
      + intros [?|(sc' & Hsc' & Hn & Hf)]; [left; by right|].
        apply elem_of_cons in Hsc' as [->|?]; [left; by left|]. right. by exists sc'. }
  assert (Hfs : forall fs s,
    name ∈ fold_left
             (fun s feature =>
                fold_left
                  (fun s scenario =>
                     if Status_eqb (ReportStatistics.getScenarioStatus scenario) failed
                     then setAdd (ts_name scenario) s else s)
                  (tf_elements feature) s) fs s
    <-> name ∈ s ∨ exists sc, sc ∈ fs ≫= tf_elements ∧ ts_name sc = name
                              ∧ ReportStatistics.getScenarioStatus sc = failed).
  { induction fs as [|f fs IH]; intros s; cbn [fold_left].
    - split; [by left|]. intros [?|(sc & Hsc & _)]; [done|]. by apply elem_of_nil in Hsc.
    - rewrite IH, Hin.
      change ((f :: fs) ≫= tf_elements) with (tf_elements f ++ (fs ≫= tf_elements)).
      split.
      + intros [[?|(sc & Hsc & ?)]|(sc & Hsc & ?)]; [by left| |];
          right; exists sc; (split; [apply elem_of_app; tauto|done]).
      + intros [?|(sc & Hsc & ?)]; [left; by left|].
        apply elem_of_app in Hsc as [?|?]; [left; right|right]; by exists sc. }
  rewrite Hfs. split; [|by right]. intros [H|?]; [|done]. by apply elem_of_nil in H.
Qed.

(** A name accepted by [isScenarioFailed] is a failed scenario's name, or
    is a part of one or has one as a part, case and surrounding white
    space ignored. *)
Lemma isScenarioFailed_spec (testName : string) (failedScenarios : list string) :
  isScenarioFailed testName failedScenarios = true <->
  testName ∈ failedScenarios
  ∨ exists n, n ∈ failedScenarios ∧ Spec.partOfEachOther testName n = true.
Proof.
  unfold isScenarioFailed, Spec.partOfEachOther, Spec.clean.
  destruct (existsb (String.eqb testName) failedScenarios) eqn:E.
  - apply existsb_eqb_elem_of in E. split; [by left|done].
  - rewrite existsb_exists. split.
    + intros (n & Hn & H). right. exists n. split; [by apply list_elem_of_In|done].
    + intros [Hin|(n & Hn & H)].
      * apply existsb_eqb_elem_of in Hin. congruence.
      * exists n. split; [by apply list_elem_of_In|done].
Qed.

(** Every key of the map was accepted by [isScenarioFailed]. *)
Lemma findScreenshots_keys (dir : option (list string)) (data : list TestFeature)
    (key : string) :
  is_Some (findScreenshots dir data !! key) ->
  isScenarioFailed key (failedScenariosOf data) = true.
Proof.
  unfold findScreenshots. destruct dir as [files|]; [|by intros [? ?]].
  assert (H : forall files (m : gmap string (list string)),
    (is_Some (m !! key) -> isScenarioFailed key (failedScenariosOf data) = true) ->
    is_Some (forEachFile (failedScenariosOf data) files m !! key) ->
    isScenarioFailed key (failedScenariosOf data) = true).
  { clear files. induction files as [|file files IH]; intros m Hm; cbn [forEachFile]; [done|].
    unfold addScreenshot.
    destruct (JSString.endsWith ".png" file); [|by apply IH].
    destruct (JSString.truthy (testNameOf file)); [|by apply IH]. simpl.
    destruct (isScenarioFailed (testNameOf file) _) eqn:E; [|by apply IH].
    destruct (JSObject.inherited (testNameOf file)); [done|].
    apply IH.
    destruct (decide (testNameOf file = key)) as [<-|Hne]; [done|].
    by rewrite lookup_insert_ne. }
  apply H. by intros [? ?].
Qed.

(** A path recorded for a name stays recorded. *)
Lemma forEachFile_keeps failedScenarios (files : list string)
    (m : gmap string (list string)) (key path : string) :
  path ∈ default [] (m !! key) ->
  path ∈ default [] (forEachFile failedScenarios files m !! key).
Proof.
  revert m. induction files as [|file files IH]; intros m Hp; cbn [forEachFile]; [done|].
  unfold addScreenshot.
  destruct (JSString.endsWith ".png" file); [|by apply IH].
  destruct (JSString.truthy (testNameOf file) && isScenarioFailed _ _); [|by apply IH].
  destruct (JSObject.inherited (testNameOf file)); [done|].
  apply IH. destruct (decide (testNameOf file = key)) as [->|Hne].
  - rewrite lookup_insert_eq. simpl. apply elem_of_app. by left.
  - by rewrite lookup_insert_ne.
Qed.

(** Files whose call does not throw are passed one after the other. *)
Lemma forEachFile_app failedScenarios (before after : list string)
    (m : gmap string (list string)) :
  Forall (fun file => ScreenshotSpec.throws failedScenarios file = false) before ->
  exists m',
    forEachFile failedScenarios (before ++ after) m = forEachFile failedScenarios after m'
    ∧ forall key path, path ∈ default [] (m !! key) -> path ∈ default [] (m' !! key).
Proof.
  intros Hb. revert m. induction Hb as [|file before Hfile Hb IH]; intros m.
  - by exists m.
  - cbn [app forEachFile]. unfold ScreenshotSpec.throws in Hfile. unfold addScreenshot.
    destruct (JSString.endsWith ".png" file); [|apply IH].
    destruct (JSString.truthy (testNameOf file) && isScenarioFailed _ _); [|apply IH].
    simpl in Hfile. rewrite Hfile.
    edestruct IH as (m' & -> & Hkeep).
    exists m'. split; [done|]. intros key path Hp. apply Hkeep.
    destruct (decide (testNameOf file = key)) as [->|Hne].
    + rewrite lookup_insert_eq. simpl. apply elem_of_app. by left.
    + by rewrite lookup_insert_ne.
Qed.

Lemma prefix_refl (s : string) : String.prefix s s = true.
Proof.
  induction s as [|c s IH]; simpl; [done|].
  by destruct (ascii_dec c c).
Qed.

Lemma includes_refl (s : string) : JSString.includes s s = true.
Proof.
  destruct s as [|c s]; [done|].
  cbn [JSString.includes]. by rewrite prefix_refl.
Qed.

(** C7, as stated, fails: with the failed scenario "Login Test" in the
    run, the file login_failed.png is recorded under the name "Login",
    which is not the name of a failed scenario (the scenario "Login" of
    that run passed). *)
Lemma C7_screenshot_under_a_name_that_did_not_fail :
  (findScreenshots (Some ["login_failed.png"]) Fixtures.login_run !! "Login")
  = Some ["screenshots/login_failed.png"]
  ∧ failedScenariosOf Fixtures.login_run = ["Login Test"]
  ∧ ("Login" ∉ failedScenariosOf Fixtures.login_run)
  ∧ ¬ Spec.failedInRun Fixtures.login_run "Login".
Proof.
  assert (Hf : failedScenariosOf Fixtures.login_run = ["Login Test"])
    by (vm_compute; reflexivity).
  assert (Hn : "Login" ∉ failedScenariosOf Fixtures.login_run).
  { intros H. rewrite Hf in H. by apply list_elem_of_singleton in H. }
  split; [vm_compute; reflexivity|]. split; [done|]. split; [done|].
  intros H. by apply failedScenariosOf_spec in H.
Qed.

(** C7, amended. The file login_test_failed.png yields the test name
    "Login Test" and is recorded under it whenever a scenario failed whose
    name is "Login Test" up to case and surrounding white space, provided
    the loop reaches the file: no file before it in the listing is
    recorded under a name that [Object.prototype] defines (such a call
    throws and ends the loop). Every name in the result is the name of a
    scenario that failed in the run, or is a part of such a name or has
    one as a part (lower case, trimmed); with no failed scenario the
    result is empty. File names and scenario names are ASCII. *)
Theorem C7_screenshots_match_failed_scenarios :
  (forall (before after : list string) (data : list TestFeature) (n : string),
      ScreenshotSpec.asciiFiles before ->
      ScreenshotSpec.asciiNames data ->
      Forall (fun file => ScreenshotSpec.throws (failedScenariosOf data) file = false) before ->
      Spec.failedInRun data n ->
      Spec.clean n = "login test" ->
      "screenshots/login_test_failed.png"
        ∈ default []
            (findScreenshots (Some (before ++ "login_test_failed.png" :: after)) data
               !! "Login Test"))
  ∧ (forall (dir : option (list string)) (data : list TestFeature) (key : string),
        ScreenshotSpec.asciiFiles (default [] dir) ->
        ScreenshotSpec.asciiNames data ->
        is_Some (findScreenshots dir data !! key) ->
        Spec.failedInRun data key
        ∨ exists n, Spec.failedInRun data n ∧ Spec.partOfEachOther key n = true)
  ∧ (forall (dir : option (list string)) (data : list TestFeature),
        (forall n, ¬ Spec.failedInRun data n) -> findScreenshots dir data = ∅).
Proof.
  split; [|split].
  - intros before after data n _ _ Hbefore Hn Hclean.
    assert (Hacc : isScenarioFailed "Login Test" (failedScenariosOf data) = true).
    { apply isScenarioFailed_spec. right. exists n.
      split; [by apply failedScenariosOf_spec|].
      unfold Spec.partOfEachOther. rewrite Hclean.
      change (Spec.clean "Login Test") with "login test".
      by rewrite includes_refl. }
    unfold findScreenshots.
    destruct (forEachFile_app (failedScenariosOf data) before
                ("login_test_failed.png" :: after) ∅ Hbefore) as (m' & -> & _).
    cbn [forEachFile]. unfold addScreenshot.
    change (JSString.endsWith ".png" "login_test_failed.png") with true.
    change (testNameOf "login_test_failed.png") with "Login Test".
    change (JSObject.inherited "Login Test") with false.
    cbn [JSString.truthy andb]. rewrite Hacc. cbv iota.
    apply forEachFile_keeps. rewrite lookup_insert_eq. simpl.
    apply elem_of_app. right. apply list_elem_of_here.
  - intros dir data key _ _ Hkey.
    apply findScreenshots_keys, isScenarioFailed_spec in Hkey as [Hin|(n & Hn & Hpart)].
    + left. by apply failedScenariosOf_spec.
    + right. exists n. split; [by apply failedScenariosOf_spec|done].
  - intros dir data Hnone. apply map_eq. intros key. rewrite lookup_empty.
    apply eq_None_not_Some. intros Hkey.
    apply findScreenshots_keys, isScenarioFailed_spec in Hkey as [Hin|(n & Hn & _)].
    + by apply failedScenariosOf_spec, Hnone in Hin.
    + by apply failedScenariosOf_spec, Hnone in Hn.
Qed.

Lemma C7_screenshots_match_failed_scenarios_witness :
  "screenshots/login_test_failed.png"
    ∈ default []
        (findScreenshots
           (Some (["checkout_failed.png"; "notes.txt"]
                  ++ "login_test_failed.png" :: ["login_test_failed (attempt 2).png"]))
           Fixtures.login_run
           !! "Login Test").
Proof.
  apply (proj1 C7_screenshots_match_failed_scenarios
           ["checkout_failed.png"; "notes.txt"] ["login_test_failed (attempt 2).png"]
           Fixtures.login_run "Login Test").
  - refine (bool_decide_unpack _ _). vm_compute. exact I.
  - refine (bool_decide_unpack _ _). vm_compute. exact I.
  - refine (bool_decide_unpack _ _). vm_compute. exact I.
  - exists Fixtures.failed_login_test. split; [|split; reflexivity].
    apply list_elem_of_further, list_elem_of_here.
  - vm_compute. reflexivity.
Defined.

End Screenshots.

Section SingleScenario.
Import Parser Lines ParserFacts RegexFacts.
Local Open Scope string_scope.
Local Open Scope list_scope.

Lemma last_app_default {A : Type} (l1 l2 : list A) (d : A) :
  List.last (l1 ++ l2) d = List.last l2 (List.last l1 d).
Proof.
  revert d. induction l1 as [|a l1 IH]; intros d; [done|].
  rewrite <- app_comm_cons, !last_cons_default. apply IH.
Qed.

(** C5, as stated, fails. In [Fixtures.checkout_feature] three lines of
    the Scenario block start with Given, When or Then after trimming, but
    the parsed Scenario has two steps: "Whenever the card ..." starts with
    "When" and is no step line, because no white space follows the
    keyword. And [Fixtures.unnamed_feature] contains a Feature line and a
    Scenario block, but the parser returns nothing, because the Feature
    line carries no name. *)
Lemma C5_keyword_prefix_is_not_a_step_line :
  (exists (f : CucumberFeature) (h : heap) (sc : CucumberScenario) (body : list string),
      JSString.split "010" Fixtures.checkout_feature
      = ["Feature: Checkout"; "  Scenario: Pay by card"] ++ body
      ∧ length (List.filter startsWithKeyword body) = 3%nat
      ∧ parseFeatureFile Fixtures.checkout_feature "checkout.feature" = Some (f, h)
      ∧ elements f = [sc]
      ∧ length (steps sc) = 2%nat)
  ∧ parseFeatureFile Fixtures.unnamed_feature "unnamed.feature" = None.
Proof.
  split; [|vm_compute; reflexivity].
  eexists _, _, _, _. split; [vm_compute; reflexivity|].
  split; [vm_compute; reflexivity|].
  split; [vm_compute; reflexivity|].
  split; reflexivity.
Qed.

(** The parser on a file with one Scenario line, in terms of the branch
    of the loop body each line takes. *)
Lemma single_scenario_by_classification
    (content filePath : string) (pre body : list string) (scLine nm : string) :
  JSString.split "010" content = pre ++ scLine :: body ->
  classify scLine = ScenarioLine nm ->
  Forall (fun l => isScenarioLine l = false) pre ->
  Forall (fun l => isScenarioLine l = false) body ->
  JSString.truthy (featureNameOf (pre ++ body)) = true ->
  exists (f : CucumberFeature) (h : heap) (sc : CucumberScenario),
    parseFeatureFile content filePath = Some (f, h)
    ∧ feature_name f = featureNameOf (pre ++ body)
    ∧ elements f = [sc]
    ∧ scenario_name sc = nm
    ∧ readSteps h (steps sc) = backgroundOf pre ++ stepsOf body
    ∧ length (steps sc) = (length (backgroundOf pre) + length (stepsOf body))%nat.
Proof.
  intros Hsplit Hsc Hpre Hbody Hname.
  unfold parseFeatureFile. rewrite Hsplit. unfold parseLines.
  rewrite fold_left_app. cbn [fold_left].
  destruct (before_first_scenario pre init eq_refl Hpre) as (A1 & A2 & A3 & A4 & A5).
  { split; constructor. }
  unfold parseLines in *. set (st1 := fold_left parseLine pre init) in *.
  rewrite (parseLine_classify st1 scLine), Hsc.
  set (sc0 := {| scenario_keyword := "Scenario"; scenario_name := nm;
                 steps := backgroundSteps st1 |}).
  set (st2 := {| featureName := featureName st1; currentScenario := Some sc0;
                 backgroundSteps := backgroundSteps st1;
                 scenarios := pushCurrent st1; store := store st1 |}).
  destruct (inside_scenario body st2 sc0 eq_refl Hbody A3)
    as (sc & B1 & B2 & B3 & B4 & B5 & B6 & B7).
  unfold parseLines in *. set (st3 := fold_left parseLine body st2) in *.
  assert (Hfn : featureName st3 = featureNameOf (pre ++ body)).
  { rewrite B7. subst st2; simpl. rewrite A5.
    unfold featureNameOf, featureNames. rewrite omap_app. by rewrite last_app_default. }
  rewrite Hfn, Hname.
  exists {| feature_keyword := "Feature"; feature_name := featureNameOf (pre ++ body);
            uri := Some filePath; elements := pushCurrent st3 |}, (store st3), sc.
  assert (Hel : pushCurrent st3 = [sc]).
  { unfold pushCurrent. rewrite B1, B4. subst st2; simpl.
    unfold pushCurrent. by rewrite A1, A2. }
  assert (Hread : readSteps (store st3) (steps sc) = backgroundOf pre ++ stepsOf body).
  { rewrite B6. subst st2 sc0; simpl. by rewrite A4. }
  split; [done|]. split; [done|]. split; [done|]. split; [by rewrite B3|].
  split; [done|].
  by rewrite <- (readSteps_length (store st3) (steps sc) B5), Hread, length_app.
Qed.


(** C5, amended. Let the text be ASCII, let its lines be [pre], one
    Scenario line, and [body], with no other Scenario line, and let the
    last Feature line carry a non-empty name. A step line is a line whose
    trimmed text is one of Given, When, Then, And, But, followed by white
    space and by a remainder that is not empty and contains no line
    terminator; its step carries the keyword, and the remainder without
    the white space in front as its name. Then [parseFeatureFile] returns
    a Feature with that name and a single Scenario, named after the
    Scenario line, whose steps are the Background steps collected from
    [pre] followed by exactly one step for each step line of [body], in
    the order of the lines; every other line of [body] adds no step. The
    last part says what the step lines are: a line has the step with
    keyword [kw] and name [rest] if and only if its trimmed text is [kw],
    white space, and [rest], where [rest] is not empty, starts with a
    character other than white space and has no line terminator. *)
Theorem C5_single_scenario_steps
    (content filePath : string) (pre body : list string) (scLine nm : string) :
  JSString.isAscii content = true ->
  JSString.split "010" content = pre ++ scLine :: body ->
  LineSpec.specClassify scLine = ScenarioLine nm ->
  Forall (fun l => LineSpec.specIsScenarioLine l = false) pre ->
  Forall (fun l => LineSpec.specIsScenarioLine l = false) body ->
  JSString.truthy (LineSpec.specFeatureName (pre ++ body)) = true ->
  exists (f : CucumberFeature) (h : heap) (sc : CucumberScenario),
    parseFeatureFile content filePath = Some (f, h)
    ∧ feature_name f = LineSpec.specFeatureName (pre ++ body)
    ∧ elements f = [sc]
    ∧ scenario_name sc = nm
    ∧ readSteps h (steps sc) = LineSpec.specBackground pre ++ LineSpec.specSteps body
    ∧ length (steps sc)
      = (length (LineSpec.specBackground pre) + length (LineSpec.specSteps body))%nat
    ∧ (forall line kw rest : string,
          LineSpec.specStep line = Some (newStep kw rest)
          <-> exists ws : string,
                JSString.trim line = (kw ++ ws ++ rest)%string ∧ stepText kw ws rest).
Proof.
  intros _ Hsplit Hsc Hpre Hbody Hname.
  rewrite <- LineFacts.classify_spec in Hsc.
  rewrite <- LineFacts.featureNameOf_spec in Hname.
  destruct (single_scenario_by_classification content filePath pre body scLine nm)
    as (f & h & sc & H1 & H2 & H3 & H4 & H5 & H6); try done.
  - eapply Forall_impl; [exact Hpre|]. intros l Hl. by rewrite LineFacts.isScenarioLine_spec.
  - eapply Forall_impl; [exact Hbody|]. intros l Hl. by rewrite LineFacts.isScenarioLine_spec.
  - exists f, h, sc.
    rewrite <- LineFacts.featureNameOf_spec, <- LineFacts.backgroundOf_spec,
      <- LineFacts.stepsOf_spec.
    repeat split; try done; apply LineFacts.specStep_iff.
Qed.

Lemma C5_single_scenario_steps_witness :
  exists (f : CucumberFeature) (h : heap) (sc : CucumberScenario),
    parseFeatureFile Fixtures.create_user_feature Fixtures.new_user_path = Some (f, h)
    ∧ feature_name f = "API Create User"
    ∧ elements f = [sc]
    ∧ scenario_name sc = "Create a new user"
    ∧ readSteps h (steps sc)
      = [ newStep "Given" "I am logged in via API" ]
        ++ [ newStep "Given" "I have new user data";
             newStep "When" "I create a new user via API";
             newStep "Then" "the user should be created successfully";
             newStep "And" "the response should contain the new user data" ]
    ∧ length (steps sc) = (1 + 4)%nat
    ∧ (forall line kw rest : string,
          LineSpec.specStep line = Some (newStep kw rest)
          <-> exists ws : string,
                JSString.trim line = (kw ++ ws ++ rest)%string ∧ stepText kw ws rest).
Proof.
  apply (C5_single_scenario_steps
           Fixtures.create_user_feature Fixtures.new_user_path
           (take 8 (JSString.split "010" Fixtures.create_user_feature))
           (drop 9 (JSString.split "010" Fixtures.create_user_feature))
           "  Scenario: Create a new user" "Create a new user").
  - vm_compute. reflexivity.
  - vm_compute. reflexivity.
  - vm_compute. reflexivity.
  - refine (bool_decide_unpack _ _). vm_compute. exact I.
  - refine (bool_decide_unpack _ _). vm_compute. exact I.
  - vm_compute. reflexivity.
Defined.

End SingleScenario.

(* ===================================================================== *)
(** * Further properties of the statistics engine *)
(* ===================================================================== *)

Section StatisticsCounters.
Import ReportStatistics Spec StepSpec.
Local Open Scope list_scope.

(** The aggregate status is one of failed, skipped and passed. *)
Lemma scenario_status_cases (sc : TestScenario) :
  getScenarioStatus sc = failed ∨ getScenarioStatus sc = skipped
  ∨ getScenarioStatus sc = passed.
Proof.
  unfold getScenarioStatus.
  destruct (existsb _ _); [by left|]. destruct (existsb _ _); [right; by left|].
  right; by right.
Qed.

Lemma scenarios_partition (scs : list TestScenario) :
  let n x := length (List.filter (fun sc => Status_eqb (getScenarioStatus sc) x) scs) in
  length scs = (n passed + n failed + n skipped)%nat.
Proof.
  cbn zeta. induction scs as [|sc scs IH]; [done|].
  cbn [List.filter length].
  destruct (scenario_status_cases sc) as [-> | [-> | ->]]; simpl; lia.
Qed.

(** Every scenario of the report is counted once, as passed, failed or
    skipped, according to its aggregate status. *)
Theorem scenario_counters_partition (features : list TestFeature) :
  let st := generateStatistics features in
  totalScenarios st = length (scenariosOf features)
  ∧ passedScenarios st = scenariosWith passed features
  ∧ failedScenarios st = scenariosWith failed features
  ∧ skippedScenarios st = scenariosWith skipped features
  ∧ totalScenarios st = (passedScenarios st + failedScenarios st + skippedScenarios st)%nat.
Proof.
  cbn zeta. unfold generateStatistics; simpl.
  destruct (countFeatures_counters features acc0) as (H1 & H2 & H3 & H4).
  simpl in H1, H2, H3, H4. rewrite H1, H2, H3, H4.
  repeat (split; [done|]).
  unfold scenariosWith. apply (scenarios_partition (scenariosOf features)).
Qed.

(** The step counters after the loop over the steps of a scenario. *)
Lemma countSteps_step_counters (steps : list CucumberStep) (a : acc) (hf hs : bool) :
  let a' := (fold_left countStep steps (a, hf, hs)).1.1 in
  a_totalSteps a' = (a_totalSteps a + length steps)%nat
  ∧ a_passedSteps a' = (a_passedSteps a + stepsWith passed steps)%nat
  ∧ a_failedSteps a' = (a_failedSteps a + stepsWith failed steps)%nat
  ∧ a_skippedSteps a' = (a_skippedSteps a + stepsWith skipped steps)%nat.
Proof.
  unfold stepsWith, hasStatus.
  revert a hf hs. induction steps as [|step steps IH]; intros a hf hs; cbn zeta.
  - simpl. by rewrite !Nat.add_0_r.
  - cbn [fold_left List.filter length].
    unfold countStep at 2 4 6 8.
    destruct (IH
      {| a_totalScenarios := a_totalScenarios a;
         a_passedScenarios := a_passedScenarios a;
         a_failedScenarios := a_failedScenarios a;
         a_skippedScenarios := a_skippedScenarios a;
         a_totalSteps := S (a_totalSteps a);
         a_passedSteps :=
           (if Status_eqb (status (result step)) passed then S else id) (a_passedSteps a);
         a_failedSteps :=
           (if Status_eqb (status (result step)) failed then S else id) (a_failedSteps a);
         a_skippedSteps :=
           (if Status_eqb (status (result step)) skipped then S else id) (a_skippedSteps a);
         a_totalDuration :=
           match hasDuration step with
           | Some d => JSNumber.add (a_totalDuration a) d
           | None => JSNumber.add (a_totalDuration a)
                       (JSNumber.mul (estimate step) (JSNumber.of_Z 1000000))
           end |}
      (hf || Status_eqb (status (result step)) failed)
      (hs || Status_eqb (status (result step)) skipped)) as (H1 & H2 & H3 & H4).
    cbn zeta in *. rewrite H1, H2, H3, H4. simpl.
    destruct (status (result step)); simpl; repeat split; lia.
Qed.

Lemma countScenario_step_counters (a : acc) (sc : TestScenario) :
  a_totalSteps (countScenario a sc) = (a_totalSteps a + length (ts_steps sc))%nat
  ∧ a_passedSteps (countScenario a sc)
    = (a_passedSteps a + stepsWith passed (ts_steps sc))%nat
  ∧ a_failedSteps (countScenario a sc)
    = (a_failedSteps a + stepsWith failed (ts_steps sc))%nat
  ∧ a_skippedSteps (countScenario a sc)
    = (a_skippedSteps a + stepsWith skipped (ts_steps sc))%nat.
Proof.
  unfold countScenario.
  match goal with
  | |- context [fold_left countStep ?l (?a1, false, false)] =>
      pose proof (countSteps_step_counters l a1 false false) as H;
      destruct (fold_left countStep l (a1, false, false)) as [[a2 hf] hs]
  end.
  cbn zeta in H. simpl in *. done.
Qed.

Lemma stepsWith_app (st : Status) (l1 l2 : list CucumberStep) :
  stepsWith st (l1 ++ l2) = (stepsWith st l1 + stepsWith st l2)%nat.
Proof. unfold stepsWith. by rewrite List.filter_app, length_app. Qed.

Lemma countScenarios_step_counters (scs : list TestScenario) (a : acc) :
  let a' := fold_left countScenario scs a in
  let steps := scs ≫= ts_steps in
  a_totalSteps a' = (a_totalSteps a + length steps)%nat
  ∧ a_passedSteps a' = (a_passedSteps a + stepsWith passed steps)%nat
  ∧ a_failedSteps a' = (a_failedSteps a + stepsWith failed steps)%nat
  ∧ a_skippedSteps a' = (a_skippedSteps a + stepsWith skipped steps)%nat.
Proof.
  revert a. induction scs as [|sc scs IH]; intros a; cbn zeta.
  - simpl. by rewrite !Nat.add_0_r.
  - cbn [fold_left]. destruct (IH (countScenario a sc)) as (H1 & H2 & H3 & H4).
    destruct (countScenario_step_counters a sc) as (G1 & G2 & G3 & G4).
    change ((sc :: scs) ≫= ts_steps) with (ts_steps sc ++ (scs ≫= ts_steps)).
    rewrite H1, H2, H3, H4, G1, G2, G3, G4, !stepsWith_app, length_app.
    repeat split; lia.
Qed.

Lemma countFeatures_step_counters (features : list TestFeature) (a : acc) :
  let a' := fold_left countFeature features a in
  let steps := stepsOfReport features in
  a_totalSteps a' = (a_totalSteps a + length steps)%nat
  ∧ a_passedSteps a' = (a_passedSteps a + stepsWith passed steps)%nat
  ∧ a_failedSteps a' = (a_failedSteps a + stepsWith failed steps)%nat
  ∧ a_skippedSteps a' = (a_skippedSteps a + stepsWith skipped steps)%nat.
Proof.
  unfold stepsOfReport, scenariosOf.
  revert a. induction features as [|f features IH]; intros a; cbn zeta.
  - simpl. by rewrite !Nat.add_0_r.
  - cbn [fold_left]. destruct (IH (countFeature a f)) as (H1 & H2 & H3 & H4).
    destruct (countScenarios_step_counters (tf_elements f) a) as (G1 & G2 & G3 & G4).
    unfold countFeature in *.
    change ((f :: features) ≫= tf_elements)
      with (tf_elements f ++ (features ≫= tf_elements)).
    rewrite bind_app.
    rewrite H1, H2, H3, H4, G1, G2, G3, G4, !stepsWith_app, length_app.
    repeat split; lia.
Qed.

Lemma steps_partition (steps : list CucumberStep) :
  length steps
  = (stepsWith passed steps + stepsWith failed steps + stepsWith skipped steps
     + stepsWith undefined steps)%nat.
Proof.
  unfold stepsWith, hasStatus. induction steps as [|step steps IH]; [done|].
  cbn [List.filter length]. destruct (status (result step)); simpl; lia.
Qed.

(** Every step of the report is counted in [totalSteps], and in exactly
    one of [passedSteps], [failedSteps] and [skippedSteps] unless its
    status is 'undefined': the three counters add up to [totalSteps] less
    the number of steps of undefined status. *)
Theorem step_counters_by_status (features : list TestFeature) :
  let st := generateStatistics features in
  let steps := stepsOfReport features in
  totalSteps st = length steps
  ∧ passedSteps st = stepsWith passed steps
  ∧ failedSteps st = stepsWith failed steps
  ∧ skippedSteps st = stepsWith skipped steps
  ∧ totalSteps st
    = (passedSteps st + failedSteps st + skippedSteps st + stepsWith undefined steps)%nat.
Proof.
  cbn zeta. unfold generateStatistics; simpl.
  destruct (countFeatures_step_counters features acc0) as (H1 & H2 & H3 & H4).
  simpl in H1, H2, H3, H4. rewrite H1, H2, H3, H4.
  repeat (split; [done|]). apply steps_partition.
Qed.

Lemma featureStats_counters (scs : list TestScenario) (p f k : nat) (d : number) :
  let n x := length (List.filter (fun sc => Status_eqb (getScenarioStatus sc) x) scs) in
  let s := fold_left featureStatsScenario scs (p, f, k, d) in
  s.1.1.1 = (p + n passed)%nat ∧ s.1.1.2 = (f + n failed)%nat
  ∧ s.1.2 = (k + n skipped)%nat.
Proof.
  cbn zeta. revert p f k d. induction scs as [|sc scs IH]; intros p f k d.
  - simpl. by rewrite !Nat.add_0_r.
  - cbn [fold_left List.filter]. unfold featureStatsScenario at 2 4 6.
    destruct (IH ((if Status_eqb (getScenarioStatus sc) passed then S else id) p)
                 ((if Status_eqb (getScenarioStatus sc) failed then S else id) f)
                 ((if Status_eqb (getScenarioStatus sc) skipped then S else id) k)
                 (fold_left addStepMs (ts_steps sc) d)) as (H1 & H2 & H3).
    rewrite H1, H2, H3.
    destruct (getScenarioStatus sc); simpl; repeat split; lia.
Qed.

(** The per-feature counters of [getFeatureStats] are the scenario
    counters of [generateStatistics] on that feature alone, although the
    two functions classify a scenario in different ways (one by flags set
    while walking the steps, the other through [getScenarioStatus]); they
    add up to the number of scenarios of the feature. *)
Theorem feature_stats_agree_with_statistics (feature : TestFeature) :
  let fs := getFeatureStats feature in
  let st := generateStatistics [feature] in
  fs_passed fs = passedScenarios st
  ∧ fs_failed fs = failedScenarios st
  ∧ fs_skipped fs = skippedScenarios st
  ∧ (fs_passed fs + fs_failed fs + fs_skipped fs)%nat = length (tf_elements feature).
Proof.
  cbn zeta. unfold generateStatistics; simpl.
  destruct (countScenarios_counters (tf_elements feature) acc0) as (_ & P & F & K).
  fold (countFeature acc0 feature) in P, F, K. simpl in P, F, K.
  rewrite P, F, K.
  pose proof (scenarios_partition (tf_elements feature)) as Sum. cbn zeta in Sum.
  unfold getFeatureStats.
  pose proof (featureStats_counters (tf_elements feature) 0 0 0 (JSNumber.of_Z 0)) as H.
  cbn zeta in H.
  destruct (fold_left featureStatsScenario _ _) as [[[p f] k] d].
  simpl in *. destruct H as (-> & -> & ->). repeat (split; [done|]). lia.
Qed.

End StatisticsCounters.

(* ===================================================================== *)
(** * Further properties of the correlator *)
(* ===================================================================== *)

Section CorrelatorLookup.
Import Correlator CorrelatorSpec.
Local Open Scope list_scope.

Lemma recordTests_lookup (l : list CypressTest) (m : gmap string TestResult) (n : string) :
  fold_left recordTest l m !! n
  = match last (List.filter (titled n) l) with
    | Some t => Some (resultOf t)
    | None => m !! n
    end.
Proof.
  revert m. induction l as [|t l IH]; intros m; [done|].
  cbn [fold_left List.filter]. rewrite IH. unfold titled at 2.
  destruct (String.eqb (lastTitle t) n) eqn:E.
  - apply String.eqb_eq in E. subst n.
    destruct (List.filter _ l) as [|t' l'] eqn:F.
    + simpl. unfold recordTest. by rewrite lookup_insert_eq.
    + rewrite last_cons_cons. destruct (last (t' :: l')) eqn:L; [done|].
      by apply last_None in L.
  - apply String.eqb_neq in E.
    destruct (last (List.filter (titled n) l)); [done|].
    unfold recordTest. by rewrite lookup_insert_ne.
Qed.

Lemma recordRuns_lookup (results : CypressResults) (featureFile : string)
    (m : gmap string TestResult) (n : string) :
  fold_left (recordRun featureFile) results m !! n
  = match last (List.filter (titled n) (testsFor results featureFile)) with
    | Some t => Some (resultOf t)
    | None => m !! n
    end.
Proof.
  revert m. induction results as [|run results IH]; intros m; [done|].
  cbn [fold_left]. rewrite IH. unfold testsFor. cbn [List.filter].
  unfold runMatches at 2, recordRun.
  destruct (spec run) as [specName|].
  - destruct (JSString.includes _ specName).
    + change ((run :: ?l) ≫= tests) with (tests run ++ (l ≫= tests)).
      rewrite List.filter_app, last_app.
      destruct (last (List.filter (titled n) (_ ≫= tests))); [done|].
      apply recordTests_lookup.
    + done.
  - done.
Qed.

(** The record kept for a scenario name is made from the last test of that
    title among the tests of the runs of the feature file, so a later test
    of the same title replaces an earlier one; there is a record exactly
    when there is such a test. *)
Theorem test_results_last_wins (results : CypressResults) (featureFile n : string) :
  getTestResultsForFeature results featureFile !! n
  = resultOf <$> last (List.filter (titled n) (testsFor results featureFile)).
Proof.
  unfold getTestResultsForFeature. rewrite recordRuns_lookup.
  by destruct (last _).
Qed.

End CorrelatorLookup.

Section CorrelatorFrame.
Import Correlator CorrelatorSpec CorrelatorFacts.
Local Open Scope list_scope.

Lemma sameLabels_refl (h : heap) : sameLabels h h.
Proof. by split. Qed.

Lemma sameLabels_trans (h1 h2 h3 : heap) :
  sameLabels h1 h2 -> sameLabels h2 h3 -> sameLabels h1 h3.
Proof.
  intros [L1 E1] [L2 E2]. split; [congruence|]. intros r. by rewrite E2, E1.
Qed.

Lemma sameLabels_alter (g : CucumberStep -> CucumberStep) (r : ref) (h : heap) :
  (forall s, labelOf (g s) = labelOf s) -> sameLabels h (alter g r h).
Proof.
  intros Hg. split; [apply length_alter|]. intros r'.
  destruct (decide (r = r')) as [->|Hne].
  - rewrite list_lookup_alter_eq. destruct (h !! r'); simpl; by rewrite ?Hg.
  - by rewrite list_lookup_alter_ne.
Qed.

Lemma sameLabels_forEachFrom (body : ref -> nat -> heap -> heap)
    (refs : list ref) (i : nat) (h : heap) :
  (forall r i h, sameLabels h (body r i h)) ->
  sameLabels h (forEachFrom body i refs h).
Proof.
  intros Hbody. revert i h. induction refs as [|r refs IH]; intros i h; simpl.
  - apply sameLabels_refl.
  - eapply sameLabels_trans; [apply Hbody|apply IH].
Qed.

Lemma sameLabels_markAround fi d n e r i (h : heap) :
  sameLabels h (markAround fi d n e r i h).
Proof.
  unfold markAround.
  destruct (Z.of_nat i <? fi)%Z; [by apply sameLabels_alter|].
  destruct (Z.of_nat i =? fi)%Z; [|by apply sameLabels_alter].
  destruct e as [msg|]; [destruct (JSString.truthy msg)|];
    try (by apply sameLabels_alter).
  apply (sameLabels_trans h (alter (setStatusDuration failed d) r h));
    by apply sameLabels_alter.
Qed.

Lemma sameLabels_mergeScenario testResults (h : heap) (sc : CucumberScenario) :
  sameLabels h (mergeScenario testResults h sc).
Proof.
  unfold mergeScenario.
  destruct (lookupResult testResults (scenario_name sc)) as [res| |];
    [| |apply sameLabels_refl].
  - destruct (tr_status res); unfold forEach; apply sameLabels_forEachFrom; intros;
      first [by apply sameLabels_alter | apply sameLabels_markAround].
  - unfold forEach; apply sameLabels_forEachFrom; intros r i h'.
    unfold markAroundUndefined.
    destruct (Z.of_nat i <? _)%Z; [by apply sameLabels_alter|].
    destruct (Z.of_nat i =? _)%Z; by apply sameLabels_alter.
Qed.

Lemma sameLabels_mergeScenarios testResults (scs : list CucumberScenario) (h : heap) :
  sameLabels h (fold_left (mergeScenario testResults) scs h).
Proof.
  revert h. induction scs as [|sc scs IH]; intros h; simpl.
  - apply sameLabels_refl.
  - eapply sameLabels_trans; [apply sameLabels_mergeScenario|apply IH].
Qed.

Lemma labels_readSteps (h h' : heap) (refs : list ref) :
  sameLabels h h' -> labelOf <$> readSteps h' refs = labelOf <$> readSteps h refs.
Proof.
  intros [_ E]. unfold readSteps. induction refs as [|r refs IH]; [done|].
  cbn [omap list_omap]. specialize (E r).
  destruct (h' !! r) as [c|], (h !! r) as [c0|]; try discriminate E; [|done].
  change (Some (labelOf c) = Some (labelOf c0)) in E. apply (inj Some) in E.
  by rewrite !fmap_cons, E, IH.
Qed.

(** The correlator changes results only: the report written after the
    merge has the feature, the scenarios and the steps of the parsed
    feature, with the same names and keywords in the same order, whatever
    the records are; no step is added, dropped or renamed. *)
Theorem merge_changes_results_only (fh : CucumberFeature * heap)
    (testResults : gmap string TestResult) :
  labelsOf (snapshot (mergeFeatureWithResults fh testResults)) = labelsOf (snapshot fh)
  ∧ length (mergeFeatureWithResults fh testResults).2 = length fh.2.
Proof.
  pose proof (sameLabels_mergeScenarios testResults (elements fh.1) fh.2) as Hs.
  split; [|apply Hs].
  unfold labelsOf, snapshot, mergeFeatureWithResults; simpl. f_equal.
  rewrite <- !list_fmap_compose. apply list_fmap_ext. intros _ sc _.
  unfold labelsOfScenario, snapshotScenario; simpl. f_equal.
  by apply labels_readSteps.
Qed.

End CorrelatorFrame.

Section FailedBranch.
Import Correlator CorrelatorSpec CorrelatorFacts ReportStatistics.
Local Open Scope list_scope.

(** The index blamed for a failure is the second step or the last one;
    it is the last one when there is no error message. *)
Lemma detect_cases (e : option string) (refs : list ref) :
  detectFailedStepFromError e refs = 1
  ∨ detectFailedStepFromError e refs = Z.of_nat (length refs) - 1.
Proof.
  unfold detectFailedStepFromError. destruct e as [msg|]; [|by right].
  destruct (negb _); [by right|].
  destruct (_ || _); [by left|]. destruct (_ || _); [by left|by right].
Qed.

(** A step object held by one scenario only, at position [j] of a
    scenario whose record is failed: before the blamed position it is
    passed with duration D / K, at the blamed position it is failed with
    the whole duration D and the error message of the record (when that is
    not empty), after it skipped with duration 0. Keyword and name stay. *)
Theorem failed_steps_unshared (f : CucumberFeature) (h : heap)
    (testResults : gmap string TestResult)
    (before after : list CucumberScenario) (sc : CucumberScenario)
    (res : TestResult) (j : nat) (r : ref) (s : CucumberStep) :
  elements f = before ++ sc :: after ->
  testResults !! scenario_name sc = Some res ->
  tr_status res = failed ->
  NoDup (steps sc) ->
  steps sc !! j = Some r ->
  (forall sc', sc' ∈ before ++ after -> r ∉ steps sc') ->
  h !! r = Some s ->
  exists s',
    (mergeFeatureWithResults (f, h) testResults).2 !! r = Some s'
    ∧ labelOf s' = labelOf s
    ∧ let blamed := detectFailedStepFromError (tr_error_message res) (steps sc) in
      (Z.of_nat j < blamed ->
         marked passed (JSNumber.div (tr_duration res) (JSNumber.of_nat (length (steps sc)))) s'
         ∧ error_message (result s') = error_message (result s))
      ∧ (Z.of_nat j = blamed ->
         marked failed (tr_duration res) s'
         ∧ error_message (result s')
           = match tr_error_message res with
             | Some msg => if JSString.truthy msg then Some msg else error_message (result s)
             | None => error_message (result s)
             end)
      ∧ (blamed < Z.of_nat j ->
         marked skipped (JSNumber.of_Z 0) s'
         ∧ error_message (result s') = error_message (result s)).
Proof.
  intros Hel Hres Hst Hnd Hj Hsep Hs.
  rewrite (merge_unshared f h testResults before after sc r Hel Hsep).
  rewrite (mergeScenario_failed testResults h sc res j r Hres Hst Hnd Hj), Hs.
  eexists. split; [reflexivity|]. unfold Spec.markedStep, marked.
  set (blamed := detectFailedStepFromError _ _).
  destruct (Z.ltb_spec (Z.of_nat j) blamed) as [Hlt|Hge].
  { split; [done|]. cbn zeta. repeat split; try done; lia. }
  destruct (Z.eqb_spec (Z.of_nat j) blamed) as [Heq|Hne].
  { destruct (tr_error_message res) as [msg|]; [destruct (JSString.truthy msg)|];
      (split; [done|]); cbn zeta; repeat split; try done; lia. }
  split; [done|]. cbn zeta. repeat split; try done; lia.
Qed.

Lemma failed_steps_unshared_witness :
  exists s',
    (mergeFeatureWithResults (MoreFixtures.payment_feature, MoreFixtures.payment_store)
       {[ "Pay by card" := MoreFixtures.payment_failed ]}).2 !! 2%nat = Some s'
    ∧ labelOf s' = labelOf (Parser.newStep "Then" "the order is paid")
    ∧ let blamed := detectFailedStepFromError (Some MoreFixtures.timeout_error) [0; 1; 2]%nat in
      (2 < blamed ->
         marked passed (JSNumber.div (JSNumber.of_Z 3000000000) (JSNumber.of_nat 3)) s'
         ∧ error_message (result s') = None)
      ∧ (2 = blamed ->
         marked failed (JSNumber.of_Z 3000000000) s'
         ∧ error_message (result s') = Some MoreFixtures.timeout_error)
      ∧ (blamed < 2 ->
         marked skipped (JSNumber.of_Z 0) s'
         ∧ error_message (result s') = None).
Proof.
  apply (failed_steps_unshared MoreFixtures.payment_feature MoreFixtures.payment_store
           {[ "Pay by card" := MoreFixtures.payment_failed ]}
           [] [] MoreFixtures.payment_scenario MoreFixtures.payment_failed 2%nat 2%nat
           (Parser.newStep "Then" "the order is paid"));
    [ reflexivity | apply lookup_singleton_eq | reflexivity
    | refine (bool_decide_unpack _ _); vm_compute; exact I | reflexivity
    | intros sc' Hsc'; by apply elem_of_nil in Hsc' | reflexivity ].
Defined.

Lemma readSteps_elem (h : heap) (refs : list ref) (r : ref) (s : CucumberStep) :
  r ∈ refs -> h !! r = Some s -> s ∈ readSteps h refs.
Proof.
  intros Hr Hs. unfold readSteps. apply list_elem_of_omap. by exists r.
Qed.

(** A failed record of a scenario with at least two steps always shows:
    the scenario is reported as failed, whatever the error message is,
    provided no scenario merged after it holds one of its step objects. *)
Theorem failed_run_reported_failed (f : CucumberFeature) (h : heap)
    (testResults : gmap string TestResult)
    (before after : list CucumberScenario) (sc : CucumberScenario) (res : TestResult) :
  elements f = before ++ sc :: after ->
  testResults !! scenario_name sc = Some res ->
  tr_status res = failed ->
  Lines.refs_ok h (steps sc) ->
  (2 <= length (steps sc))%nat ->
  (forall sc' r, sc' ∈ after -> r ∈ steps sc -> r ∉ steps sc') ->
  getScenarioStatus
    (snapshotScenario (mergeFeatureWithResults (f, h) testResults).2 sc) = failed.
Proof.
  intros Hel Hres Hst [Hnd Hlt] Hlen Hsep.
  set (blamed := detectFailedStepFromError (tr_error_message res) (steps sc)).
  assert (Hj : exists j, Z.of_nat j = blamed ∧ (j < length (steps sc))%nat).
  { destruct (detect_cases (tr_error_message res) (steps sc)) as [H1|H1]; fold blamed in H1.
    - exists 1%nat. split; [by rewrite H1|lia].
    - exists (length (steps sc) - 1)%nat. split; [lia|lia]. }
  destruct Hj as (j & Hjb & Hjlt).
  destruct (lookup_lt_is_Some_2 _ _ Hjlt) as [r Hr].
  assert (Hin : r ∈ steps sc) by (by eapply list_elem_of_lookup_2).
  unfold mergeFeatureWithResults; simpl. rewrite Hel, fold_left_app; simpl.
  set (h1 := fold_left (mergeScenario testResults) before h).
  assert (Hh1 : exists s, h1 !! r = Some s).
  { apply lookup_lt_is_Some_2. unfold h1.
    destruct (sameLabels_mergeScenarios testResults before h) as [-> _].
    rewrite Forall_forall in Hlt. by apply Hlt. }
  destruct Hh1 as [s Hs].
  set (h3 := fold_left _ after _).
  assert (H3 : h3 !! r
               = Some (Spec.markedStep blamed (tr_duration res) (length (steps sc))
                         (tr_error_message res) j s)).
  { unfold h3. rewrite mergeScenarios_other by (intros sc' Hsc'; by apply Hsep).
    rewrite (mergeScenario_failed testResults h1 sc res j r Hres Hst Hnd Hr).
    fold blamed. by rewrite Hs. }
  unfold getScenarioStatus, snapshotScenario; simpl.
  assert (Hex : existsb (fun step => Status_eqb (status (result step)) failed)
                  (readSteps h3 (steps sc)) = true).
  { apply existsb_exists. eexists. split.
    - apply list_elem_of_In. eapply readSteps_elem; [exact Hin|exact H3].
    - unfold Spec.markedStep. rewrite <- Hjb, Z.ltb_irrefl, Z.eqb_refl.
      destruct (tr_error_message res) as [msg|]; [destruct (JSString.truthy msg)|]; done. }
  by rewrite Hex.
Qed.

Lemma failed_run_reported_failed_witness :
  getScenarioStatus
    (snapshotScenario
       (mergeFeatureWithResults (MoreFixtures.payment_feature, MoreFixtures.payment_store)
          {[ "Pay by card" := MoreFixtures.payment_failed ]}).2
       MoreFixtures.payment_scenario) = failed.
Proof.
  apply (failed_run_reported_failed MoreFixtures.payment_feature MoreFixtures.payment_store
           {[ "Pay by card" := MoreFixtures.payment_failed ]}
           [] [] MoreFixtures.payment_scenario MoreFixtures.payment_failed);
    [ reflexivity | apply lookup_singleton_eq | reflexivity
    | split; [refine (bool_decide_unpack _ _); vm_compute; exact I
             | repeat constructor]
    | simpl; lia
    | intros sc' r Hsc'; by apply elem_of_nil in Hsc' ].
Defined.

End FailedBranch.

(* ===================================================================== *)
(** * Further properties of the parser *)
(* ===================================================================== *)

Section ParserNames.
Import Parser Lines ParserSpec ParserFacts.
Local Open Scope string_scope.
Local Open Scope list_scope.

Lemma pushCurrent_addStep (st : state) (kw nm : string) :
  scenario_name <$> pushCurrent (addStep st kw nm) = scenario_name <$> pushCurrent st
  ∧ scenario_keyword <$> pushCurrent (addStep st kw nm)
    = scenario_keyword <$> pushCurrent st
  ∧ featureName (addStep st kw nm) = featureName st.
Proof.
  unfold addStep, pushCurrent. destruct (currentScenario st) as [sc|]; simpl; [|done].
  by rewrite !fmap_app.
Qed.

Lemma parseLines_names (lines : list string) (st : state) :
  let st' := parseLines lines st in
  featureName st' = List.last (featureNames lines) (featureName st)
  ∧ scenario_name <$> pushCurrent st'
    = (scenario_name <$> pushCurrent st) ++ scenarioNames lines
  ∧ scenario_keyword <$> pushCurrent st'
    = (scenario_keyword <$> pushCurrent st) ++ (scenarioNames lines ≫= fun _ => ["Scenario"]).
Proof.
  cbn zeta. revert st. unfold parseLines.
  induction lines as [|line lines IH]; intros st.
  - simpl. by rewrite !app_nil_r.
  - cbn [fold_left]. destruct (IH (parseLine st line)) as (H1 & H2 & H3).
    rewrite H1, H2, H3. clear IH H1 H2 H3.
    unfold featureNames, scenarioNames. cbn [omap list_omap].
    fold (featureNames lines). fold (scenarioNames lines).
    rewrite parseLine_classify.
    destruct (classify line) as [nm| |nm|kw nm|]; cbv beta iota.
    + by rewrite last_cons_default.
    + done.
    + set (P := pushCurrent st). unfold pushCurrent. cbn [currentScenario scenarios featureName].
      rewrite !fmap_app, <- !app_assoc, bind_cons. done.
    + destruct (pushCurrent_addStep st kw nm) as (-> & -> & ->). done.
    + done.
Qed.

(** The feature carries the name on the last Feature line and the file
    path; the parser returns [null] exactly when that name is empty (or
    there is no Feature line). There is one scenario for each Scenario
    line, named after it, in the order of the lines. *)
Theorem parsed_names (content filePath : string) :
  let lines := JSString.split "010" content in
  match parseFeatureFile content filePath with
  | Some (f, h) =>
      featureNameOf lines ≠ ""
      ∧ feature_keyword f = "Feature"
      ∧ feature_name f = featureNameOf lines
      ∧ uri f = Some filePath
      ∧ scenario_name <$> elements f = scenarioNames lines
      ∧ Forall (fun sc => scenario_keyword sc = "Scenario") (elements f)
  | None => featureNameOf lines = ""
  end.
Proof.
  cbn zeta. unfold parseFeatureFile.
  destruct (parseLines_names (JSString.split "010" content) init) as (H1 & H2 & H3).
  simpl in H1, H2, H3. fold (featureNameOf (JSString.split "010" content)) in H1.
  rewrite H1.
  destruct (featureNameOf _) as [|c s] eqn:E; simpl; [done|].
  repeat (split; [done|]).
  apply (Forall_fmap scenario_keyword (fun k => k = "Scenario")).
  rewrite H3. apply Forall_forall. intros k Hk.
  apply list_elem_of_bind in Hk as (x & Hk & _).
  by apply list_elem_of_singleton in Hk.
Qed.

End ParserNames.

Section ParserSharing.
Import Parser Lines ParserSpec ParserFacts.
Local Open Scope string_scope.
Local Open Scope list_scope.

Lemma shares_parseLine bg B (st : state) owns own (line : string) :
  isBackgroundLine line = false ->
  shares bg B st owns own ->
  exists owns' own', shares bg B (parseLine st line) owns' own'.
Proof.
  intros Hline Hsh. pose proof Hsh as [Hbg Hscs (sc & Hcur & Hsc) Hnd Hbound Hread].
  rewrite parseLine_classify. unfold isBackgroundLine in Hline.
  destruct (classify line) as [nm| |nm|kw nm|]; try done.
  - exists owns, own. split; simpl; try done. by exists sc.
  - exists (owns ++ [own]), []. split; simpl; try done.
    + unfold pushCurrent. rewrite Hcur, !fmap_app, Hscs. simpl. by rewrite Hsc.
    + eexists. split; [done|]. simpl. by rewrite Hbg, app_nil_r.
    + by rewrite concat_app, app_nil_r; simpl; rewrite app_nil_r.
    + by rewrite concat_app, app_nil_r; simpl; rewrite app_nil_r.
  - exists owns, (own ++ [length (store st)]). unfold addStep. rewrite Hcur.
    assert (Hfresh : length (store st) ∉ bg ++ concat owns ++ own).
    { intros Hin. rewrite Forall_forall in Hbound. specialize (Hbound _ Hin). lia. }
    split; simpl; try done.
    + eexists. split; [done|]. simpl. by rewrite Hsc, app_assoc.
    + rewrite !app_assoc. apply NoDup_app. rewrite <- !app_assoc.
      split; [done|]. split; [|apply NoDup_singleton].
      intros r Hr Hr'. apply list_elem_of_singleton in Hr' as ->. done.
    + rewrite !app_assoc. apply Forall_app. rewrite <- !app_assoc. split.
      * eapply Forall_impl; [exact Hbound|]. intros r Hr. rewrite length_app; simpl in *. lia.
      * apply Forall_singleton. rewrite length_app; simpl. lia.
    + rewrite readSteps_grow; [done|]. split.
      * by apply NoDup_app in Hnd as [? _].
      * by apply Forall_app in Hbound as [? _].
  - by exists owns, own.
Qed.

Lemma shares_parseLines bg B (lines : list string) (st : state) owns own :
  Forall (fun l => isBackgroundLine l = false) lines ->
  shares bg B st owns own ->
  exists owns' own', shares bg B (parseLines lines st) owns' own'.
Proof.
  intros Hlines. revert st owns own. unfold parseLines.
  induction Hlines as [|line lines Hline Hlines IH]; intros st owns own Hsh.
  - by exists owns, own.
  - cbn [fold_left].
    destruct (shares_parseLine bg B st owns own line Hline Hsh) as (owns1 & own1 & H1).
    by apply (IH _ owns1 own1).
Qed.

(** The references of a parsed feature: a common beginning [bg] for the
    Background, the rest distinct. *)
Lemma parsed_sharing (content filePath : string)
    (pre rest : list string) (scLine : string) (f : CucumberFeature) (h : heap) :
  JSString.split "010" content = pre ++ scLine :: rest ->
  Forall (fun l => isScenarioLine l = false) pre ->
  isScenarioLine scLine = true ->
  Forall (fun l => isBackgroundLine l = false) rest ->
  parseFeatureFile content filePath = Some (f, h) ->
  exists (bg : list ref) (owns : list (list ref)),
    steps <$> elements f = (fun own => bg ++ own) <$> owns
    ∧ readSteps h bg = backgroundOf pre
    ∧ NoDup (bg ++ concat owns)
    ∧ Forall (fun r => (r < length h)%nat) (bg ++ concat owns).
Proof.
  intros Hsplit Hpre Hsc Hrest. unfold parseFeatureFile.
  rewrite Hsplit. unfold parseLines. rewrite fold_left_app. cbn [fold_left].
  destruct (before_first_scenario pre init eq_refl Hpre) as (A1 & A2 & A3 & A4 & _).
  { split; constructor. }
  unfold parseLines in *. set (st1 := fold_left parseLine pre init) in *.
  rewrite (parseLine_classify st1 scLine). unfold isScenarioLine in Hsc.
  destruct (classify scLine) as [?| |nm|? ?|]; try done.
  set (st2 := {| featureName := featureName st1;
                 currentScenario :=
                   Some {| scenario_keyword := "Scenario"; scenario_name := nm;
                           steps := backgroundSteps st1 |};
                 backgroundSteps := backgroundSteps st1;
                 scenarios := pushCurrent st1; store := store st1 |}).
  assert (Hsh : shares (backgroundSteps st1) (backgroundOf pre) st2 [] []).
  { destruct A3 as [Hnd Hb]. split; simpl.
    - done.
    - unfold pushCurrent. by rewrite A1, A2.
    - eexists. split; [done|]. simpl. by rewrite app_nil_r.
    - by rewrite app_nil_r.
    - by rewrite app_nil_r.
    - exact A4. }
  destruct (shares_parseLines _ _ rest st2 [] [] Hrest Hsh) as (owns & own & Hfin).
  unfold parseLines in Hfin. set (st3 := fold_left parseLine rest st2) in *.
  destruct Hfin as [Hbg Hscs (sc & Hcur & Hsteps) Hnd Hbound Hread].
  destruct (JSString.truthy (featureName st3)); [|done].
  intros [= <- <-]. simpl.
  exists (backgroundSteps st1), (owns ++ [own]).
  split; [|split; [done|split]].
  - unfold pushCurrent. rewrite Hcur, !fmap_app, Hscs. simpl. by rewrite Hsteps.
  - by rewrite concat_app; simpl; rewrite app_nil_r.
  - by rewrite concat_app; simpl; rewrite app_nil_r.
Qed.

(** Where step objects are shared. Let the file have a first Scenario
    line, after lines [pre], and no Background line after it. Then every
    scenario of the parsed feature begins with the same references [bg],
    those of the Background steps collected from [pre], followed by
    references of its own; apart from that common beginning no step object
    occurs twice in the feature. So two scenarios share exactly the
    Background step objects. *)
Theorem background_objects_shared (content filePath : string)
    (pre rest : list string) (scLine : string) (f : CucumberFeature) (h : heap) :
  JSString.split "010" content = pre ++ scLine :: rest ->
  Forall (fun l => isScenarioLine l = false) pre ->
  isScenarioLine scLine = true ->
  Forall (fun l => isBackgroundLine l = false) rest ->
  parseFeatureFile content filePath = Some (f, h) ->
  exists (bg : list ref) (owns : list (list ref)),
    steps <$> elements f = (fun own => bg ++ own) <$> owns
    ∧ readSteps h bg = backgroundOf pre
    ∧ length bg = length (backgroundOf pre)
    ∧ NoDup (bg ++ concat owns).
Proof.
  intros Hsplit Hpre Hsc Hrest Hparse.
  destruct (parsed_sharing content filePath pre rest scLine f h
              Hsplit Hpre Hsc Hrest Hparse) as (bg & owns & Hsteps & Hread & Hnd & Hbound).
  exists bg, owns. repeat (split; [done|]). split; [|done].
  rewrite <- Hread. symmetry. apply readSteps_length. split.
  - by apply NoDup_app in Hnd as [? _].
  - by apply Forall_app in Hbound as [? _].
Qed.

Lemma background_objects_shared_witness :
  exists (bg : list ref) (owns : list (list ref)),
    steps <$> [ {| scenario_keyword := "Scenario"; scenario_name := "Open account";
                   steps := [0; 1]%nat |};
                {| scenario_keyword := "Scenario"; scenario_name := "Close account";
                   steps := [0; 2]%nat |} ]
    = (fun own => bg ++ own) <$> owns
    ∧ readSteps [ newStep "Given" "I am logged in via API";
                  newStep "When" "I open an account";
                  newStep "When" "I close the account" ] bg
      = [ newStep "Given" "I am logged in via API" ]
    ∧ length bg = 1%nat
    ∧ NoDup (bg ++ concat owns).
Proof.
  apply (background_objects_shared Fixtures.accounts_feature Fixtures.accounts_path
           (take 4 (JSString.split "010" Fixtures.accounts_feature))
           (drop 5 (JSString.split "010" Fixtures.accounts_feature))
           "  Scenario: Open account"
           {| feature_keyword := "Feature"; feature_name := "Accounts";
              uri := Some Fixtures.accounts_path;
              elements :=
                [ {| scenario_keyword := "Scenario"; scenario_name := "Open account";
                     steps := [0; 1]%nat |};
                  {| scenario_keyword := "Scenario"; scenario_name := "Close account";
                     steps := [0; 2]%nat |} ] |}).
  - vm_compute. reflexivity.
  - refine (bool_decide_unpack _ _). vm_compute. exact I.
  - vm_compute. reflexivity.
  - refine (bool_decide_unpack _ _). vm_compute. exact I.
  - vm_compute. reflexivity.
Defined.

End ParserSharing.


(* ===================================================================== *)
(** * The fallback report *)
(* ===================================================================== *)

Section FallbackReport.
Import Generator ReportStatistics Spec StepSpec FallbackSpec.
Local Open Scope list_scope.

Lemma scenariosOf_fallback (results : CypressResults) :
  scenariosOf (createFallbackCucumberJson results) = fallbackScenario <$> reportedTests results.
Proof.
  unfold scenariosOf, createFallbackCucumberJson, reportedTests.
  induction results as [|run results IH]; [done|].
  cbn [omap list_omap]. rewrite bind_cons. destruct (spec run) as [specName|].
  - rewrite bind_cons, fmap_app, <- IH. done.
  - by rewrite IH.
Qed.

Lemma fallbackScenario_status (test : CypressTest) :
  getScenarioStatus (fallbackScenario test) = if statePassed test then passed else failed.
Proof.
  unfold getScenarioStatus, fallbackScenario, statePassed; simpl.
  destruct (state test) as [s|]; [|done]. by destruct (String.eqb s "passed").
Qed.

Lemma length_filter_fmap {A B : Type} (p : B -> bool) (g : A -> B) (l : list A) :
  length (List.filter p (g <$> l)) = length (List.filter (fun x => p (g x)) l).
Proof.
  induction l as [|x l IH]; [done|]. rewrite fmap_cons. cbn [List.filter].
  destruct (p (g x)); simpl; by rewrite IH.
Qed.

Lemma length_filter_ext {A : Type} (p q : A -> bool) (l : list A) :
  (forall x, p x = q x) -> length (List.filter p l) = length (List.filter q l).
Proof.
  intros E. induction l as [|x l IH]; [done|]. cbn [List.filter]. rewrite E.
  destruct (q x); simpl; by rewrite IH.
Qed.

Lemma length_filter_false {A : Type} (p : A -> bool) (l : list A) :
  (forall x, p x = false) -> length (List.filter p l) = 0%nat.
Proof.
  intros E. induction l as [|x l IH]; [done|]. cbn [List.filter]. by rewrite E.
Qed.

(** The fallback report has one scenario of one step for every test of a
    run with a spec. A test counts as passed when its state is "passed"
    and as failed otherwise, a pending test included: the report never
    shows a skipped scenario or step. *)
Theorem fallback_statistics (results : CypressResults) :
  let st := generateStatistics (createFallbackCucumberJson results) in
  let tests := reportedTests results in
  totalScenarios st = length tests
  ∧ totalSteps st = length tests
  ∧ passedScenarios st = length (List.filter statePassed tests)
  ∧ passedSteps st = length (List.filter statePassed tests)
  ∧ failedScenarios st = length (List.filter (fun t => negb (statePassed t)) tests)
  ∧ failedSteps st = length (List.filter (fun t => negb (statePassed t)) tests)
  ∧ skippedScenarios st = 0%nat
  ∧ skippedSteps st = 0%nat.
Proof.
  cbn zeta. unfold generateStatistics; simpl.
  destruct (countFeatures_counters (createFallbackCucumberJson results) acc0)
    as (H1 & H2 & H3 & H4).
  destruct (countFeatures_step_counters (createFallbackCucumberJson results) acc0)
    as (G1 & G2 & G3 & G4).
  simpl in H1, H2, H3, H4, G1, G2, G3, G4.
  rewrite H1, H2, H3, H4, G1, G2, G3, G4.
  unfold scenariosWith, stepsOfReport, stepsWith. rewrite !scenariosOf_fallback.
  assert (Hsteps : (fallbackScenario <$> reportedTests results) ≫= ts_steps
                   = (fun t => hd (Fixtures.plainStep "" "" passed) (ts_steps (fallbackScenario t)))
                       <$> reportedTests results).
  { induction (reportedTests results) as [|t l IH]; [done|].
    rewrite !fmap_cons, bind_cons, IH. done. }
  rewrite Hsteps, !length_fmap, !length_filter_fmap.
  assert (Hst : forall t x,
            hasStatus x (hd (Fixtures.plainStep "" "" passed) (ts_steps (fallbackScenario t)))
            = Status_eqb (getScenarioStatus (fallbackScenario t)) x).
  { intros t x. rewrite fallbackScenario_status.
    unfold hasStatus, fallbackScenario, statePassed; simpl.
    destruct (state t) as [s|]; [|done]. by destruct (String.eqb s "passed"). }
  rewrite !(length_filter_ext _ _ _ (fun t => Hst t _)).
  repeat split;
    first [ apply length_filter_ext; intros t; rewrite fallbackScenario_status;
            by destruct (statePassed t)
          | apply length_filter_false; intros t; rewrite fallbackScenario_status;
            by destruct (statePassed t) ].
Qed.

End FallbackReport.

(* ===================================================================== *)
(** * The features of the report *)
(* ===================================================================== *)

Section ReportFeatures.
Import Generator ReportHtmlGenerator ConverterSpec.
Local Open Scope string_scope.
Local Open Scope list_scope.
Variable glob_sync : FS -> string -> list string.

Lemma NoDup_setAdd (x : string) (s : list string) : NoDup s -> NoDup (setAdd x s).
Proof.
  intros Hnd. unfold setAdd. destruct (existsb (String.eqb x) s) eqn:E; [done|].
  apply NoDup_app. split; [done|]. split; [|apply NoDup_singleton].
  intros y Hy Hy'. apply list_elem_of_singleton in Hy' as ->.
  apply existsb_eqb_elem_of in Hy. congruence.
Qed.

Lemma runFeatureFiles_spec (fs : FS) (results done : CypressResults) (acc : list string) :
  NoDup acc ->
  Forall (foundForRun glob_sync fs (done ++ results)) acc ->
  let files := fold_left (addRunFeatureFile glob_sync fs) results acc in
  NoDup files ∧ Forall (foundForRun glob_sync fs (done ++ results)) files.
Proof.
  cbn zeta. revert done acc. induction results as [|run results IH]; intros done acc Hnd Hall.
  - done.
  - cbn [fold_left].
    replace (done ++ run :: results) with ((done ++ [run]) ++ results) in *
      by (by rewrite <- app_assoc).
    apply IH.
    + unfold addRunFeatureFile. destruct (spec run); [|done].
      destruct (JSString.endsWith _ _); [|done].
      destruct (glob_sync _ _); [done|]. by apply NoDup_setAdd.
    + unfold addRunFeatureFile. destruct (spec run) as [specName|] eqn:Hspec; [|done].
      destruct (JSString.endsWith _ _) eqn:Hends; [|done].
      destruct (glob_sync _ _) as [|first rest] eqn:Hglob; [done|].
      apply Forall_forall. intros x Hx. apply elem_of_setAdd in Hx as [->|Hx].
      * exists run, specName. split; [|by rewrite Hglob].
        apply elem_of_app. left. apply elem_of_app. right. apply list_elem_of_here.
      * rewrite Forall_forall in Hall. by apply Hall.
Qed.

Lemma reportFeature_uri (content path : string) (results : CypressResults)
    (fh : CucumberFeature * heap) :
  reportFeature content path results = Some fh -> uri fh.1 = Some path.
Proof.
  unfold reportFeature, Parser.parseFeatureFile.
  destruct (JSString.truthy _); [|done]. by intros [= <-].
Qed.

Lemma addFeatures_uris (fs : FS) (results : CypressResults)
    (files : list string) (acc : list (CucumberFeature * heap)) :
  exists kept,
    sublist kept files
    ∧ (fun fh : CucumberFeature * heap => uri fh.1)
        <$> fold_left (addFeature fs results) files acc
      = ((fun fh : CucumberFeature * heap => uri fh.1) <$> acc) ++ (Some <$> kept).
Proof.
  revert acc. induction files as [|file files IH]; intros acc.
  - exists []. simpl. by rewrite app_nil_r.
  - cbn [fold_left]. destruct (IH (addFeature fs results acc file)) as (kept & Hsub & Huri).
    rewrite Huri. unfold addFeature.
    destruct (fs !! file) as [content|] eqn:Hfile.
    + destruct (reportFeature content file results) as [fh|] eqn:Hrep.
      * exists (file :: kept). split; [by apply sublist_skip|].
        rewrite fmap_app, <- app_assoc. simpl.
        by rewrite (reportFeature_uri _ _ _ _ Hrep).
      * exists kept. split; [by apply sublist_cons|done].
    + exists kept. split; [by apply sublist_cons|done].
Qed.

Lemma addFeatures_readFrom (fs : FS) (results : CypressResults)
    (all files : list string) (acc : list (CucumberFeature * heap)) :
  (forall p, p ∈ files -> p ∈ all) ->
  Forall (readFrom fs results all) acc ->
  Forall (readFrom fs results all) (fold_left (addFeature fs results) files acc).
Proof.
  revert acc. induction files as [|file files IH]; intros acc Hsub Hacc; [done|].
  cbn [fold_left]. apply IH; [intros p Hp; by apply Hsub, list_elem_of_further|].
  unfold addFeature. destruct (fs !! file) as [content|] eqn:Hfile; [|done].
  destruct (reportFeature content file results) as [fh|] eqn:Hrep; [|done].
  apply Forall_app. split; [done|]. apply Forall_singleton.
  exists file, content. split; [apply Hsub, list_elem_of_here|done].
Qed.

(** Every feature of the report comes from a feature file that was run:
    the first file found for the spec name of some run, read from the
    file system, parsed and merged with the results; and no two features
    of the report come from the same file, however many runs name it. *)
Theorem report_features_from_run_files (fs : FS) (results : CypressResults) :
  let features := parseFeatureFilesAndCreateJson glob_sync fs results in
  Forall (fun fh : CucumberFeature * heap =>
            exists path content,
              foundForRun glob_sync fs results path
              ∧ fs !! path = Some content
              ∧ reportFeature content path results = Some fh
              ∧ uri fh.1 = Some path) features
  ∧ NoDup ((fun fh : CucumberFeature * heap => uri fh.1) <$> features).
Proof.
  cbn zeta. unfold parseFeatureFilesAndCreateJson.
  destruct (runFeatureFiles_spec fs results [] [] NoDup_nil_2 (Forall_nil_2 _))
    as [Hnd Hfound].
  simpl in Hnd, Hfound.
  set (files := fold_left (addRunFeatureFile glob_sync fs) results []) in *.
  split.
  - pose proof (addFeatures_readFrom fs results files files [] (fun _ H => H)
                  (Forall_nil_2 _)) as Hread.
    eapply Forall_impl; [exact Hread|].
    intros fh (path & content & Hin & Hc & Hr). exists path, content.
    rewrite Forall_forall in Hfound.
    split; [by apply Hfound|]. split; [done|]. split; [done|].
    by eapply reportFeature_uri.
  - destruct (addFeatures_uris fs results files []) as (kept & Hsub & ->). simpl.
    apply (NoDup_fmap_2 Some). by eapply sublist_NoDup.
Qed.

End ReportFeatures.

(* ===================================================================== *)
(** * Determinism of the conversion *)
(* ===================================================================== *)

Section Determinism.
Import Generator ConverterSpec.
Local Open Scope string_scope.
Local Open Scope list_scope.

Variable glob_sync : FS -> string -> list string.
Variable JSON_stringify : list TestFeature -> string.

Abbreviation convert := (convertCypressResultsToCucumberJson glob_sync JSON_stringify).
Abbreviation parsed := (parseFeatureFilesAndCreateJson glob_sync).

(** The old report is removed before anything is read. *)
Lemma convert_forgets_old_report (results : CypressResults) (fs : FS) :
  convert results (delete cucumberJsonPath fs) = convert results fs.
Proof.
  unfold convertCypressResultsToCucumberJson.
  by rewrite delete_delete_eq.
Qed.

Lemma convert_deletes_nothing_else (results : CypressResults) (fs : FS) :
  delete cucumberJsonPath (convert results fs) = delete cucumberJsonPath fs.
Proof.
  unfold convertCypressResultsToCucumberJson.
  destruct (0 <? length _)%nat; by rewrite delete_insert_eq, delete_delete_eq.
Qed.

(** The set of feature files depends on the searches of the runs only. *)
Lemma runFeatureFiles_same (fs fs' : FS) (results : CypressResults) (acc : list string) :
  (forall run pattern, run ∈ results -> patternOf run = Some pattern ->
     glob_sync fs pattern = glob_sync fs' pattern) ->
  fold_left (addRunFeatureFile glob_sync fs) results acc
  = fold_left (addRunFeatureFile glob_sync fs') results acc.
Proof.
  revert acc. induction results as [|run results IH]; intros acc Hsame; [done|].
  cbn [fold_left].
  assert (Hrun : addRunFeatureFile glob_sync fs acc run
                 = addRunFeatureFile glob_sync fs' acc run).
  { unfold addRunFeatureFile. specialize (Hsame run). unfold patternOf in Hsame.
    destruct (spec run) as [specName|]; [|done].
    destruct (JSString.endsWith ".feature" specName); [|done].
    by rewrite (Hsame _ (list_elem_of_here _ _) eq_refl). }
  rewrite Hrun. apply IH. intros run' pattern Hin. apply Hsame.
  by apply list_elem_of_further.
Qed.

(** The features depend on the contents of the feature files only. *)
Lemma addFeatures_same (fs fs' : FS) (results : CypressResults)
    (files : list string) (acc : list (CucumberFeature * heap)) :
  (forall file, file ∈ files -> fs !! file = fs' !! file) ->
  fold_left (addFeature fs results) files acc
  = fold_left (addFeature fs' results) files acc.
Proof.
  revert acc. induction files as [|file files IH]; intros acc Hsame; [done|].
  cbn [fold_left]. unfold addFeature at 2 4.
  rewrite <- (Hsame file (list_elem_of_here _ _)).
  apply IH. intros file' Hin. by apply Hsame, list_elem_of_further.
Qed.

Lemma parsed_same (results : CypressResults) (fs fs' : FS) :
  sameInputs glob_sync results fs fs' -> parsed fs results = parsed fs' results.
Proof.
  intros Hsame. unfold parseFeatureFilesAndCreateJson.
  rewrite <- (runFeatureFiles_same fs fs' results [])
    by (intros run pattern Hrun Hp; by apply (Hsame run pattern)).
  apply addFeatures_same. intros file Hfile.
  destruct (runFeatureFiles_spec glob_sync fs results [] [] NoDup_nil_2 (Forall_nil_2 _))
    as [_ Hfound].
  simpl in Hfound. rewrite Forall_forall in Hfound.
  destruct (Hfound file Hfile) as (run & specName & Hrun & Hspec & Hends & Hhead).
  eapply (Hsame run _ Hrun); [|exact Hhead].
  unfold patternOf. by rewrite Hspec, Hends.
Qed.


End Determinism.

Section DeterminismExample.
Import Generator ConverterSpec.
Local Open Scope string_scope.
Local Open Scope list_scope.


End DeterminismExample.

(* ===================================================================== *)
(** * Further properties of the screenshot matching *)
(* ===================================================================== *)

Section ScreenshotLists.
Import ReportHtmlGenerator ScreenshotSpec.
Local Open Scope string_scope.
Local Open Scope list_scope.

Lemma recordedUnder_eq (failedScenarios : list string) (name file : string) :
  recordedUnder failedScenarios name file
  = JSString.endsWith ".png" file
    && (JSString.truthy (testNameOf file) && isScenarioFailed (testNameOf file) failedScenarios)
    && String.eqb (testNameOf file) name.
Proof. reflexivity. Qed.

Lemma forEachFile_lookup (failedScenarios files : list string)
    (screenshots : gmap string (list string)) (name : string) :
  forEachFile failedScenarios files screenshots !! name
  = match List.filter (recordedUnder failedScenarios name) (reached failedScenarios files) with
    | [] => screenshots !! name
    | recorded => Some (default [] (screenshots !! name) ++ (relativePath <$> recorded))
    end.
Proof.
  revert screenshots. induction files as [|file files IH]; intros screenshots; [done|].
  cbn [forEachFile reached]. unfold addScreenshot, throws.
  destruct (JSString.endsWith ".png" file) eqn:E1; cbn [andb].
  2: { rewrite IH. cbn [List.filter]. rewrite recordedUnder_eq, E1. done. }
  destruct (JSString.truthy (testNameOf file) && isScenarioFailed _ _) eqn:E2; cbn [andb].
  2: { rewrite IH. cbn [List.filter]. rewrite recordedUnder_eq, E1, E2. done. }
  destruct (JSObject.inherited (testNameOf file)); [done|].
  rewrite IH. cbn [List.filter]. rewrite recordedUnder_eq, E1, E2. cbn [andb].
  destruct (String.eqb_spec (testNameOf file) name) as [->|Hne].
  - rewrite lookup_insert_eq. cbn [default].
    destruct (List.filter _ (reached _ files)) as [|f' fs']; [done|].
    unfold id. by rewrite (fmap_cons relativePath file), <- app_assoc.
  - by rewrite lookup_insert_ne.
Qed.

(** The screenshots shown under a name. The loop over the listing ends
    at the first file that would be recorded under a name that
    [Object.prototype] defines: that call throws and the files after it
    are not looked at. Of the files reached, exactly the PNG files whose
    extracted test name is the name asked for (not empty) and matches a
    failed scenario are recorded, in the order of the listing, each as
    "screenshots/" and the file path with forward slashes; a name without
    such a file has no entry, and a missing directory gives no entry at
    all. File names and scenario names are ASCII. *)
Theorem screenshots_of_a_name (files : list string) (cucumberData : list TestFeature)
    (name : string) :
  asciiFiles files ->
  asciiNames cucumberData ->
  findScreenshots (Some files) cucumberData !! name
  = match List.filter (recordedUnder (failedScenariosOf cucumberData) name)
            (reached (failedScenariosOf cucumberData) files) with
    | [] => None
    | recorded => Some (relativePath <$> recorded)
    end
  ∧ findScreenshots None cucumberData !! name = None.
Proof.
  intros _ _. split; [|done]. unfold findScreenshots. rewrite forEachFile_lookup.
  by destruct (List.filter _ _).
Qed.

Lemma screenshots_of_a_name_witness :
  findScreenshots (Some MoreFixtures.cart_listing) MoreFixtures.cart_run !! "Login Test"
  = Some [relativePath "login_test_failed.png"]
  ∧ findScreenshots None MoreFixtures.cart_run !! "Login Test" = None.
Proof.
  generalize (screenshots_of_a_name MoreFixtures.cart_listing MoreFixtures.cart_run
                "Login Test").
  change (List.filter
            (recordedUnder (failedScenariosOf MoreFixtures.cart_run) "Login Test")
            (reached (failedScenariosOf MoreFixtures.cart_run) MoreFixtures.cart_listing))
    with ["login_test_failed.png"].
  intros H. apply H.
  - refine (bool_decide_unpack _ _). vm_compute. exact I.
  - refine (bool_decide_unpack _ _). vm_compute. exact I.
Defined.

End ScreenshotLists.

(* ===================================================================== *)
(** * The most frequent errors *)
(* ===================================================================== *)

Section TopErrors.
Import ReportAnalytics AnalyticsSpec StepSpec Spec.
Local Open Scope list_scope.

Lemma increment_keys (k : string) (c : list (string * nat)) :
  (increment k c).*1 = if bool_decide (k ∈ c.*1) then c.*1 else c.*1 ++ [k].
Proof.
  induction c as [|[k' n] c IH]; [done|]. cbn [increment].
  destruct (String.eqb_spec k' k) as [->|Hne].
  - rewrite bool_decide_eq_true_2; [done|]. simpl. apply list_elem_of_here.
  - rewrite !fmap_cons, IH. cbn [fst].
    destruct (bool_decide (k ∈ c.*1)) eqn:E.
    + apply bool_decide_eq_true in E. rewrite bool_decide_eq_true_2; [done|].
      by apply list_elem_of_further.
    + apply bool_decide_eq_false in E. rewrite bool_decide_eq_false_2; [done|].
      intros [?|?]%elem_of_cons; [congruence|done].
Qed.

Lemma increment_NoDup (k : string) (c : list (string * nat)) :
  NoDup c.*1 -> NoDup (increment k c).*1.
Proof.
  intros Hnd. rewrite increment_keys. destruct (bool_decide (k ∈ c.*1)) eqn:E; [done|].
  apply bool_decide_eq_false in E. apply NoDup_app. split; [done|].
  split; [|apply NoDup_singleton]. intros x Hx Hx'.
  by apply list_elem_of_singleton in Hx' as ->.
Qed.

Lemma increment_countOf (k k' : string) (c : list (string * nat)) :
  countOf k' (increment k c) = (countOf k' c + if String.eqb k' k then 1 else 0)%nat.
Proof.
  induction c as [|[k0 n] c IH].
  - simpl. rewrite (String.eqb_sym k k'). by destruct (String.eqb k' k).
  - cbn [increment]. destruct (String.eqb_spec k0 k) as [->|Hne]; cbn [countOf].
    + rewrite (String.eqb_sym k k'). destruct (String.eqb k' k); lia.
    + destruct (String.eqb_spec k0 k') as [->|Hne'].
      * destruct (String.eqb_spec k' k); [congruence|lia].
      * apply IH.
Qed.

Lemma increment_positive (k : string) (c : list (string * nat)) :
  Forall (fun e => (0 < e.2)%nat) c -> Forall (fun e => (0 < e.2)%nat) (increment k c).
Proof.
  induction 1 as [|[k' n] c Hn Hc IH]; cbn [increment].
  - repeat constructor.
  - destruct (String.eqb k' k); constructor; simpl in *; try done; lia.
Qed.

Lemma countOf_elem (k : string) (n : nat) (c : list (string * nat)) :
  NoDup c.*1 -> (k, n) ∈ c -> countOf k c = n.
Proof.
  induction c as [|[k' n'] c IH]; intros Hnd Hin; [by apply elem_of_nil in Hin|].
  rewrite fmap_cons in Hnd. apply NoDup_cons in Hnd as [Hk' Hnd]. cbn [countOf].
  apply elem_of_cons in Hin as [[= <- <-]|Hin].
  - by rewrite String.eqb_refl.
  - destruct (String.eqb_spec k' k) as [->|Hne]; [|by apply IH].
    exfalso. apply Hk'. apply list_elem_of_fmap. by exists (k, n).
Qed.

Lemma countOf_absent (k : string) (c : list (string * nat)) :
  Forall (fun e => (0 < e.2)%nat) c -> (0 < countOf k c)%nat -> k ∈ c.*1.
Proof.
  induction 1 as [|[k' n] c Hn Hc IH]; cbn [countOf]; [lia|].
  destruct (String.eqb_spec k' k) as [->|Hne]; intros Hpos.
  - apply list_elem_of_here.
  - rewrite fmap_cons. apply list_elem_of_further. by apply IH.
Qed.

Lemma errorCountsOf_steps (features : list TestFeature) :
  errorCountsOf features = fold_left countError (stepsOfReport features) [].
Proof.
  unfold errorCountsOf, stepsOfReport, scenariosOf. generalize (@nil (string * nat)).
  induction features as [|f features IH]; intros c; [done|].
  cbn [fold_left]. rewrite IH. rewrite !bind_cons, bind_app, fold_left_app. f_equal.
  generalize c. clear. induction (tf_elements f) as [|sc scs IH]; intros c; [done|].
  cbn [fold_left]. by rewrite IH, bind_cons, fold_left_app.
Qed.

Lemma countError_counted (c : list (string * nat)) (step : CucumberStep) :
  countError c step
  = match countedMessage step with
    | Some error => increment (errorTypeOf error) c
    | None => c
    end.
Proof.
  unfold countError, countedMessage.
  destruct (status (result step)); try done.
  destruct (error_message (result step)) as [error|]; try done.
  by destruct (JSString.truthy error).
Qed.

Lemma countErrors_spec (steps : list CucumberStep) (c : list (string * nat)) :
  let c' := fold_left countError steps c in
  let types := errorTypeOf <$> omap countedMessage steps in
  (NoDup c.*1 -> NoDup c'.*1)
  ∧ (Forall (fun e => (0 < e.2)%nat) c -> Forall (fun e => (0 < e.2)%nat) c')
  ∧ forall k, countOf k c' = (countOf k c + length (List.filter (String.eqb k) types))%nat.
Proof.
  cbn zeta. revert c. induction steps as [|step steps IH]; intros c.
  - simpl. repeat split; try done; intros k; lia.
  - cbn [fold_left omap list_omap]. destruct (IH (countError c step)) as (H1 & H2 & H3).
    rewrite (countError_counted c step) in *.
    destruct (countedMessage step) as [error|]; [|done].
    split; [|split].
    + intros Hnd. by apply H1, increment_NoDup.
    + intros Hpos. by apply H2, increment_positive.
    + intros k. rewrite H3, increment_countOf, fmap_cons. cbn [List.filter].
      destruct (String.eqb k (errorTypeOf error)); simpl; lia.
Qed.

Lemma insertByCount_perm (x : string * nat) (l : list (string * nat)) :
  insertByCount x l ≡ₚ x :: l.
Proof.
  induction l as [|y l IH]; [done|]. cbn [insertByCount].
  destruct (x.2 <? y.2)%nat; [|done]. rewrite IH. apply Permutation_swap.
Qed.

Lemma sortByCount_perm (l : list (string * nat)) : sortByCount l ≡ₚ l.
Proof.
  induction l as [|x l IH]; [done|]. unfold sortByCount in *. cbn [fold_right].
  by rewrite insertByCount_perm, IH.
Qed.

Lemma insertByCount_sorted (x : string * nat) (l : list (string * nat)) :
  StronglySorted byCount l -> StronglySorted byCount (insertByCount x l).
Proof.
  induction 1 as [|y l Hl IH Hy]; cbn [insertByCount].
  - repeat constructor.
  - destruct (Nat.ltb_spec x.2 y.2) as [Hlt|Hge].
    + constructor; [done|]. rewrite insertByCount_perm. constructor; [|done].
      unfold byCount. lia.
    + constructor; [by constructor|]. constructor; [done|].
      eapply Forall_impl; [exact Hy|]. unfold byCount. intros z Hz. lia.
Qed.

Lemma sortByCount_sorted (l : list (string * nat)) : StronglySorted byCount (sortByCount l).
Proof.
  induction l as [|x l IH]; [constructor|]. by apply insertByCount_sorted.
Qed.

Lemma StronglySorted_take {A : Type} (R : A -> A -> Prop) (n : nat) (l : list A) :
  StronglySorted R l -> StronglySorted R (take n l).
Proof.
  intros Hl. revert n. induction Hl as [|x l Hl IH Hx]; intros [|n]; simpl; try constructor.
  - apply IH.
  - apply Forall_forall. intros y Hy. rewrite Forall_forall in Hx. apply Hx.
    by eapply (subseteq_take n l).
Qed.

(** The most frequent errors: [getTopErrors] returns at most five error
    types, each once, with the number of failed steps whose non-empty
    error message is of that type, in the order of non-increasing counts;
    an error type that occurs and is not listed occurs at most as often as
    every listed one, and five are listed then. *)
Theorem top_errors (features : list TestFeature) :
  let top := getTopErrors features in
  (length top <= 5)%nat
  ∧ StronglySorted byCount top
  ∧ NoDup top.*1
  ∧ (forall k n, (k, n) ∈ top -> n = occurrences k features ∧ (0 < n)%nat)
  ∧ (forall k, (0 < occurrences k features)%nat -> k ∉ top.*1 ->
       length top = 5%nat ∧ forall e, e ∈ top -> (occurrences k features <= e.2)%nat).
Proof.
  cbn zeta. unfold getTopErrors.
  destruct (countErrors_spec (stepsOfReport features) []) as (Hnd & Hpos & Hcount).
  cbn zeta in Hnd, Hpos, Hcount. rewrite <- errorCountsOf_steps in Hnd, Hpos, Hcount.
  specialize (Hnd (NoDup_nil_2)). specialize (Hpos (Forall_nil_2 _)).
  fold (countedTypes features) in Hcount.
  set (c := errorCountsOf features) in *. set (s := sortByCount c).
  assert (Hperm : s ≡ₚ c) by apply sortByCount_perm.
  assert (Hsorted : StronglySorted byCount s) by apply sortByCount_sorted.
  assert (Hnds : NoDup s.*1) by (by rewrite Hperm).
  split; [rewrite length_take; lia|].
  split; [by apply StronglySorted_take|].
  split. { rewrite fmap_take. eapply sublist_NoDup; [exact Hnds|apply sublist_take]. }
  split.
  - intros k n Hin. apply (subseteq_take 5 s) in Hin. rewrite Hperm in Hin.
    rewrite Forall_forall in Hpos. split; [|by apply (Hpos (k, n))].
    unfold occurrences. specialize (Hcount k). simpl in Hcount. rewrite <- Hcount.
    symmetry. by apply countOf_elem.
  - intros k Hocc Hk. unfold occurrences in *.
    specialize (Hcount k). simpl in Hcount. rewrite <- Hcount in *.
    assert (Hin : k ∈ s.*1) by (rewrite Hperm; by apply countOf_absent).
    apply list_elem_of_fmap in Hin as ([k' n] & -> & Hin). simpl in *.
    assert (Hn : countOf k' c = n).
    { apply countOf_elem; [done|]. by rewrite <- Hperm. }
    rewrite Hn. clear Hn Hcount Hocc.
    rewrite <- (take_drop 5 s) in Hin, Hsorted.
    apply elem_of_app in Hin as [Hin|Hin].
    { exfalso. apply Hk. apply list_elem_of_fmap. by exists (k', n). }
    split.
    + rewrite length_take. destruct (decide (5 <= length s)%nat); [lia|].
      rewrite drop_ge in Hin by lia. by apply elem_of_nil in Hin.
    + intros e He. apply StronglySorted_app in Hsorted as (Hle & _ & _).
      apply (Hle e (k', n) He Hin).
Qed.

End TopErrors.

(* ===================================================================== *)
(** * Escaped text *)
(* ===================================================================== *)

Section EscapedText.
Import ReportText TextSpec Lines.
Local Open Scope string_scope.

Lemma escapeHtml_cons (c : ascii) (text : string) :
  escapeHtml (String c text)
  = if Ascii.eqb c "&" then "&amp;" ++ escapeHtml text
    else if Ascii.eqb c "<" then "&lt;" ++ escapeHtml text
    else if Ascii.eqb c ">" then "&gt;" ++ escapeHtml text
    else if Ascii.eqb c quote then "&quot;" ++ escapeHtml text
    else if Ascii.eqb c "'" then "&#39;" ++ escapeHtml text
    else String c (escapeHtml text).
Proof.
  cbn [escapeHtml]. unfold escapeChar.
  repeat (destruct (Ascii.eqb c _); [done|]). done.
Qed.

(** Escaped text has no character of markup left, and reading the
    entities back gives the text again: escaping loses nothing, and two
    different texts are never shown as the same. *)
Theorem escapeHtml_safe_and_reversible (text : string) :
  allChars (fun c => negb (isMarkup c)) (escapeHtml text) = true
  ∧ unescapeHtml (escapeHtml text) = text
  ∧ forall other, escapeHtml other = escapeHtml text -> other = text.
Proof.
  assert (Hback : forall t, unescapeHtml (escapeHtml t) = t).
  { assert (Hp : forall s, String.prefix "" s = true) by (by intros []).
    unfold unescapeHtml. induction t as [|c t IH]; [done|].
    rewrite escapeHtml_cons.
    destruct (Ascii.eqb_spec c "&") as [->|H1].
    { change ("&amp;" ++ escapeHtml t)
        with (String "&" (String "a" (String "m" (String "p" (String ";" (escapeHtml t)))))).
      simpl. by rewrite Hp, IH. }
    destruct (Ascii.eqb_spec c "<") as [->|H2].
    { change ("&lt;" ++ escapeHtml t)
        with (String "&" (String "l" (String "t" (String ";" (escapeHtml t))))).
      simpl. by rewrite Hp, IH. }
    destruct (Ascii.eqb_spec c ">") as [->|H3].
    { change ("&gt;" ++ escapeHtml t)
        with (String "&" (String "g" (String "t" (String ";" (escapeHtml t))))).
      simpl. by rewrite Hp, IH. }
    destruct (Ascii.eqb_spec c quote) as [->|H4].
    { change ("&quot;" ++ escapeHtml t)
        with (String "&" (String "q" (String "u" (String "o" (String "t"
                (String ";" (escapeHtml t))))))).
      simpl. by rewrite Hp, IH. }
    destruct (Ascii.eqb_spec c "'") as [->|H5].
    { change ("&#39;" ++ escapeHtml t)
        with (String "&" (String "#" (String "3" (String "9" (String ";" (escapeHtml t)))))).
      simpl. by rewrite Hp, IH. }
    cbn [unescapeFrom]. apply Ascii.eqb_neq in H1. rewrite H1. by rewrite IH. }
  split; [|split].
  - induction text as [|c t IH]; [done|].
    rewrite escapeHtml_cons.
    destruct (Ascii.eqb_spec c "&") as [->|H1]; [exact IH|].
    destruct (Ascii.eqb_spec c "<") as [->|H2]; [exact IH|].
    destruct (Ascii.eqb_spec c ">") as [->|H3]; [exact IH|].
    destruct (Ascii.eqb_spec c quote) as [->|H4]; [exact IH|].
    destruct (Ascii.eqb_spec c "'") as [->|H5]; [exact IH|].
    cbn [allChars]. rewrite IH. unfold isMarkup.
    apply Ascii.eqb_neq in H2, H3, H4, H5. by rewrite H2, H3, H4, H5.
  - apply Hback.
  - intros other Heq. by rewrite <- (Hback other), Heq.
Qed.

End EscapedText.

(* ===================================================================== *)
(** * Parsing and merging a feature without Background steps *)
(* ===================================================================== *)

Section WithoutBackground.
Import Parser Lines ParserSpec ParserFacts Correlator CorrelatorSpec CorrelatorFacts.
Local Open Scope string_scope.
Local Open Scope list_scope.

Lemma readSteps_lookup (h : heap) (refs : list ref) (j : nat) :
  Forall (fun r => (r < length h)%nat) refs ->
  readSteps h refs !! j = refs !! j ≫= fun r => h !! r.
Proof.
  intros Hb. revert j. unfold readSteps.
  induction Hb as [|r refs Hr Hb IH]; intros j; [done|].
  cbn [omap list_omap]. destruct (lookup_lt_is_Some_2 _ _ Hr) as [s Hs]. rewrite Hs.
  destruct j as [|j]; simpl; [done|apply IH].
Qed.

Lemma elem_of_concat_fmap (r : ref) (sc : CucumberScenario) (scs : list CucumberScenario) :
  sc ∈ scs -> r ∈ steps sc -> r ∈ concat (steps <$> scs).
Proof.
  intros Hsc Hr. apply list_elem_of_In, in_concat. exists (steps sc). split.
  - apply list_elem_of_In, list_elem_of_fmap. by exists sc.
  - by apply list_elem_of_In.
Qed.

Lemma unshared_of_NoDup (before after : list CucumberScenario) (sc : CucumberScenario) :
  NoDup (concat (steps <$> before ++ sc :: after)) ->
  NoDup (steps sc)
  ∧ forall r sc', r ∈ steps sc -> sc' ∈ before ++ after -> r ∉ steps sc'.
Proof.
  rewrite fmap_app, fmap_cons, concat_app. cbn [concat].
  intros Hnd. apply NoDup_app in Hnd as (_ & Hba & Hnd).
  apply NoDup_app in Hnd as (Hsc & Hsa & _). split; [done|].
  intros r sc' Hr Hsc' Hr'. apply elem_of_app in Hsc' as [Hb|Ha].
  - apply (Hba r); [by eapply elem_of_concat_fmap|]. apply elem_of_app. by left.
  - apply (Hsa r Hr). by eapply elem_of_concat_fmap.
Qed.

(** A feature file without Background steps (none before the first
    Scenario line, no Background line after it), parsed and merged: every
    scenario shows what its own name finds in the records, however many
    scenarios there are. With a record of status passed every step is
    passed with duration D / K, with status skipped every step is skipped
    with duration 0, with status failed the steps are marked around the
    blamed index. A name that finds nothing leaves the steps as parsed. A
    name without record that is the name of a property of
    [Object.prototype] runs the failed branch with undefined fields: the
    last step fails without duration, the steps before it pass with a
    duration that is not a number. *)
Theorem without_background_steps_follow_records
    (content filePath : string) (pre rest : list string) (scLine : string)
    (f : CucumberFeature) (h : heap) (testResults : gmap string TestResult)
    (before after : list CucumberScenario) (sc : CucumberScenario) :
  JSString.isAscii content = true ->
  JSString.split "010" content = pre ++ scLine :: rest ->
  Forall (fun l => isScenarioLine l = false) pre ->
  isScenarioLine scLine = true ->
  Forall (fun l => isBackgroundLine l = false) rest ->
  backgroundOf pre = [] ->
  parseFeatureFile content filePath = Some (f, h) ->
  elements f = before ++ sc :: after ->
  let shown :=
    ts_steps (snapshotScenario (mergeFeatureWithResults (f, h) testResults).2 sc) in
  let parsed := readSteps h (steps sc) in
  length parsed = length (steps sc)
  ∧ match lookupResult testResults (scenario_name sc) with
    | FoundNothing => shown = parsed
    | FoundOther =>
        shown = imap (markedStepUndefined (Z.of_nat (length (steps sc)) - 1)) parsed
    | FoundRecord res =>
        match tr_status res with
        | passed =>
            shown = setStatusDuration passed
                      (JSNumber.div (tr_duration res) (JSNumber.of_nat (length (steps sc))))
                    <$> parsed
        | skipped => shown = setStatusDuration skipped (JSNumber.of_Z 0) <$> parsed
        | failed | undefined =>
            shown = imap (Spec.markedStep
                            (detectFailedStepFromError (tr_error_message res) (steps sc))
                            (tr_duration res) (length (steps sc)) (tr_error_message res))
                         parsed
        end
    end.
Proof.
  intros _ Hsplit Hpre Hsc Hrest Hbg Hparse Hel. cbn zeta.
  destruct (parsed_sharing content filePath pre rest scLine f h
              Hsplit Hpre Hsc Hrest Hparse) as (bg & owns & Hsteps & Hread & Hnd & Hbound).
  assert (bg = []) as ->.
  { apply length_zero_iff_nil.
    rewrite <- (readSteps_length h bg), Hread, Hbg; [done|]. split.
    - by apply NoDup_app in Hnd as [? _].
    - by apply Forall_app in Hbound as [? _]. }
  simpl in Hnd, Hbound, Hsteps. rewrite list_fmap_id in Hsteps.
  rewrite <- Hsteps, Hel in Hnd, Hbound.
  destruct (unshared_of_NoDup before after sc Hnd) as [Hndsc Hsep].
  assert (Hb : Forall (fun r => (r < length h)%nat) (steps sc)).
  { apply Forall_forall. intros r Hr. rewrite Forall_forall in Hbound. apply Hbound.
    eapply elem_of_concat_fmap; [|exact Hr]. apply elem_of_app. right. apply list_elem_of_here. }
  split; [by apply readSteps_length|].
  set (h' := (mergeFeatureWithResults (f, h) testResults).2).
  assert (Hb' : Forall (fun r => (r < length h')%nat) (steps sc)).
  { destruct (sameLabels_mergeScenarios testResults (elements f) h) as [Hlen _].
    unfold h', mergeFeatureWithResults. simpl. by rewrite Hlen. }
  assert (Hat : forall r, r ∈ steps sc -> h' !! r = mergeScenario testResults h sc !! r).
  { intros r Hr. apply (merge_unshared f h testResults before after sc r Hel).
    intros sc' Hsc'. by apply Hsep. }
  assert (Hlist : forall (G : nat -> CucumberStep -> CucumberStep),
            (forall j r, steps sc !! j = Some r ->
               mergeScenario testResults h sc !! r = G j <$> h !! r) ->
            readSteps h' (steps sc) = imap G (readSteps h (steps sc))).
  { intros G HG. apply list_eq. intros j.
    rewrite list_lookup_imap, !readSteps_lookup by done.
    destruct (steps sc !! j) as [r|] eqn:Hj; [|done]. simpl.
    rewrite Hat by (by eapply list_elem_of_lookup_2). by apply HG. }
  unfold snapshotScenario; simpl.
  destruct (lookupResult testResults (scenario_name sc)) as [res| |] eqn:Hres.
  - assert (Hown : forall r j, steps sc !! j = Some r -> r ∈ steps sc)
      by (intros; by eapply list_elem_of_lookup_2).
    destruct (tr_status res) eqn:Hst.
    + rewrite <- imap_const. apply Hlist. intros j r Hj.
      unfold mergeScenario. rewrite Hres, Hst. unfold forEach.
      apply forEachFrom_alter_all; [done|by eapply Hown].
    + apply Hlist. intros j r Hj. unfold mergeScenario. rewrite Hres, Hst. unfold forEach.
      rewrite (forEachFrom_at _ (fun r r' i h => markAround_other _ _ _ _ r r' i h) _ 0%nat j)
        by done.
      rewrite markAround_eq. simpl. f_equal.
      apply forEachFrom_other; [intros; by apply markAround_other|].
      intros Hin. apply list_elem_of_lookup in Hin as [k Hk].
      apply lookup_take_Some in Hk as [Hk Hlt].
      pose proof (NoDup_lookup _ _ _ _ Hndsc Hk Hj). lia.
    + rewrite <- imap_const. apply Hlist. intros j r Hj.
      unfold mergeScenario. rewrite Hres, Hst. unfold forEach.
      apply forEachFrom_alter_all; [done|by eapply Hown].
    + apply Hlist. intros j r Hj. unfold mergeScenario. rewrite Hres, Hst. unfold forEach.
      rewrite (forEachFrom_at _ (fun r r' i h => markAround_other _ _ _ _ r r' i h) _ 0%nat j)
        by done.
      rewrite markAround_eq. simpl. f_equal.
      apply forEachFrom_other; [intros; by apply markAround_other|].
      intros Hin. apply list_elem_of_lookup in Hin as [k Hk].
      apply lookup_take_Some in Hk as [Hk Hlt].
      pose proof (NoDup_lookup _ _ _ _ Hndsc Hk Hj). lia.
  - apply Hlist. intros j r Hj. unfold mergeScenario. rewrite Hres. unfold forEach.
    rewrite (forEachFrom_at _ (fun r r' i h => markAroundUndefined_other _ r r' i h) _ 0%nat j)
      by done.
    rewrite markAroundUndefined_eq. simpl. f_equal.
    apply forEachFrom_other; [intros; by apply markAroundUndefined_other|].
    intros Hin. apply list_elem_of_lookup in Hin as [k Hk].
    apply lookup_take_Some in Hk as [Hk Hlt].
    pose proof (NoDup_lookup _ _ _ _ Hndsc Hk Hj). lia.
  - rewrite (Hlist (fun _ => id)).
    + change (fun _ : nat => @id CucumberStep) with (const (B := nat) (@id CucumberStep)).
      by rewrite imap_const, list_fmap_id.
    + intros j r Hj. unfold mergeScenario. rewrite Hres. by destruct (h !! r).
Qed.

Lemma without_background_steps_follow_records_witness :
  length (readSteps MoreFixtures.transfers_store (steps MoreFixtures.send_money))
  = length (steps MoreFixtures.send_money)
  ∧ ts_steps
      (snapshotScenario
         (mergeFeatureWithResults (MoreFixtures.transfers_parsed, MoreFixtures.transfers_store)
            MoreFixtures.transfers_results).2
         MoreFixtures.send_money)
    = imap (Spec.markedStep
              (detectFailedStepFromError
                 (tr_error_message MoreFixtures.payment_failed)
                 (steps MoreFixtures.send_money))
              (tr_duration MoreFixtures.payment_failed)
              (length (steps MoreFixtures.send_money))
              (tr_error_message MoreFixtures.payment_failed))
           (readSteps MoreFixtures.transfers_store (steps MoreFixtures.send_money)).
Proof.
  generalize (without_background_steps_follow_records
                MoreFixtures.transfers_text MoreFixtures.transfers_path
                (take 1 (JSString.split "010" MoreFixtures.transfers_text))
                (drop 2 (JSString.split "010" MoreFixtures.transfers_text))
                "  Scenario: Send money"
                MoreFixtures.transfers_parsed MoreFixtures.transfers_store
                MoreFixtures.transfers_results
                [] [MoreFixtures.receive_money] MoreFixtures.send_money).
  cbn zeta.
  change (lookupResult MoreFixtures.transfers_results
            (scenario_name MoreFixtures.send_money))
    with (FoundRecord MoreFixtures.payment_failed).
  cbv beta iota. change (tr_status MoreFixtures.payment_failed) with failed. cbv beta iota.
  intros H. apply H.
  - vm_compute. reflexivity.
  - vm_compute. reflexivity.
  - refine (bool_decide_unpack _ _). vm_compute. exact I.
  - vm_compute. reflexivity.
  - refine (bool_decide_unpack _ _). vm_compute. exact I.
  - vm_compute. reflexivity.
  - vm_compute. reflexivity.
  - reflexivity.
Defined.

End WithoutBackground.
